(** * AIFF decoder of mattetti/exp: a shallow embedding and its properties

    Sources embedded here:
    - [audio/audio.go]: [FrameInfo], [IeeeFloatToInt];
    - [audio/aiff/decoder.go], first revision: [Decode] skipping chunks with
      [jumpTo] (module [V1]);
    - [audio/aiff/decoder.go], second revision: [Decode] skipping chunks with
      [dispatchToChan], the optional consumer channel (module [V2]).

    Conventions.  Go's fixed-width integers are [Z] with the wrap-around
    written out ([uint32], [int64]); [int] is 64 bits wide.  A [byte] is
    [Byte.byte]; [[4]byte] and [[10]byte] are records, so that a value of
    the wrong length does not exist.  A Go [error] result is [option error],
    [None] being [nil].  The [io.ReadSeeker] handed to [Decode] is an
    in-memory reader (Go's [bytes.Reader]): a byte slice and a cursor.
    A [float64] is a [spec_float] of the Standard Library with 53 bits of
    precision, its operations rounding to nearest, ties to even. *)

From Stdlib Require Import ZArith List Lia Bool String Reals Lra.
From Stdlib Require Import Strings.Byte Floats.SpecFloat.
Import ListNotations.
Local Open Scope Z_scope.

(** ** Machine integers *)

Definition u8 (b : byte) : Z := Z.of_N (Byte.to_N b).

Definition uint32 (z : Z) : Z := z mod 2 ^ 32.

Definition int64 (z : Z) : Z := (z + 2 ^ 63) mod 2 ^ 64 - 2 ^ 63.

(** ** Fixed-size byte arrays *)

Record Bytes4 : Type := B4 { q0 : byte; q1 : byte; q2 : byte; q3 : byte }.

Record Bytes10 : Type := B10 {
  t0 : byte; t1 : byte; t2 : byte; t3 : byte; t4 : byte;
  t5 : byte; t6 : byte; t7 : byte; t8 : byte; t9 : byte }.

Definition Bytes4_eqb (x y : Bytes4) : bool :=
  Byte.eqb (q0 x) (q0 y) && Byte.eqb (q1 x) (q1 y) &&
  Byte.eqb (q2 x) (q2 y) && Byte.eqb (q3 x) (q3 y).

Definition byte_at (l : list byte) (i : nat) : byte := nth i l x00.

Definition Bytes4_of_list (l : list byte) : Bytes4 :=
  B4 (byte_at l 0) (byte_at l 1) (byte_at l 2) (byte_at l 3).

Definition Bytes10_of_list (l : list byte) : Bytes10 :=
  B10 (byte_at l 0) (byte_at l 1) (byte_at l 2) (byte_at l 3) (byte_at l 4)
      (byte_at l 5) (byte_at l 6) (byte_at l 7) (byte_at l 8) (byte_at l 9).

Definition ascii4 (s : string) : Bytes4 := Bytes4_of_list (list_byte_of_string s).

(** ** audio/audio.go *)

Module audio.

Record FrameInfo : Type := {
  Channels : Z;
  BitDepth : Z;
  SampleRate : Z }.

(** The [return] statements of [IeeeFloatToInt], named after the comments
    that stand above them in the source. *)
Inductive ret_site : Type :=
| NegativeNumber
| LessThanOne
| TooBig
| StillTooBig
| Mantissa.

(** [IeeeFloatToInt] with the [return] it leaves through.  All operands of
    the last two statements are [uint32]; the conversion [int(i)] of the
    result changes no value. *)
Definition IeeeFloatToInt_at (b : Bytes10) : ret_site * Z :=
  if Z.land (u8 (t0 b)) 0x80 =? 1 then (NegativeNumber, 0)
  else if u8 (t0 b) <=? 0x3F then (LessThanOne, 1)
  else if u8 (t0 b) >? 0x40 then (TooBig, 67108864)
  else if (u8 (t0 b) =? 0x40) && (u8 (t1 b) >? 0x1C) then (StillTooBig, 800000000)
  else
    let i := Z.lor (Z.lor (Z.lor (uint32 (Z.shiftl (u8 (t2 b)) 23))
                                 (uint32 (Z.shiftl (u8 (t3 b)) 15)))
                          (uint32 (Z.shiftl (u8 (t4 b)) 7)))
                   (Z.shiftr (u8 (t5 b)) 1) in
    let i := Z.shiftr i (uint32 (29 - u8 (t1 b))) in
    (Mantissa, i).

Definition IeeeFloatToInt (b : Bytes10) : Z := snd (IeeeFloatToInt_at b).

End audio.

(** The mantissa the last branch composes, as a number. *)
Definition mantissa (b : Bytes10) : Z :=
  Z.lor (Z.lor (Z.lor (u8 (t2 b) * 2 ^ 23) (u8 (t3 b) * 2 ^ 15)) (u8 (t4 b) * 2 ^ 7))
        (u8 (t5 b) / 2).

(** ** Errors *)

(** The error values the decoder can produce.  [io.EOF] and
    [io.ErrUnexpectedEOF] come from the reader; [ErrFmtNotSupported m] is
    [fmt.Errorf("%s - %s", ErrFmtNotSupported, m)], the format error of
    [readHeaders] on the marker [m]; [FieldError what e] is
    [fmt.Errorf(what + " - %s", e)] of [parseCommChunk]; [ErrSeek] is a
    refused [Seek]; [ErrNilDecoder] is the error of [Duration]. *)
Inductive error : Type :=
| EOF
| ErrUnexpectedEOF
| ErrFmtNotSupported (marker : Bytes4)
| FieldError (what : string) (cause : error)
| ErrSeek
| ErrNilDecoder.

(** ** The reader: a byte slice and a cursor *)

Record Reader : Type := { buf : list byte; cur : Z }.

Definition unread (rd : Reader) : list byte := skipn (Z.to_nat (cur rd)) (buf rd).

Definition advance (n : Z) (rd : Reader) : Reader :=
  {| buf := buf rd; cur := cur rd + n |}.

(** [io.ReadFull(r, make([]byte, n))]: all [n] bytes, or [io.EOF] when none
    is left, or [io.ErrUnexpectedEOF] after consuming the few that are. *)
Definition ReadFull (n : nat) (rd : Reader) : Reader * (list byte + error) :=
  match n with
  | O => (rd, inl [])
  | S _ =>
      match unread rd with
      | [] => (rd, inr EOF)
      | rest =>
          if (List.length rest <? n)%nat
          then (advance (Z.of_nat (List.length rest)) rd, inr ErrUnexpectedEOF)
          else (advance (Z.of_nat n) rd, inl (firstn n rest))
      end
  end.

(** [io.CopyN(ioutil.Discard, r, n)]: bytes skipped and error. *)
Definition CopyN_Discard (n : Z) (rd : Reader) : Reader * (Z * option error) :=
  let avail := Z.of_nat (List.length (unread rd)) in
  if n <=? 0 then (rd, (0, None))
  else if n <=? avail then (advance n rd, (n, None))
  else (advance avail rd, (avail, Some EOF)).

(** [r.Seek(offset, whence)] of [bytes.Reader]. *)
Definition Seek (offset whence : Z) (rd : Reader) : Reader * (Z * option error) :=
  let target :=
    match whence with
    | 0 => Some offset
    | 1 => Some (cur rd + offset)
    | 2 => Some (Z.of_nat (List.length (buf rd)) + offset)
    | _ => None
    end in
  match target with
  | None => (rd, (0, Some ErrSeek))
  | Some abs =>
      if abs <? 0 then (rd, (0, Some ErrSeek))
      else ({| buf := buf rd; cur := abs |}, (abs, None))
  end.

(** [binary.BigEndian] decoding of an unsigned integer. *)
Definition BigEndian (bs : list byte) : Z :=
  fold_left (fun acc b => Z.lor (Z.shiftl acc 8) (u8 b)) bs 0.

(** ** audio/aiff: declarations outside decoder.go *)

(** Modelled from the spec: the chunk and form identifiers [formID],
    [aiffID], [aifcID], [commID] and [ssndID] are declared in a file of the
    package other than decoder.go; the spec gives them as the ASCII
    markers FORM, AIFF, AIFC, COMM and SSND. *)
Definition formID : Bytes4 := ascii4 "FORM".
Definition aiffID : Bytes4 := ascii4 "AIFF".
Definition aifcID : Bytes4 := ascii4 "AIFC".
Definition commID : Bytes4 := ascii4 "COMM".
Definition ssndID : Bytes4 := ascii4 "SSND".

(** Modelled from the spec: the type [Chunk] is declared in a file of the
    package other than decoder.go; the spec describes the hand-off record as
    the chunk identifier, the declared size, a reference to the stream
    positioned at the start of the payload and a synchronization handle.
    The fields are those of the literal in [dispatchToChan],
    [&Chunk{ID: id, Size: int(size), R: d.r, okChan: okC, Wg: &d.Wg}], less
    the two for synchronization; [Chunk_R] is the shared reader as it stands
    at the hand-off. *)
Record Chunk : Type := { Chunk_ID : Bytes4; Chunk_Size : Z; Chunk_R : Reader }.

(** The receiving end of [Chan], between taking a chunk and calling
    [Wg.Done]: the number of bytes it reads from the shared reader. *)
Definition Consumer : Type := Chunk -> nat.

(** Modelled from the spec: the type [Clip] is declared in a file of the
    package other than decoder.go; the spec describes the clip produced as
    the frame information (channel count, bit depth, integer sample rate),
    the size in bytes of the sample data and the stream to read them from.
    The fields are those [Decode] assigns; [clip_r] is the reader as it
    stands when [Decode] returns. *)
Record Clip : Type := {
  clip_r : option Reader;
  channels : Z;
  bitDepth : Z;
  sampleRate : Z;
  size : Z }.

Definition Clip_zero : Clip :=
  {| clip_r := None; channels := 0; bitDepth := 0; sampleRate := 0; size := 0 |}.

(** Modelled from the spec: the methods [FrameInfo] and [Size] that make
    [Clip] an [audio.Clip] are declared with it; they report the frame
    information and the size in bytes. *)
Definition Clip_FrameInfo (c : Clip) : audio.FrameInfo :=
  {| audio.Channels := channels c; audio.BitDepth := bitDepth c;
     audio.SampleRate := sampleRate c |}.

Definition Clip_Size (c : Clip) : Z := size c.

(** ** audio/aiff/decoder.go: the decoder *)

(** The decoder.  [Chan] exists in the second revision only, and the first
    never reads it; [Wg], the wait group of the second revision, is part of
    the hand-off in [dispatchToChan]. *)
Record Decoder : Type := {
  r : Reader;
  Chan : option Consumer;
  ID : Bytes4;
  Size : Z;
  Format : Bytes4;
  commSize : Z;
  NumChans : Z;
  NumSampleFrames : Z;
  SampleSize : Z;
  SampleRate : Z;
  Encoding : Bytes4;
  EncodingName : list byte }.

Definition zero4 : Bytes4 := B4 x00 x00 x00 x00.

(** [&Decoder{r: r, Chan: c}] *)
Definition NewDecoder (rd : Reader) (c : option Consumer) : Decoder :=
  {| r := rd; Chan := c; ID := zero4; Size := 0; Format := zero4; commSize := 0;
     NumChans := 0; NumSampleFrames := 0; SampleSize := 0; SampleRate := 0;
     Encoding := zero4; EncodingName := [] |}.

Definition with_r (x : Reader) (d : Decoder) : Decoder :=
  {| r := x; Chan := Chan d; ID := ID d; Size := Size d; Format := Format d;
     commSize := commSize d; NumChans := NumChans d;
     NumSampleFrames := NumSampleFrames d; SampleSize := SampleSize d;
     SampleRate := SampleRate d; Encoding := Encoding d;
     EncodingName := EncodingName d |}.

Definition with_ID (x : Bytes4) (d : Decoder) : Decoder :=
  {| r := r d; Chan := Chan d; ID := x; Size := Size d; Format := Format d;
     commSize := commSize d; NumChans := NumChans d;
     NumSampleFrames := NumSampleFrames d; SampleSize := SampleSize d;
     SampleRate := SampleRate d; Encoding := Encoding d;
     EncodingName := EncodingName d |}.

Definition with_Size (x : Z) (d : Decoder) : Decoder :=
  {| r := r d; Chan := Chan d; ID := ID d; Size := x; Format := Format d;
     commSize := commSize d; NumChans := NumChans d;
     NumSampleFrames := NumSampleFrames d; SampleSize := SampleSize d;
     SampleRate := SampleRate d; Encoding := Encoding d;
     EncodingName := EncodingName d |}.

Definition with_Format (x : Bytes4) (d : Decoder) : Decoder :=
  {| r := r d; Chan := Chan d; ID := ID d; Size := Size d; Format := x;
     commSize := commSize d; NumChans := NumChans d;
     NumSampleFrames := NumSampleFrames d; SampleSize := SampleSize d;
     SampleRate := SampleRate d; Encoding := Encoding d;
     EncodingName := EncodingName d |}.

Definition with_commSize (x : Z) (d : Decoder) : Decoder :=
  {| r := r d; Chan := Chan d; ID := ID d; Size := Size d; Format := Format d;
     commSize := x; NumChans := NumChans d;
     NumSampleFrames := NumSampleFrames d; SampleSize := SampleSize d;
     SampleRate := SampleRate d; Encoding := Encoding d;
     EncodingName := EncodingName d |}.

Definition with_NumChans (x : Z) (d : Decoder) : Decoder :=
  {| r := r d; Chan := Chan d; ID := ID d; Size := Size d; Format := Format d;
     commSize := commSize d; NumChans := x;
     NumSampleFrames := NumSampleFrames d; SampleSize := SampleSize d;
     SampleRate := SampleRate d; Encoding := Encoding d;
     EncodingName := EncodingName d |}.

Definition with_NumSampleFrames (x : Z) (d : Decoder) : Decoder :=
  {| r := r d; Chan := Chan d; ID := ID d; Size := Size d; Format := Format d;
     commSize := commSize d; NumChans := NumChans d;
     NumSampleFrames := x; SampleSize := SampleSize d;
     SampleRate := SampleRate d; Encoding := Encoding d;
     EncodingName := EncodingName d |}.

Definition with_SampleSize (x : Z) (d : Decoder) : Decoder :=
  {| r := r d; Chan := Chan d; ID := ID d; Size := Size d; Format := Format d;
     commSize := commSize d; NumChans := NumChans d;
     NumSampleFrames := NumSampleFrames d; SampleSize := x;
     SampleRate := SampleRate d; Encoding := Encoding d;
     EncodingName := EncodingName d |}.

Definition with_SampleRate (x : Z) (d : Decoder) : Decoder :=
  {| r := r d; Chan := Chan d; ID := ID d; Size := Size d; Format := Format d;
     commSize := commSize d; NumChans := NumChans d;
     NumSampleFrames := NumSampleFrames d; SampleSize := SampleSize d;
     SampleRate := x; Encoding := Encoding d;
     EncodingName := EncodingName d |}.

Definition with_Encoding (x : Bytes4) (d : Decoder) : Decoder :=
  {| r := r d; Chan := Chan d; ID := ID d; Size := Size d; Format := Format d;
     commSize := commSize d; NumChans := NumChans d;
     NumSampleFrames := NumSampleFrames d; SampleSize := SampleSize d;
     SampleRate := SampleRate d; Encoding := x;
     EncodingName := EncodingName d |}.

Definition with_EncodingName (x : list byte) (d : Decoder) : Decoder :=
  {| r := r d; Chan := Chan d; ID := ID d; Size := Size d; Format := Format d;
     commSize := commSize d; NumChans := NumChans d;
     NumSampleFrames := NumSampleFrames d; SampleSize := SampleSize d;
     SampleRate := SampleRate d; Encoding := Encoding d;
     EncodingName := x |}.

(** A method that may fail: the decoder it leaves and the error it returns. *)
Definition Step : Type := Decoder -> Decoder * option error.

(** [if err := binary.Read(d.r, binary.BigEndian, &field); err != nil
    { return wrap(err) }]: [n] bytes are read; on failure the field keeps its
    value and [wrap err] is returned, on success [store] assigns it. *)
Definition binary_Read (n : nat) (wrap : error -> error)
    (store : list byte -> Decoder -> Decoder) : Step :=
  fun d =>
    match ReadFull n (r d) with
    | (rd, inr e) => (with_r rd d, Some (wrap e))
    | (rd, inl bs) => (store bs (with_r rd d), None)
    end.

(** Sequencing with the early [return] of an error. *)
Definition and_then (a b : Step) : Step :=
  fun d =>
    match a d with
    | (d1, Some e) => (d1, Some e)
    | (d1, None) => b d1
    end.

Notation "a ;; b" := (and_then a b) (at level 61, right associativity).

Definition readHeaders : Step :=
  binary_Read 4 (fun e => e) (fun bs => with_ID (Bytes4_of_list bs)) ;;
  (fun d =>
     if negb (Bytes4_eqb (ID d) formID) then (d, Some (ErrFmtNotSupported (ID d)))
     else
       (binary_Read 4 (fun e => e) (fun bs => with_Size (BigEndian bs)) ;;
        binary_Read 4 (fun e => e) (fun bs => with_Format (Bytes4_of_list bs)) ;;
        (fun d =>
           if negb (Bytes4_eqb (Format d) aiffID) && negb (Bytes4_eqb (Format d) aifcID)
           then (d, Some (ErrFmtNotSupported (Format d)))
           else (d, None))) d).

Definition parseCommChunk (sz : Z) : Step :=
  (fun d => (with_commSize sz d, None)) ;;
  binary_Read 2 (FieldError "num of channels failed to parse")
              (fun bs => with_NumChans (BigEndian bs)) ;;
  binary_Read 4 (FieldError "num of sample frames failed to parse")
              (fun bs => with_NumSampleFrames (BigEndian bs)) ;;
  binary_Read 2 (FieldError "sample size failed to parse")
              (fun bs => with_SampleSize (BigEndian bs)) ;;
  binary_Read 10 (FieldError "sample rate failed to parse")
              (fun bs => with_SampleRate (audio.IeeeFloatToInt (Bytes10_of_list bs))) ;;
  (fun d =>
     if Bytes4_eqb (Format d) aifcID then
       (binary_Read 4 (FieldError "AIFC encoding failed to parse")
                    (fun bs => with_Encoding (Bytes4_of_list bs)) ;;
        (fun d =>
           match ReadFull 1 (r d) with
           | (rd, inr e) =>
               (with_r rd d, Some (FieldError "AIFC encoding failed to parse" e))
           | (rd, inl bs) =>
               let len := BigEndian bs in
               binary_Read (Z.to_nat len) (FieldError "AIFC encoding failed to parse")
                           with_EncodingName (with_r rd d)
           end)) d
     else (d, None)).

(** Go's [==] on two [error] values.  Go compares the identity of the two
    values; the comparison by structure made here agrees with it where the
    decoder compares errors: an error with itself, and an error with the
    one value [io.EOF]. *)
Fixpoint error_eqb (a b : error) : bool :=
  match a, b with
  | EOF, EOF => true
  | ErrUnexpectedEOF, ErrUnexpectedEOF => true
  | ErrFmtNotSupported x, ErrFmtNotSupported y => Bytes4_eqb x y
  | FieldError w1 c1, FieldError w2 c2 => String.eqb w1 w2 && error_eqb c1 c2
  | ErrSeek, ErrSeek => true
  | ErrNilDecoder, ErrNilDecoder => true
  | _, _ => false
  end.

Definition err_eqb (a b : option error) : bool :=
  match a, b with
  | None, None => true
  | Some x, Some y => error_eqb x y
  | _, _ => false
  end.

(** [iDnSize] (first revision) and [IDnSize] (second revision): the same
    body.  The second test is [err != err]. *)
Definition iDnSize (d : Decoder) : Decoder * (Bytes4 * Z * option error) :=
  let ID := zero4 in
  let blockSize := 0 in
  match ReadFull 4 (r d) with
  | (rd, inr e) => (with_r rd d, (ID, blockSize, Some e))
  | (rd, inl bs) =>
      let ID := Bytes4_of_list bs in
      let d := with_r rd d in
      let '(rd, res) := ReadFull 4 (r d) in
      let err := match res with inr e => Some e | inl _ => None end in
      let blockSize := match res with inr _ => blockSize | inl bs => BigEndian bs end in
      if negb (err_eqb err err)
      then (with_r rd d, (ID, blockSize, err))
      else (with_r rd d, (ID, blockSize, None))
  end.

Definition IDnSize := iDnSize.

(** [jumpTo(bytesAhead)] *)
Definition jumpTo (bytesAhead : Z) : Step :=
  fun d =>
    let err := None in
    if bytesAhead >? 0 then
      let '(rd, (_, err)) := CopyN_Discard bytesAhead (r d) in (with_r rd d, err)
    else (d, err).

(** ** [float64] and [Duration] *)

Module float64.

Definition prec : Z := 53.
Definition emax : Z := 1024.

(** [float64(z)] for an integer [z]. *)
Definition of_int (z : Z) : spec_float := binary_normalize prec emax z 0 false.

Definition div : spec_float -> spec_float -> spec_float := SFdiv prec emax.
Definition mul : spec_float -> spec_float -> spec_float := SFmul prec emax.

(** The conversion of a [float64] to [int64]: the fraction is discarded.
    Where [int64] cannot represent the value, that is for NaN, the
    infinities and the finite values outside of [int64], the conversion
    succeeds all the same and the language leaves its result to the
    implementation: [impl] gives it. *)
Definition to_int64 (impl : spec_float -> Z) (f : spec_float) : Z :=
  match f with
  | S754_zero _ => 0
  | S754_finite s m e =>
      let a := if 0 <=? e then Z.pos m * 2 ^ e else Z.pos m / 2 ^ (- e) in
      let z := if s then - a else a in
      if (- 2 ^ 63 <=? z) && (z <? 2 ^ 63) then z else impl f
  | _ => impl f
  end.

(** Two implementations.  On amd64 the conversion instruction gives the
    value 0x8000000000000000 for every operand that does not fit; on arm64
    it saturates, and gives 0 for NaN. *)
Definition amd64 (f : spec_float) : Z := - 2 ^ 63.

Definition arm64 (f : spec_float) : Z :=
  match f with
  | S754_nan | S754_zero _ => 0
  | S754_infinity s | S754_finite s _ _ => if s then - 2 ^ 63 else 2 ^ 63 - 1
  end.

End float64.

(** [time.Second], in nanoseconds. *)
Definition time_Second : Z := 1000000000.

(** [Duration]: the receiver is [None] for a nil pointer; the duration is
    in nanoseconds; [impl] is the implementation the program runs on. *)
Definition Duration (impl : spec_float -> Z) (d : option Decoder)
    : Z * option error :=
  match d with
  | None => (0, Some ErrNilDecoder)
  | Some d =>
      let duration :=
        float64.to_int64 impl
          (float64.mul
             (float64.div (float64.of_int (NumSampleFrames d))
                          (float64.of_int (SampleRate d)))
             (float64.of_int time_Second)) in
      (duration, None)
  end.

(** What the claim asks of [Duration] on a decoder whose sample rate is
    still 0: a defined error or sentinel, that is an error, or else a value
    that is the same whatever the implementation. *)
Definition zero_rate_is_signalled (d : Decoder) : Prop :=
  SampleRate d = 0 ->
  (forall impl, snd (Duration impl (Some d)) <> None) \/
  (exists sentinel, forall impl, fst (Duration impl (Some d)) = sentinel).

(** A decoder on which COMM was not parsed, and one after a COMM with 44100
    frames at 44100 Hz. *)
Definition decoder_without_comm : Decoder :=
  with_NumSampleFrames 44100 (NewDecoder {| buf := []; cur := 0 |} None).

Definition decoder_one_second : Decoder :=
  with_SampleRate 44100 decoder_without_comm.

(** The real number 2^z. *)
Definition pw (z : Z) : R := powerRZ 2 z.

(** ** The chunk traversal of [Decode] *)

(** The variables of the loop.  [err] is the variable declared before the
    loop and tested by [for err != io.EOF]: the [:=] inside the loop
    declares another one, so that this one stays [nil]. *)
Record LoopState : Type := {
  dec : Decoder;
  clip : Clip;
  err : option error;
  rewindBytes : Z }.

(** What one pass through the loop body ends in: the next pass, a [break]
    out of the [for], or [return nil, err]. *)
Inductive Flow : Type :=
| Next (s : LoopState)
| BreakFor (s : LoopState)
| ReturnErr (e : error).

Definition with_size (x : Z) (c : Clip) : Clip :=
  {| clip_r := clip_r c; channels := channels c; bitDepth := bitDepth c;
     sampleRate := sampleRate c; size := x |}.

Definition with_clip_r (x : Reader) (c : Clip) : Clip :=
  {| clip_r := Some x; channels := channels c; bitDepth := bitDepth c;
     sampleRate := sampleRate c; size := size c |}.

(** The assignments of [case commID] to the clip. *)
Definition clip_of_comm (d : Decoder) (c : Clip) : Clip :=
  {| clip_r := clip_r c; channels := NumChans d; bitDepth := SampleSize d;
     sampleRate := SampleRate d; size := size c |}.

(** The result of [Decode]: [(clip, nil)] or [(nil, err)]. *)
Definition Result : Type := (option Clip * option error)%type.

Module V1.

(** The body of [for err != io.EOF { ... }], lines 55 to 91.  A [break]
    inside the [switch] leaves the [switch], and the loop goes on. *)
Definition body (s : LoopState) : Flow :=
  let '(d, (id, sz, e)) := iDnSize (dec s) in
  match e with
  | Some _ => BreakFor {| dec := d; clip := clip s; err := err s; rewindBytes := rewindBytes s |}
  | None =>
      if Bytes4_eqb id commID then
        let (d, _) := parseCommChunk sz d in
        let c := clip_of_comm d (clip s) in
        if rewindBytes s >? 0 then
          let (rd, _) := Seek (int64 (- rewindBytes s)) 1 (r d) in
          Next {| dec := with_r rd d; clip := c; err := err s; rewindBytes := rewindBytes s |}
        else
          Next {| dec := d; clip := c; err := err s; rewindBytes := rewindBytes s |}
      else if Bytes4_eqb id ssndID then
        let c := with_size sz (clip s) in
        if sampleRate c =? 0 then
          let rw := int64 (rewindBytes s + sz) in
          match jumpTo sz d with
          | (_, Some e) => ReturnErr e
          | (d, None) => Next {| dec := d; clip := c; err := err s; rewindBytes := rw |}
          end
        else
          Next {| dec := d; clip := c; err := err s; rewindBytes := rewindBytes s |}
      else
        let rw := if negb (size (clip s) =? 0) then int64 (rewindBytes s + sz)
                  else rewindBytes s in
        match jumpTo sz d with
        | (_, Some e) => ReturnErr e
        | (d, None) => Next {| dec := d; clip := clip s; err := err s; rewindBytes := rw |}
        end
  end.

(** The lines after the loop: [clip.r = r; return clip, nil]. *)
Definition finish (s : LoopState) : Result :=
  (Some (with_clip_r (r (dec s)) (clip s)), None).

(** The loop, with a bound on the number of passes; [None] when the bound is
    reached with the loop still running. *)
Fixpoint loop (fuel : nat) (s : LoopState) : option Result :=
  match fuel with
  | O => None
  | S fuel =>
      if err_eqb (err s) (Some EOF) then Some (finish s)
      else
        match body s with
        | Next s1 => loop fuel s1
        | BreakFor s1 => Some (finish s1)
        | ReturnErr e => Some (None, Some e)
        end
  end.

Definition Decode (fuel : nat) (rd : Reader) : option Result :=
  match readHeaders (NewDecoder rd None) with
  | (_, Some e) => Some (None, Some e)
  | (d, None) =>
      loop fuel {| dec := d; clip := Clip_zero; err := None; rewindBytes := 0 |}
  end.

(** The variables of the loop as [Decode] sets them up, and as they stand
    after [n] passes, if the loop is still running then. *)
Definition start (rd : Reader) : option LoopState :=
  match readHeaders (NewDecoder rd None) with
  | (_, Some _) => None
  | (d, None) => Some {| dec := d; clip := Clip_zero; err := None; rewindBytes := 0 |}
  end.

Fixpoint passes (n : nat) (s : LoopState) : option LoopState :=
  match n with
  | O => Some s
  | S n =>
      if err_eqb (err s) (Some EOF) then None
      else match body s with Next s1 => passes n s1 | _ => None end
  end.

End V1.

Module V2.

(** What the receiving end does to the shared reader before [Wg.Done]:
    reading [n] bytes, or the bytes that are left. *)
Definition consume (n : nat) (rd : Reader) : Reader :=
  advance (Z.of_nat (Nat.min n (List.length (unread rd)))) rd.

(** [dispatchToChan(id, size)]: the decoder it leaves, the error it
    returns, and the chunk sent on [Chan], if one was.  Sending and
    [Wg.Wait] are one step: the method returns when the receiver is done. *)
Definition dispatchToChan (id : Bytes4) (sz : Z) (d : Decoder)
    : Decoder * option error * option Chunk :=
  match Chan d with
  | None =>
      match jumpTo sz d with
      | (d1, Some e) => (d1, Some e, None)
      | (d1, None) => (d1, None, None)
      end
  | Some receiver =>
      let ch := {| Chunk_ID := id; Chunk_Size := sz; Chunk_R := r d |} in
      (with_r (consume (receiver ch) (r d)) d, None, Some ch)
  end.

(** A chunk header the loop read, with [clip.sampleRate] as it stood at
    that moment. *)
Record Visit : Type := { visit_id : Bytes4; visit_size : Z; visit_rate : Z }.

(** The body of the loop, lines 260 to 292, with the header it read and the
    chunk it sent.  The errors of [parseCommChunk] and [dispatchToChan] are
    dropped; no [return] is left in the body. *)
Definition body (s : LoopState) : Flow * option Visit * option Chunk :=
  let '(d, (id, sz, e)) := IDnSize (dec s) in
  match e with
  | Some _ =>
      (BreakFor {| dec := d; clip := clip s; err := err s; rewindBytes := rewindBytes s |},
       None, None)
  | None =>
      let v := Some {| visit_id := id; visit_size := sz; visit_rate := sampleRate (clip s) |} in
      if Bytes4_eqb id commID then
        let (d, _) := parseCommChunk sz d in
        let c := clip_of_comm d (clip s) in
        if rewindBytes s >? 0 then
          let (rd, _) := Seek (int64 (- rewindBytes s)) 1 (r d) in
          (Next {| dec := with_r rd d; clip := c; err := err s; rewindBytes := rewindBytes s |},
           v, None)
        else
          (Next {| dec := d; clip := c; err := err s; rewindBytes := rewindBytes s |}, v, None)
      else if Bytes4_eqb id ssndID then
        let c := with_size sz (clip s) in
        if sampleRate c =? 0 then
          let rw := int64 (rewindBytes s + sz) in
          let '(d, _, sent) := dispatchToChan id sz d in
          (Next {| dec := d; clip := c; err := err s; rewindBytes := rw |}, v, sent)
        else
          (Next {| dec := d; clip := c; err := err s; rewindBytes := rewindBytes s |}, v, None)
      else
        let rw := if negb (size (clip s) =? 0) then int64 (rewindBytes s + sz)
                  else rewindBytes s in
        let '(d, _, sent) := dispatchToChan id sz d in
        (Next {| dec := d; clip := clip s; err := err s; rewindBytes := rw |}, v, sent)
  end.

Definition finish (s : LoopState) : Result :=
  (Some (with_clip_r (r (dec s)) (clip s)), None).

(** A run of the loop: the headers read and the chunks sent, in order, and
    the result, [None] when the bound is reached with the loop running. *)
Record Run : Type := {
  visited : list Visit;
  sent : list Chunk;
  result : option Result }.

Definition opt_cons {A : Type} (x : option A) (l : list A) : list A :=
  match x with Some a => a :: l | None => l end.

Definition record (v : option Visit) (c : option Chunk) (t : Run) : Run :=
  {| visited := opt_cons v (visited t); sent := opt_cons c (sent t); result := result t |}.

Definition done (x : option Result) : Run :=
  {| visited := []; sent := []; result := x |}.

Fixpoint loop (fuel : nat) (s : LoopState) : Run :=
  match fuel with
  | O => done None
  | S fuel =>
      if err_eqb (err s) (Some EOF) then done (Some (finish s))
      else
        match body s with
        | (Next s1, v, c) => record v c (loop fuel s1)
        | (BreakFor s1, v, c) => record v c (done (Some (finish s1)))
        | (ReturnErr e, v, c) => record v c (done (Some (None, Some e)))
        end
  end.

(** The traversal on a decoder that is already set up: [Decode] from its
    second statement on. *)
Definition traverse (fuel : nat) (d : Decoder) : Run :=
  match readHeaders d with
  | (_, Some e) => done (Some (None, Some e))
  | (d, None) =>
      loop fuel {| dec := d; clip := Clip_zero; err := None; rewindBytes := 0 |}
  end.

(** [Decode(r)]: the decoder is [&Decoder{r: r}], its [Chan] is [nil]. *)
Definition Decode (fuel : nat) (rd : Reader) : Run :=
  traverse fuel (NewDecoder rd None).

(** Which of the headers read the loop hands to [dispatchToChan]. *)
Definition dispatched (v : Visit) : bool :=
  negb (Bytes4_eqb (visit_id v) commID) &&
  (negb (Bytes4_eqb (visit_id v) ssndID) || (visit_rate v =? 0)).

End V2.

(** ** Well-formed streams

    The input format: the container header, then chunks of a 4-byte
    identifier, a big-endian [uint32] size and a payload of that size. *)

Definition byte_of_Z (z : Z) : byte :=
  match Byte.of_N (Z.to_N (z mod 256)) with Some b => b | None => x00 end.

Definition be16 (n : Z) : list byte := [byte_of_Z (n / 2 ^ 8); byte_of_Z n].

Definition be32 (n : Z) : list byte :=
  [byte_of_Z (n / 2 ^ 24); byte_of_Z (n / 2 ^ 16); byte_of_Z (n / 2 ^ 8); byte_of_Z n].

Definition Bytes10_to_list (b : Bytes10) : list byte :=
  [t0 b; t1 b; t2 b; t3 b; t4 b; t5 b; t6 b; t7 b; t8 b; t9 b].

Definition chunk (id : string) (payload : list byte) : list byte :=
  list_byte_of_string id ++ be32 (Z.of_nat (List.length payload)) ++ payload.

Definition form (format : string) (chunks : list byte) : list byte :=
  list_byte_of_string "FORM" ++ be32 (4 + Z.of_nat (List.length chunks)) ++
  list_byte_of_string format ++ chunks.

(** The COMM chunk of an AIFF file. *)
Definition COMM (chans frames bits : Z) (rate : Bytes10) : list byte :=
  chunk "COMM" (be16 chans ++ be32 frames ++ be16 bits ++ Bytes10_to_list rate).

(** The SSND chunk: offset, block size, sample data. *)
Definition SSND (offset blockSize : Z) (samples : list byte) : list byte :=
  chunk "SSND" (be32 offset ++ be32 blockSize ++ samples).

Definition NewReader (b : list byte) : Reader := {| buf := b; cur := 0 |}.

(** 44100 as an 80-bit extended float. *)
Definition rate_44100 : Bytes10 := B10 x40 x0e xac x44 x00 x00 x00 x00 x00 x00.

(** A sample-rate field with exponent 0x400E and no mantissa bit. *)
Definition rate_zero : Bytes10 := B10 x40 x0e x00 x00 x00 x00 x00 x00 x00 x00.

(** A receiver that reads the payload of the chunk it is handed. *)
Definition reads_payload : Consumer := fun ch => Z.to_nat (Chunk_Size ch).

(** The streams of the examples.  [comm_then_ssnd]: one channel of 16-bit
    samples at 44100 Hz, COMM before SSND.  [ssnd_then_comm]: the same two
    chunks in the other order. *)
Definition comm_then_ssnd (samples : list byte) : list byte :=
  form "AIFF" (COMM 1 (Z.of_nat (List.length samples) / 2) 16 rate_44100 ++
               SSND 0 0 samples).

Definition ssnd_then_comm (samples : list byte) : list byte :=
  form "AIFF" (SSND 0 0 samples ++
               COMM 1 (Z.of_nat (List.length samples) / 2) 16 rate_44100).

(** Four samples, the last of them 5. *)
Definition four_samples : list byte := [x01; x02; x03; x04; x00; x00; x00; x05].

(** Nine samples of silence. *)
Definition silence9 : list byte := repeat x00 18.

(** A file cut after the first field of COMM, and a file with two stray
    bytes after its last chunk. *)
Definition truncated_comm : list byte :=
  form "AIFF" (list_byte_of_string "COMM" ++ be32 18 ++ be16 2).

Definition stray_tail : list byte :=
  form "AIFF" (COMM 1 0 16 rate_44100 ++ [x53; x53]).

(** Where the payload of the chunk at offset [at_] starts. *)
Definition payload_start (at_ : Z) : Z := at_ + 8.

(** A file with one chunk that is neither COMM nor SSND, before COMM. *)
Definition anno_then_comm : list byte :=
  form "AIFF" (chunk "ANNO" [x68; x69] ++ COMM 1 0 16 rate_44100).

(** A caller that registers the consumer [c] for a stream and decodes it:
    [NewDecoder(r, c)], then [Decode(r)], the one function that traverses
    the chunks.  [Decode] takes the reader alone and builds a decoder of
    its own. *)
Definition decode_registered (fuel : nat) (rd : Reader) (c : Consumer)
    : Decoder * V2.Run :=
  (NewDecoder rd (Some c), V2.Decode fuel rd).

(** The hand-off rule as the claim words it, for a file whose chunks other
    than COMM and SSND are [others], in file order: these are the chunks
    handed to the consumer. *)
Definition hands_off_exactly (others : list (Bytes4 * Z)) (t : V2.Run) : Prop :=
  map (fun ch => (Chunk_ID ch, Chunk_Size ch)) (V2.sent t) = others.

(** A header of 12 bytes whose first 4 are not FORM. *)
Definition riff_wave : list byte :=
  list_byte_of_string "RIFF" ++ be32 4 ++ list_byte_of_string "WAVE".

(** The first sentence of the claim on the header validator, as it is
    worded: exactly 12 bytes are read. *)
Definition reads_exactly_12_bytes (d : Decoder) : Prop :=
  cur (r (fst (readHeaders d))) = cur (r d) + 12.

(** A method that leaves [Chan] as it is. *)
Definition keeps_Chan (f : Step) : Prop := forall d, Chan (fst (f d)) = Chan d.

(** The identifier and the size of a chunk handed off, and of a header
    read. *)
Definition chunk_key (ch : Chunk) : Bytes4 * Z := (Chunk_ID ch, Chunk_Size ch).
Definition visit_key (v : V2.Visit) : Bytes4 * Z := (V2.visit_id v, V2.visit_size v).

(** ** Definitions for the further properties *)

(** The 64 bits of the mantissa of an extended float: bytes 2 to 9, the
    most significant first. *)
Definition mantissa64 (b : Bytes10) : Z :=
  BigEndian [t2 b; t3 b; t4 b; t5 b; t6 b; t7 b; t8 b; t9 b].

(** The error of a read that finds fewer bytes than it asks for: [io.EOF]
    when none is left, [io.ErrUnexpectedEOF] otherwise. *)
Definition short_read (left_ : nat) : error :=
  if (left_ =? 0)%nat then EOF else ErrUnexpectedEOF.

(** The reader stands on the bytes [b], its cursor within them and not
    before [c0]. *)
Definition reads_from (b : list byte) (c0 : Z) (rd : Reader) : Prop :=
  buf rd = b /\ 0 <= cur rd <= Z.of_nat (List.length b) /\ c0 <= cur rd.

(** The ranges of the fields that [Decode] copies to the clip: [NumChans]
    and [SampleSize] are [uint16]; [SampleRate] holds a result of
    [audio.IeeeFloatToInt]. *)
Definition fields_in_range (d : Decoder) : Prop :=
  0 <= NumChans d < 2 ^ 16 /\ 0 <= SampleSize d < 2 ^ 16 /\
  0 <= SampleRate d < 2 ^ 30.

Definition sound (b : list byte) (c0 : Z) (d : Decoder) : Prop :=
  reads_from b c0 (r d) /\ fields_in_range d.

(** A method that preserves a property of the decoder, whether it fails
    or not. *)
Definition keeps (P : Decoder -> Prop) (f : Step) : Prop :=
  forall d, P d -> P (fst (f d)).

Definition clip_in_range (c : Clip) : Prop :=
  0 <= channels c < 2 ^ 16 /\ 0 <= bitDepth c < 2 ^ 16 /\
  0 <= sampleRate c < 2 ^ 30 /\ 0 <= size c < 2 ^ 32.

(** The invariant of the loop of [Decode] on the bytes [b]. *)
Definition loop_ok (b : list byte) (s : LoopState) : Prop :=
  sound b 0 (dec s) /\ clip_in_range (clip s) /\
  - 2 ^ 63 <= rewindBytes s < 2 ^ 63.

(** Whether the four bytes [pat] stand somewhere in [b]. *)
Fixpoint occurs (pat : Bytes4) (b : list byte) : bool :=
  match b with
  | [] => false
  | _ :: rest => Bytes4_eqb (Bytes4_of_list (firstn 4 b)) pat || occurs pat rest
  end.

(** * Properties *)

(** Projections of a decoder after updates. *)
Ltac simpl_dec :=
  cbn [r Chan ID Size Format commSize NumChans NumSampleFrames SampleSize
       SampleRate Encoding EncodingName
       with_r with_ID with_Size with_Format with_commSize with_NumChans
       with_NumSampleFrames with_SampleSize with_SampleRate with_Encoding
       with_EncodingName fst snd].

(** ** Bytes and bit operations: helper lemmas *)

Lemma u8_range (b : byte) : 0 <= u8 b < 256.
Proof.
  unfold u8. pose proof (Byte.to_N_bounded b). lia.
Qed.

Lemma land_0x80_not_1 (z : Z) : Z.land z 0x80 <> 1.
Proof.
  intro H.
  assert (Hb : Z.testbit (Z.land z 0x80) 0 = Z.testbit 1 0) by (rewrite H; reflexivity).
  rewrite Z.land_spec in Hb. cbn in Hb. rewrite andb_false_r in Hb. discriminate.
Qed.

Lemma lor_lt_pow2 (a b n : Z) :
  0 <= n -> 0 <= a < 2 ^ n -> 0 <= b < 2 ^ n -> 0 <= Z.lor a b < 2 ^ n.
Proof.
  intros Hn Ha Hb. split; [apply Z.lor_nonneg; lia|].
  destruct (Z.eq_dec (Z.lor a b) 0) as [E|E]; [rewrite E; apply Z.pow_pos_nonneg; lia|].
  assert (0 <= Z.lor a b) by (apply Z.lor_nonneg; lia).
  apply Z.log2_lt_pow2; [lia|].
  rewrite Z.log2_lor by lia.
  destruct (Z.eq_dec a 0) as [->|]; destruct (Z.eq_dec b 0) as [->|].
  - cbn in E. congruence.
  - rewrite Z.max_r by (cbn; apply Z.log2_nonneg). apply Z.log2_lt_pow2; lia.
  - rewrite Z.max_l by (cbn; apply Z.log2_nonneg). apply Z.log2_lt_pow2; lia.
  - apply Z.max_lub_lt; apply Z.log2_lt_pow2; lia.
Qed.

Lemma shiftl_u8_small (b : byte) (k : Z) :
  0 <= k <= 23 -> uint32 (Z.shiftl (u8 b) k) = u8 b * 2 ^ k /\ 0 <= u8 b * 2 ^ k < 2 ^ 31.
Proof.
  intros Hk. pose proof (u8_range b) as Hb.
  assert (Hp : 0 < 2 ^ k <= 2 ^ 23).
  { split; [apply Z.pow_pos_nonneg; lia | apply Z.pow_le_mono_r; lia]. }
  assert (Hr : 0 <= u8 b * 2 ^ k < 2 ^ 31).
  { change (2 ^ 31) with (256 * 2 ^ 23). change (2 ^ 23) with 8388608 in *. nia. }
  split; [|exact Hr].
  unfold uint32. rewrite Z.shiftl_mul_pow2 by lia.
  apply Z.mod_small. change (2 ^ 32) with (2 * 2 ^ 31). lia.
Qed.

Lemma mantissa_range (b : Bytes10) : 0 <= mantissa b < 2 ^ 31.
Proof.
  unfold mantissa.
  destruct (shiftl_u8_small (t2 b) 23) as [_ H2]; [lia|].
  destruct (shiftl_u8_small (t3 b) 15) as [_ H3]; [lia|].
  destruct (shiftl_u8_small (t4 b) 7) as [_ H4]; [lia|].
  pose proof (u8_range (t5 b)) as H5.
  assert (0 <= u8 (t5 b) / 2 < 2 ^ 31).
  { split; [apply Z.div_pos; lia|].
    apply Z.div_lt_upper_bound; [lia|]. change (2 ^ 31) with 2147483648. lia. }
  repeat apply lor_lt_pow2; lia.
Qed.

(** ** Properties of [IeeeFloatToInt] *)

(** C3.  For every 10-byte input the function follows the documented case
    policy, in order: byte 0 at most 0x3F gives 1; byte 0 above 0x40 gives
    67108864; byte 0 equal to 0x40 with byte 1 above 0x1C gives 800000000;
    otherwise the result is the exact value of
    [(b2<<23 | b3<<15 | b4<<7 | b5>>1) >> (29 - b1)], no 32-bit operation
    wrapping around.  The bytes 40 0E AC 44 00 ... decode to 44100. *)
Theorem IeeeFloatToInt_case_policy :
  (forall b : Bytes10,
     audio.IeeeFloatToInt b =
       if u8 (t0 b) <=? 0x3F then 1
       else if u8 (t0 b) >? 0x40 then 67108864
       else if u8 (t1 b) >? 0x1C then 800000000
       else Z.shiftr
              (Z.lor (Z.lor (Z.lor (Z.shiftl (u8 (t2 b)) 23) (Z.shiftl (u8 (t3 b)) 15))
                            (Z.shiftl (u8 (t4 b)) 7))
                     (Z.shiftr (u8 (t5 b)) 1))
              (29 - u8 (t1 b))) /\
  (forall b : Bytes10, 0 <= audio.IeeeFloatToInt b < 2 ^ 32) /\
  (forall b6 b7 b8 b9 : byte,
     audio.IeeeFloatToInt (B10 x40 x0e xac x44 x00 x00 b6 b7 b8 b9) = 44100).
Proof.
  assert (Hpol : forall b : Bytes10,
     audio.IeeeFloatToInt b =
       if u8 (t0 b) <=? 0x3F then 1
       else if u8 (t0 b) >? 0x40 then 67108864
       else if u8 (t1 b) >? 0x1C then 800000000
       else Z.shiftr
              (Z.lor (Z.lor (Z.lor (Z.shiftl (u8 (t2 b)) 23) (Z.shiftl (u8 (t3 b)) 15))
                            (Z.shiftl (u8 (t4 b)) 7))
                     (Z.shiftr (u8 (t5 b)) 1))
              (29 - u8 (t1 b))).
  { intro b. unfold audio.IeeeFloatToInt, audio.IeeeFloatToInt_at.
    destruct (Z.eqb_spec (Z.land (u8 (t0 b)) 0x80) 1) as [E|_];
      [exfalso; exact (land_0x80_not_1 _ E)|].
    destruct (u8 (t0 b) <=? 0x3F) eqn:E1; [reflexivity|].
    destruct (u8 (t0 b) >? 0x40) eqn:E2; [reflexivity|].
    assert (E0 : (u8 (t0 b) =? 0x40) = true) by (apply Z.eqb_eq; lia).
    rewrite E0. cbn [andb].
    destruct (u8 (t1 b) >? 0x1C) eqn:E3; [reflexivity|].
    cbn [snd].
    destruct (shiftl_u8_small (t2 b) 23) as [-> _]; [lia|].
    destruct (shiftl_u8_small (t3 b) 15) as [-> _]; [lia|].
    destruct (shiftl_u8_small (t4 b) 7) as [-> _]; [lia|].
    rewrite !Z.shiftl_mul_pow2 by lia.
    pose proof (u8_range (t1 b)).
    unfold uint32 at 1. rewrite Z.mod_small by (change (2 ^ 32) with 4294967296; lia).
    reflexivity. }
  split; [exact Hpol|]. split.
  - intro b. rewrite Hpol.
    destruct (u8 (t0 b) <=? 0x3F); [change (2 ^ 32) with 4294967296; lia|].
    destruct (u8 (t0 b) >? 0x40); [change (2 ^ 32) with 4294967296; lia|].
    destruct (u8 (t1 b) >? 0x1C) eqn:E3; [change (2 ^ 32) with 4294967296; lia|].
    pose proof (u8_range (t1 b)). pose proof (mantissa_range b) as Hm.
    unfold mantissa in Hm.
    rewrite !Z.shiftl_mul_pow2 by lia.
    rewrite (Z.shiftr_div_pow2 (u8 (t5 b)) 1) by lia. change (2 ^ 1) with 2.
    rewrite Z.shiftr_div_pow2 by lia.
    set (m := Z.lor _ _) in *.
    assert (0 < 2 ^ (29 - u8 (t1 b))) by (apply Z.pow_pos_nonneg; lia).
    split; [apply Z.div_pos; lia|].
    apply Z.div_lt_upper_bound; [lia|].
    change (2 ^ 32) with (2 * 2 ^ 31). nia.
  - intros. reflexivity.
Qed.

(** C4.  The test of the sign bit is [(b[0] & 0x80) == 1]; the left side is
    0 or 0x80, so the test fails for every input and the function never
    leaves through [return 0] of the sign branch.  With the sign bit set,
    byte 0 is above 0x40 and the result is 67108864. *)
Theorem IeeeFloatToInt_sign_branch_unreachable :
  (forall b : Bytes10, (Z.land (u8 (t0 b)) 0x80 =? 1) = false) /\
  (forall b : Bytes10, fst (audio.IeeeFloatToInt_at b) <> audio.NegativeNumber) /\
  (forall b : Bytes10,
     Z.testbit (u8 (t0 b)) 7 = true ->
     audio.IeeeFloatToInt_at b = (audio.TooBig, 67108864)).
Proof.
  assert (H1 : forall b : Bytes10, (Z.land (u8 (t0 b)) 0x80 =? 1) = false).
  { intro b. apply Z.eqb_neq. apply land_0x80_not_1. }
  split; [exact H1|]. split.
  - intro b. unfold audio.IeeeFloatToInt_at. rewrite H1.
    destruct (u8 (t0 b) <=? 0x3F); [discriminate|].
    destruct (u8 (t0 b) >? 0x40); [discriminate|].
    destruct ((u8 (t0 b) =? 0x40) && (u8 (t1 b) >? 0x1C)); discriminate.
  - intros b Hbit. unfold audio.IeeeFloatToInt_at. rewrite H1.
    assert (Hge : 128 <= u8 (t0 b)).
    { pose proof (u8_range (t0 b)) as Hr.
      destruct (Z_lt_le_dec (u8 (t0 b)) 128) as [Hlt|]; [|assumption].
      rewrite (Z.testbit_eqb _ 7) in Hbit by lia. change (2 ^ 7) with 128 in Hbit.
      rewrite Z.div_small in Hbit by lia. discriminate. }
    destruct (Z.leb_spec (u8 (t0 b)) 0x3F); [lia|].
    destruct (u8 (t0 b) >? 0x40) eqn:E; [reflexivity|]. lia.
Qed.

Lemma IeeeFloatToInt_sign_branch_unreachable_witness :
  Z.testbit (u8 (t0 (B10 x80 x00 x00 x00 x00 x00 x00 x00 x00 x00))) 7 = true /\
  audio.IeeeFloatToInt_at (B10 x80 x00 x00 x00 x00 x00 x00 x00 x00 x00)
    = (audio.TooBig, 67108864).
Proof.
  split; [reflexivity|].
  apply (proj2 (proj2 IeeeFloatToInt_sign_branch_unreachable)). reflexivity.
Defined.

(** ** The reader: helper lemmas *)

Lemma unread_advance (rd : Reader) (n : nat) :
  0 <= cur rd -> unread (advance (Z.of_nat n) rd) = skipn n (unread rd).
Proof.
  intro H. unfold unread, advance. cbn [cur buf].
  rewrite skipn_skipn. f_equal. lia.
Qed.

Lemma ReadFull_ok (n : nat) (rd : Reader) :
  (0 < n <= List.length (unread rd))%nat ->
  ReadFull n rd = (advance (Z.of_nat n) rd, inl (firstn n (unread rd))).
Proof.
  intros [Hn Hl]. unfold ReadFull.
  destruct n as [|n]; [lia|].
  destruct (unread rd) as [|x rest] eqn:E; [cbn in Hl; lia|].
  destruct (Nat.ltb_spec (List.length (x :: rest)) (S n)); [lia|reflexivity].
Qed.

Lemma ReadFull_eof (n : nat) (rd : Reader) :
  (0 < n)%nat -> unread rd = [] -> ReadFull n rd = (rd, inr EOF).
Proof.
  intros Hn E. unfold ReadFull. destruct n; [lia|]. rewrite E. reflexivity.
Qed.

Lemma ReadFull_short (n : nat) (rd : Reader) :
  (0 < List.length (unread rd) < n)%nat ->
  ReadFull n rd =
    (advance (Z.of_nat (List.length (unread rd))) rd, inr ErrUnexpectedEOF).
Proof.
  intros [Hl Hn]. unfold ReadFull. destruct n; [lia|].
  destruct (unread rd) as [|x rest] eqn:E; [cbn in Hl; lia|].
  destruct (Nat.ltb_spec (List.length (x :: rest)) (S n)); [reflexivity|lia].
Qed.

Lemma ReadFull_buf (n : nat) (rd : Reader) : buf (fst (ReadFull n rd)) = buf rd.
Proof.
  unfold ReadFull. destruct n; [reflexivity|].
  destruct (unread rd); [reflexivity|].
  destruct (_ <? _)%nat; reflexivity.
Qed.

Lemma ReadFull_cur (n : nat) (rd : Reader) : cur rd <= cur (fst (ReadFull n rd)).
Proof.
  unfold ReadFull. destruct n; [cbn; lia|].
  destruct (unread rd); [cbn; lia|].
  destruct (_ <? _)%nat; cbn; lia.
Qed.

Lemma advance_advance (a b : Z) (rd : Reader) :
  advance b (advance a rd) = advance (a + b) rd.
Proof. unfold advance. cbn. f_equal. lia. Qed.

Lemma error_eqb_refl (e : error) : error_eqb e e = true.
Proof.
  induction e; cbn; try reflexivity.
  - unfold Bytes4_eqb. destruct marker as [a b c d]. cbn.
    rewrite !(Byte.byte_dec_lb eq_refl). reflexivity.
  - rewrite String.eqb_refl, IHe. reflexivity.
Qed.

Lemma err_eqb_refl (e : option error) : err_eqb e e = true.
Proof. destruct e; [apply error_eqb_refl | reflexivity]. Qed.

Lemma Bytes4_eqb_eq (x y : Bytes4) : Bytes4_eqb x y = true <-> x = y.
Proof.
  destruct x as [a b c d], y as [a' b' c' d']. unfold Bytes4_eqb. cbn.
  rewrite !andb_true_iff. split.
  - intros [[[H1 H2] H3] H4].
    apply Byte.byte_dec_bl in H1, H2, H3, H4. subst. reflexivity.
  - intros H. injection H as -> -> -> ->.
    rewrite !(Byte.byte_dec_lb eq_refl). auto.
Qed.

(** ** The chunk-header reader *)

(** The error [iDnSize] returns is the error of the read of the
    identifier, if any. *)
Lemma iDnSize_error_is_id_error (d : Decoder) (e : error) :
  snd (snd (iDnSize d)) = Some e -> snd (ReadFull 4 (r d)) = inr e.
Proof.
  unfold iDnSize.
  destruct (ReadFull 4 (r d)) as [rd [bs|e0]]; cbn [snd].
  - destruct (ReadFull 4 (r (with_r rd d))) as [rd2 res].
    rewrite err_eqb_refl. cbn. discriminate.
  - intros [= ->]. reflexivity.
Qed.

(** C9.  The chunk-header reader never reports a failure of the read of the
    size: the test after it, [err != err], is false for every [err], and an
    error that the reader returns is the error of the read of the
    identifier.  When at least 4 and fewer than 8 bytes are left, so that
    the identifier is read and the read of the size fails, [iDnSize] and
    [IDnSize] return the identifier, a block size of 0 and a nil error; the
    error dropped is [io.EOF] when the stream ends right after the
    identifier. *)
Theorem iDnSize_drops_size_error (d : Decoder) :
  (forall x : option error, negb (err_eqb x x) = false) /\
  (forall e : error,
     snd (snd (iDnSize d)) = Some e -> snd (ReadFull 4 (r d)) = inr e) /\
  (0 <= cur (r d) ->
   (4 <= List.length (unread (r d)) < 8)%nat ->
   let after_id := fst (ReadFull 4 (r d)) in
   (exists e, snd (ReadFull 4 after_id) = inr e /\
              (List.length (unread (r d)) = 4%nat -> e = EOF)) /\
   snd (iDnSize d) = (Bytes4_of_list (firstn 4 (unread (r d))), 0, None) /\
   snd (IDnSize d) = (Bytes4_of_list (firstn 4 (unread (r d))), 0, None)).
Proof.
  split; [intro x; rewrite err_eqb_refl; reflexivity|].
  split; [apply iDnSize_error_is_id_error|].
  intros Hc [H4 H8]. cbn zeta.
  assert (E1 : ReadFull 4 (r d)
               = (advance 4 (r d), inl (firstn 4 (unread (r d))))).
  { apply (ReadFull_ok 4); lia. }
  assert (Hlen : List.length (unread (advance 4 (r d)))
                 = (List.length (unread (r d)) - 4)%nat).
  { change (advance 4 (r d)) with (advance (Z.of_nat 4) (r d)).
    rewrite (unread_advance (r d) 4 Hc). apply length_skipn. }
  assert (E2 : exists rd e, ReadFull 4 (advance 4 (r d)) = (rd, inr e) /\
                 (List.length (unread (r d)) = 4%nat -> e = EOF)).
  { destruct (Nat.eq_dec (List.length (unread (r d))) 4) as [E|NE].
    - exists (advance 4 (r d)), EOF. split; [|reflexivity].
      apply ReadFull_eof; [lia|]. apply length_zero_iff_nil. lia.
    - eexists _, ErrUnexpectedEOF. split; [|intro; contradiction].
      apply ReadFull_short. lia. }
  destruct E2 as (rd & e & E2 & He).
  rewrite E1. cbn [fst]. split.
  - exists e. rewrite E2. split; [reflexivity|exact He].
  - unfold IDnSize, iDnSize. rewrite E1. cbn [r with_r]. rewrite E2.
    rewrite err_eqb_refl. cbn. split; reflexivity.
Qed.

Lemma iDnSize_drops_size_error_witness :
  snd (iDnSize (NewDecoder (NewReader (list_byte_of_string "COMM")) None))
    = (commID, 0, None).
Proof.
  apply (proj2 (proj2 (iDnSize_drops_size_error
           (NewDecoder (NewReader (list_byte_of_string "COMM")) None)))).
  - cbn. lia.
  - cbn. lia.
Defined.

(** ** The header validator *)

Lemma advance_cur_nonneg (n : nat) (rd : Reader) :
  0 <= cur rd -> 0 <= cur (advance (Z.of_nat n) rd).
Proof. unfold advance. cbn. lia. Qed.

(** C6 as stated fails: on a stream of 12 bytes that starts with RIFF,
    [readHeaders] returns the format error after reading 4 bytes, not
    12. *)
Lemma readHeaders_wrong_marker_reads_4_bytes :
  ~ reads_exactly_12_bytes (NewDecoder (NewReader riff_wave) None).
Proof.
  unfold reads_exactly_12_bytes. vm_compute. discriminate.
Qed.

(** C6, amended.  [readHeaders] never changes the bytes of the stream.  With at
    least 4 bytes left, the first of them other than FORM, it fails with
    the format error after consuming these 4 bytes and no more.  With at
    least 12 bytes left, the first 4 of them FORM, it consumes exactly 12
    bytes: the marker, the size as a big-endian integer and the format; it
    fails with the format error when the format is neither AIFF nor AIFC,
    and on success the decoder differs from the one it started from by the
    cursor, 12 bytes further, and by the three values read. *)
Theorem readHeaders_contract (d : Decoder) :
  0 <= cur (r d) ->
  let u := unread (r d) in
  let id := Bytes4_of_list (firstn 4 u) in
  let sz := BigEndian (firstn 4 (skipn 4 u)) in
  let fmt := Bytes4_of_list (firstn 4 (skipn 8 u)) in
  let d' := fst (readHeaders d) in
  let e := snd (readHeaders d) in
  buf (r d') = buf (r d) /\
  ((4 <= List.length u)%nat -> id <> formID ->
     e = Some (ErrFmtNotSupported id) /\
     cur (r d') = cur (r d) + 4 /\ cur (r d') <= cur (r d) + 12) /\
  ((12 <= List.length u)%nat -> id = formID ->
     cur (r d') = cur (r d) + 12 /\
     (fmt <> aiffID -> fmt <> aifcID -> e = Some (ErrFmtNotSupported fmt)) /\
     (fmt = aiffID \/ fmt = aifcID ->
        e = None /\
        d' = with_Format fmt (with_Size sz (with_ID id (with_r (advance 12 (r d)) d))))).
Proof.
  intros Hc. cbn zeta.
  set (u := unread (r d)) in *.
  split; [|split].
  - (* the bytes stay *)
    unfold readHeaders, and_then, binary_Read.
    pose proof (ReadFull_buf 4 (r d)) as B1.
    destruct (ReadFull 4 (r d)) as [r1 [bs1|e1]]; cbn [fst] in B1; simpl_dec;
      [|exact B1].
    destruct (negb (Bytes4_eqb (Bytes4_of_list bs1) formID)); simpl_dec; [exact B1|].
    pose proof (ReadFull_buf 4 r1) as B2.
    destruct (ReadFull 4 r1) as [r2 [bs2|e2]]; cbn [fst] in B2; simpl_dec;
      [|congruence].
    pose proof (ReadFull_buf 4 r2) as B3.
    destruct (ReadFull 4 r2) as [r3 [bs3|e3]]; cbn [fst] in B3; simpl_dec;
      [|congruence].
    destruct (_ && _); simpl_dec; congruence.
  - (* not FORM *)
    intros Hl Nid.
    assert (E1 : ReadFull 4 (r d) = (advance (Z.of_nat 4) (r d), inl (firstn 4 u))).
    { apply ReadFull_ok. fold u. lia. }
    unfold readHeaders, and_then, binary_Read. rewrite E1. simpl_dec.
    destruct (Bytes4_eqb (Bytes4_of_list (firstn 4 u)) formID) eqn:Eid.
    + apply Bytes4_eqb_eq in Eid. contradiction.
    + cbn [negb]. simpl_dec. cbn [advance cur].
      split; [reflexivity|]. split; lia.
  - (* FORM *)
    intros Hl Eid.
    assert (E1 : ReadFull 4 (r d) = (advance (Z.of_nat 4) (r d), inl (firstn 4 u))).
    { apply ReadFull_ok. fold u. lia. }
    assert (U1 : unread (advance (Z.of_nat 4) (r d)) = skipn 4 u).
    { apply unread_advance; assumption. }
    assert (E2 : ReadFull 4 (advance (Z.of_nat 4) (r d))
                 = (advance (Z.of_nat 4) (advance (Z.of_nat 4) (r d)),
                    inl (firstn 4 (skipn 4 u)))).
    { rewrite <- U1. apply ReadFull_ok. rewrite U1, length_skipn. lia. }
    assert (U2 : unread (advance (Z.of_nat 4) (advance (Z.of_nat 4) (r d)))
                 = skipn 8 u).
    { rewrite unread_advance by (apply advance_cur_nonneg; assumption).
      rewrite U1, skipn_skipn. reflexivity. }
    assert (E3 : ReadFull 4 (advance (Z.of_nat 4) (advance (Z.of_nat 4) (r d)))
                 = (advance (Z.of_nat 4)
                      (advance (Z.of_nat 4) (advance (Z.of_nat 4) (r d))),
                    inl (firstn 4 (skipn 8 u)))).
    { rewrite <- U2. apply ReadFull_ok. rewrite U2, length_skipn. lia. }
    assert (E12 : advance (Z.of_nat 4)
                    (advance (Z.of_nat 4) (advance (Z.of_nat 4) (r d)))
                  = advance 12 (r d)).
    { rewrite !advance_advance. reflexivity. }
    rewrite E12 in E3.
    unfold readHeaders, and_then, binary_Read. rewrite E1. simpl_dec.
    rewrite Eid. change (Bytes4_eqb formID formID) with true. cbn [negb].
    rewrite E2. simpl_dec. rewrite E3. simpl_dec.
    set (fmt := Bytes4_of_list (firstn 4 (skipn 8 u))).
    destruct (Bytes4_eqb fmt aiffID) eqn:Ea;
      destruct (Bytes4_eqb fmt aifcID) eqn:Ec;
      cbn [negb andb]; simpl_dec; cbn [advance cur];
      (split; [reflexivity|]).
    + split; [intro N; apply Bytes4_eqb_eq in Ea; contradiction|].
      intros _. split; reflexivity.
    + split; [intro N; apply Bytes4_eqb_eq in Ea; contradiction|].
      intros _. split; reflexivity.
    + split; [intros _ N; apply Bytes4_eqb_eq in Ec; contradiction|].
      intros _. split; reflexivity.
    + split; [intros _ _; reflexivity|].
      intros [F|F]; apply Bytes4_eqb_eq in F; congruence.
Qed.

Lemma readHeaders_contract_witness :
  snd (readHeaders (NewDecoder (NewReader (form "AIFC" [])) None)) = None /\
  cur (r (fst (readHeaders (NewDecoder (NewReader (form "AIFC" [])) None)))) = 12.
Proof.
  pose proof (readHeaders_contract (NewDecoder (NewReader (form "AIFC" [])) None))
    as H.
  cbn zeta in H.
  destruct H as (_ & _ & Hok).
  - cbn. lia.
  - destruct Hok as (Hcur & _ & Hok).
    + cbn. lia.
    + reflexivity.
    + split.
      * apply Hok. right. reflexivity.
      * rewrite Hcur. reflexivity.
Defined.

(** ** The COMM parser *)

(** With the 18 bytes of the payload in the stream, the four fields are
    these bytes decoded, whatever the format of the container. *)
Lemma parseCommChunk_fields (sz : Z) (d : Decoder) :
  0 <= cur (r d) ->
  (18 <= List.length (unread (r d)))%nat ->
  let u := unread (r d) in
  let d' := fst (parseCommChunk sz d) in
  NumChans d' = BigEndian (firstn 2 u) /\
  NumSampleFrames d' = BigEndian (firstn 4 (skipn 2 u)) /\
  SampleSize d' = BigEndian (firstn 2 (skipn 6 u)) /\
  SampleRate d' = audio.IeeeFloatToInt (Bytes10_of_list (firstn 10 (skipn 8 u))).
Proof.
  intros Hc Hl. cbn zeta. set (u := unread (r d)) in *.
  assert (E1 : ReadFull 2 (r d) = (advance (Z.of_nat 2) (r d), inl (firstn 2 u))).
  { apply ReadFull_ok. fold u. lia. }
  set (r1 := advance (Z.of_nat 2) (r d)) in *.
  assert (C1 : 0 <= cur r1) by (apply advance_cur_nonneg; assumption).
  assert (U1 : unread r1 = skipn 2 u) by (apply unread_advance; assumption).
  assert (E2 : ReadFull 4 r1 = (advance (Z.of_nat 4) r1, inl (firstn 4 (skipn 2 u)))).
  { rewrite <- U1. apply ReadFull_ok. rewrite U1, length_skipn. lia. }
  set (r2 := advance (Z.of_nat 4) r1) in *.
  assert (C2 : 0 <= cur r2) by (apply advance_cur_nonneg; assumption).
  assert (U2 : unread r2 = skipn 6 u).
  { unfold r2. rewrite unread_advance, U1, skipn_skipn by assumption. reflexivity. }
  assert (E3 : ReadFull 2 r2 = (advance (Z.of_nat 2) r2, inl (firstn 2 (skipn 6 u)))).
  { rewrite <- U2. apply ReadFull_ok. rewrite U2, length_skipn. lia. }
  set (r3 := advance (Z.of_nat 2) r2) in *.
  assert (C3 : 0 <= cur r3) by (apply advance_cur_nonneg; assumption).
  assert (U3 : unread r3 = skipn 8 u).
  { unfold r3. rewrite unread_advance, U2, skipn_skipn by assumption. reflexivity. }
  assert (E4 : ReadFull 10 r3 = (advance (Z.of_nat 10) r3, inl (firstn 10 (skipn 8 u)))).
  { rewrite <- U3. apply ReadFull_ok. rewrite U3, length_skipn. lia. }
  unfold parseCommChunk, and_then, binary_Read.
  simpl_dec. rewrite E1. simpl_dec. rewrite E2. simpl_dec.
  rewrite E3. simpl_dec. rewrite E4. simpl_dec.
  destruct (Bytes4_eqb (Format d) aifcID); [|simpl_dec; auto].
  destruct (ReadFull 4 (advance (Z.of_nat 10) r3)) as [r5 [bs5|e5]];
    [|simpl_dec; auto].
  simpl_dec.
  destruct (ReadFull 1 r5) as [r6 [bs6|e6]]; [|simpl_dec; auto].
  simpl_dec.
  destruct (ReadFull (Z.to_nat (BigEndian bs6)) r6) as [r7 [bs7|e7]];
    simpl_dec; auto.
Qed.

(** C10.  With byte 0 equal to 0x40, byte 1 at most 0x1C, bytes 2 to 4 zero
    and byte 5 below 2, the function leaves through its last [return] with
    the value 0.  A COMM payload with such a sample-rate field sets
    [SampleRate] to 0, and the sample rate of the clip is then the one of a
    clip for which no COMM was parsed, the value that the loop looks for
    with [clip.sampleRate == 0]. *)
Theorem IeeeFloatToInt_zero_mantissa (b : Bytes10) :
  u8 (t0 b) = 0x40 -> u8 (t1 b) <= 0x1C ->
  u8 (t2 b) = 0 -> u8 (t3 b) = 0 -> u8 (t4 b) = 0 -> u8 (t5 b) < 2 ->
  audio.IeeeFloatToInt_at b = (audio.Mantissa, 0) /\
  audio.IeeeFloatToInt b = 0 /\
  forall (d : Decoder) (sz : Z) (c : Clip),
    0 <= cur (r d) ->
    (18 <= List.length (unread (r d)))%nat ->
    Bytes10_of_list (firstn 10 (skipn 8 (unread (r d)))) = b ->
    SampleRate (fst (parseCommChunk sz d)) = 0 /\
    sampleRate (clip_of_comm (fst (parseCommChunk sz d)) c) = sampleRate Clip_zero.
Proof.
  intros H0 H1 H2 H3 H4 H5.
  assert (E : audio.IeeeFloatToInt_at b = (audio.Mantissa, 0)).
  { unfold audio.IeeeFloatToInt_at. rewrite H0, H2, H3, H4.
    change (Z.land 64 128 =? 1) with false.
    change (64 <=? 63) with false. change (64 >? 64) with false.
    change (64 =? 64) with true. cbn [andb].
    pose proof (u8_range (t1 b)) as R1. pose proof (u8_range (t5 b)) as R5.
    destruct (u8 (t1 b) >? 28) eqn:E1; [lia|].
    assert (E5 : Z.shiftr (u8 (t5 b)) 1 = 0).
    { rewrite Z.shiftr_div_pow2 by lia. apply Z.div_small. change (2 ^ 1) with 2. lia. }
    rewrite E5. rewrite !Z.shiftl_0_l. change (uint32 0) with 0.
    cbn [Z.lor]. rewrite Z.shiftr_0_l. reflexivity. }
  split; [exact E|].
  assert (E' : audio.IeeeFloatToInt b = 0).
  { unfold audio.IeeeFloatToInt. rewrite E. reflexivity. }
  split; [exact E'|].
  intros d sz c Hc Hl Hb.
  destruct (parseCommChunk_fields sz d Hc Hl) as (_ & _ & _ & Hr).
  cbn zeta in Hr. rewrite Hb, E' in Hr.
  split; [exact Hr|]. cbn. exact Hr.
Qed.

(** After such a COMM, the loop treats SSND as it does when COMM is still to
    come: it adds the 16 bytes of the payload to [rewindBytes] and skips
    them. *)
Lemma zero_rate_COMM_then_SSND_is_skipped :
  exists s0 s2 : LoopState,
    V1.start (NewReader (form "AIFF" (COMM 1 4 16 rate_zero ++ SSND 0 0 four_samples)))
      = Some s0 /\
    V1.passes 2 s0 = Some s2 /\
    sampleRate (clip s2) = 0 /\ rewindBytes s2 = 16 /\ cur (r (dec s2)) = 62.
Proof.
  eexists. eexists. split; [vm_compute; reflexivity|].
  split; [vm_compute; reflexivity|]. repeat split.
Qed.

Lemma IeeeFloatToInt_zero_mantissa_witness :
  audio.IeeeFloatToInt (B10 x40 x0e x00 x00 x00 x01 xff xff xff xff) = 0 /\
  SampleRate
    (fst (parseCommChunk 18
       (NewDecoder
          (NewReader (be16 2 ++ be32 4 ++ be16 16 ++
                      Bytes10_to_list (B10 x40 x0e x00 x00 x00 x01 xff xff xff xff)))
          None))) = 0.
Proof.
  pose proof (IeeeFloatToInt_zero_mantissa
                (B10 x40 x0e x00 x00 x00 x01 xff xff xff xff)) as H.
  destruct H as (_ & Hv & Hd).
  - reflexivity.
  - cbn. lia.
  - reflexivity.
  - reflexivity.
  - reflexivity.
  - cbn. lia.
  - split; [exact Hv|].
    apply (Hd _ 18 Clip_zero).
    + cbn. lia.
    + cbn. lia.
    + reflexivity.
Defined.

(** ** The traversal of the first revision *)

Lemma V1_loop_more_fuel (fuel k : nat) (s : LoopState) (x : Result) :
  V1.loop fuel s = Some x -> V1.loop (fuel + k) s = Some x.
Proof.
  revert s. induction fuel as [|fuel IH]; intros s H; [discriminate|].
  cbn [V1.loop Nat.add] in *.
  destruct (err_eqb (err s) (Some EOF)); [exact H|].
  destruct (V1.body s) as [s1|s1|e]; [apply IH; exact H | exact H | exact H].
Qed.

Lemma V1_Decode_more_fuel (fuel k : nat) (rd : Reader) (x : Result) :
  V1.Decode fuel rd = Some x -> V1.Decode (fuel + k) rd = Some x.
Proof.
  unfold V1.Decode. destruct (readHeaders (NewDecoder rd None)) as [d [e|]].
  - auto.
  - apply V1_loop_more_fuel.
Qed.

Lemma V1_Decode_start (fuel : nat) (rd : Reader) (s0 : LoopState) :
  V1.start rd = Some s0 -> V1.Decode fuel rd = V1.loop fuel s0.
Proof.
  unfold V1.start, V1.Decode.
  destruct (readHeaders (NewDecoder rd None)) as [d [e|]]; [discriminate|].
  intros [= <-]. reflexivity.
Qed.

Lemma V1_loop_passes (n fuel : nat) (s s' : LoopState) :
  V1.passes n s = Some s' -> V1.loop (n + fuel) s = V1.loop fuel s'.
Proof.
  revert s. induction n as [|n IH]; intros s H; cbn [V1.passes Nat.add V1.loop] in *.
  - injection H as ->. reflexivity.
  - destruct (err_eqb (err s) (Some EOF)); [discriminate|].
    destruct (V1.body s) as [s1|s1|e]; try discriminate. apply IH. exact H.
Qed.

Lemma V1_loop_short (n fuel : nat) (s s' : LoopState) :
  V1.passes n s = Some s' -> (fuel <= n)%nat -> V1.loop fuel s = None.
Proof.
  revert n s. induction fuel as [|fuel IH]; intros n s H Hle; [reflexivity|].
  destruct n as [|n]; [lia|]. cbn [V1.passes V1.loop] in *.
  destruct (err_eqb (err s) (Some EOF)); [discriminate|].
  destruct (V1.body s) as [s1|s1|e]; try discriminate.
  apply (IH n); [exact H | lia].
Qed.

(** A state that a pass leaves as it is: the loop never ends from it. *)
Lemma V1_loop_stuck (s : LoopState) :
  err s = None -> V1.body s = Next s -> forall fuel, V1.loop fuel s = None.
Proof.
  intros He Hb fuel. induction fuel as [|fuel IH]; [reflexivity|].
  cbn [V1.loop]. rewrite He. cbn [err_eqb]. rewrite Hb. exact IH.
Qed.

(** The [for] is left only when the read of a chunk header fails: no
    [break] of the [switch] ends the loop. *)
Lemma V1_body_break (s s' : LoopState) :
  V1.body s = BreakFor s' -> exists e, snd (snd (iDnSize (dec s))) = Some e.
Proof.
  unfold V1.body. destruct (iDnSize (dec s)) as [d [[id sz] [e|]]].
  - intros _. exists e. reflexivity.
  - destruct (Bytes4_eqb id commID).
    + destruct (parseCommChunk sz d) as [d1 e1].
      destruct (rewindBytes s >? 0); [|discriminate].
      destruct (Seek (int64 (- rewindBytes s)) 1 (r d1)). discriminate.
    + destruct (Bytes4_eqb id ssndID).
      * destruct (sampleRate (with_size sz (clip s)) =? 0); [|discriminate].
        destruct (jumpTo sz d) as [d1 [e1|]]; discriminate.
      * destruct (jumpTo sz d) as [d1 [e1|]]; discriminate.
Qed.

Lemma ReadFull_error (n : nat) (rd : Reader) (e : error) :
  snd (ReadFull n rd) = inr e -> e = EOF \/ e = ErrUnexpectedEOF.
Proof.
  unfold ReadFull. destruct n; [discriminate|].
  destruct (unread rd); [intros [= <-]; auto|].
  destruct (_ <? _)%nat; [intros [= <-]; auto|discriminate].
Qed.

Lemma jumpTo_error (n : Z) (d : Decoder) (e : error) :
  snd (jumpTo n d) = Some e -> e = EOF.
Proof.
  unfold jumpTo. destruct (n >? 0); [|discriminate].
  unfold CopyN_Discard. destruct (n <=? 0); [discriminate|].
  destruct (n <=? _); [discriminate|]. intros [= <-]. reflexivity.
Qed.

Lemma readHeaders_error (d : Decoder) (e : error) :
  snd (readHeaders d) = Some e ->
  e = EOF \/ e = ErrUnexpectedEOF \/ exists m, e = ErrFmtNotSupported m.
Proof.
  unfold readHeaders, and_then, binary_Read.
  pose proof (ReadFull_error 4 (r d)) as H1.
  destruct (ReadFull 4 (r d)) as [r1 [bs1|e1]]; cbn [snd] in *;
    [|intros [= <-]; destruct (H1 e1 eq_refl); auto].
  simpl_dec.
  destruct (negb (Bytes4_eqb (Bytes4_of_list bs1) formID));
    [intros [= <-]; right; right; eexists; reflexivity|].
  pose proof (ReadFull_error 4 r1) as H2.
  destruct (ReadFull 4 r1) as [r2 [bs2|e2]]; cbn [snd] in *;
    [|intros [= <-]; destruct (H2 e2 eq_refl); auto].
  simpl_dec.
  pose proof (ReadFull_error 4 r2) as H3.
  destruct (ReadFull 4 r2) as [r3 [bs3|e3]]; cbn [snd] in *;
    [|intros [= <-]; destruct (H3 e3 eq_refl); auto].
  simpl_dec.
  destruct (_ && _); [intros [= <-]; right; right; eexists; reflexivity|discriminate].
Qed.

(** The one error the loop returns is the [io.EOF] of a skip that runs out
    of bytes. *)
Lemma V1_body_return (s : LoopState) (e : error) :
  V1.body s = ReturnErr e -> e = EOF.
Proof.
  unfold V1.body. destruct (iDnSize (dec s)) as [d [[id sz] [e0|]]]; [discriminate|].
  destruct (Bytes4_eqb id commID).
  - destruct (parseCommChunk sz d) as [d1 e1].
    destruct (rewindBytes s >? 0); [|discriminate].
    destruct (Seek (int64 (- rewindBytes s)) 1 (r d1)). discriminate.
  - pose proof (jumpTo_error sz d) as HJ.
    destruct (Bytes4_eqb id ssndID).
    + destruct (sampleRate (with_size sz (clip s)) =? 0); [|discriminate].
      destruct (jumpTo sz d) as [d1 [e1|]]; [|discriminate].
      intros [= <-]. apply HJ. reflexivity.
    + destruct (jumpTo sz d) as [d1 [e1|]]; [|discriminate].
      intros [= <-]. apply HJ. reflexivity.
Qed.

Lemma V1_loop_error (fuel : nat) (s : LoopState) (x : option Clip) (e : error) :
  V1.loop fuel s = Some (x, Some e) -> x = None /\ e = EOF.
Proof.
  revert s. induction fuel as [|fuel IH]; intros s; [discriminate|].
  cbn [V1.loop]. destruct (err_eqb (err s) (Some EOF)); [discriminate|].
  pose proof (V1_body_return s) as HR.
  destruct (V1.body s) as [s1|s1|e1]; [apply IH|discriminate|].
  intros [= <- <-]. split; [reflexivity|]. apply HR. reflexivity.
Qed.

(** The errors [Decode] can return: those of [readHeaders], and the
    [io.EOF] of a skip.  No error of [parseCommChunk] is among them. *)
Lemma V1_Decode_error (fuel : nat) (rd : Reader) (x : option Clip) (e : error) :
  V1.Decode fuel rd = Some (x, Some e) ->
  x = None /\
  (e = EOF \/ e = ErrUnexpectedEOF \/ exists m, e = ErrFmtNotSupported m).
Proof.
  unfold V1.Decode.
  pose proof (readHeaders_error (NewDecoder rd None)) as HH.
  destruct (readHeaders (NewDecoder rd None)) as [d [e0|]]; cbn [snd] in HH.
  - intros [= <- <-]. split; [reflexivity|]. apply HH. reflexivity.
  - intro H. apply V1_loop_error in H. destruct H as [-> ->]. auto.
Qed.

(** C1, evaluated on two well-formed streams with COMM before SSND.  With
    four samples in SSND, [Decode] returns no clip but the error EOF: the
    loop does not stop at SSND, takes the payload for chunk headers and
    fails to skip the 5 bytes that the last sample announces.  With no
    sample in SSND, [Decode] returns the clip with the values of COMM and
    the size of SSND, and the stream stands at offset 54, its end, while
    the payload of SSND starts at offset 46. *)
Theorem Decode_COMM_then_SSND_runs_on (k : nat) :
  V1.Decode (4 + k) (NewReader (comm_then_ssnd four_samples)) = Some (None, Some EOF) /\
  skipn 38 (comm_then_ssnd []) = SSND 0 0 [] /\
  payload_start 38 = 46 /\
  exists c : Clip,
    V1.Decode (4 + k) (NewReader (comm_then_ssnd [])) = Some (Some c, None) /\
    Clip_FrameInfo c
      = {| audio.Channels := 1; audio.BitDepth := 16; audio.SampleRate := 44100 |} /\
    Clip_Size c = 8 /\
    option_map cur (clip_r c) = Some 54.
Proof.
  split; [apply V1_Decode_more_fuel; vm_compute; reflexivity|].
  split; [reflexivity|]. split; [reflexivity|].
  eexists. split; [apply V1_Decode_more_fuel; vm_compute; reflexivity|].
  repeat split.
Qed.

(** C2, evaluated on well-formed streams with SSND before COMM.  With nine
    samples of silence, the rewind after COMM puts the stream back on the
    header of COMM and [Decode] never returns, while it returns a clip for
    the same two chunks with COMM first.  With no sample, the loop has added
    the 8 bytes of the payload of SSND to [rewindBytes] and, after COMM,
    rewinds by these 8 bytes to offset 46, inside COMM; the payload of SSND
    starts at offset 20. *)
Theorem Decode_SSND_then_COMM_differs :
  (forall fuel : nat, V1.Decode fuel (NewReader (ssnd_then_comm silence9)) = None) /\
  (forall k : nat, exists c : Clip,
     V1.Decode (6 + k) (NewReader (comm_then_ssnd silence9)) = Some (Some c, None) /\
     Clip_FrameInfo c
       = {| audio.Channels := 1; audio.BitDepth := 16; audio.SampleRate := 44100 |} /\
     Clip_Size c = 26) /\
  skipn 12 (ssnd_then_comm []) = SSND 0 0 [] ++ COMM 1 0 16 rate_44100 /\
  payload_start 12 = 20 /\
  exists s0 s2 : LoopState,
    V1.start (NewReader (ssnd_then_comm [])) = Some s0 /\
    V1.passes 2 s0 = Some s2 /\
    rewindBytes s2 = 8 /\
    cur (r (dec s2)) = 46.
Proof.
  split.
  - intro fuel.
    destruct (V1.start (NewReader (ssnd_then_comm silence9))) as [s0|] eqn:E0;
      [|vm_compute in E0; discriminate].
    rewrite (V1_Decode_start fuel _ s0 E0).
    destruct (V1.passes 2 s0) as [s2|] eqn:E2;
      [|vm_compute in E0; injection E0 as <-; vm_compute in E2; discriminate].
    destruct (Nat.le_gt_cases fuel 2) as [Hle|Hgt].
    + exact (V1_loop_short 2 fuel s0 s2 E2 Hle).
    + replace fuel with (2 + (fuel - 2))%nat by lia.
      rewrite (V1_loop_passes 2 (fuel - 2) s0 s2 E2).
      vm_compute in E0. injection E0 as <-.
      vm_compute in E2. injection E2 as <-.
      apply V1_loop_stuck; vm_compute; reflexivity.
  - split.
    + intro k. eexists. split; [apply V1_Decode_more_fuel; vm_compute; reflexivity|].
      split; reflexivity.
    + split; [reflexivity|]. split; [reflexivity|].
      eexists. eexists. split; [vm_compute; reflexivity|].
      split; [vm_compute; reflexivity|]. split; reflexivity.
Qed.

(** C5, evaluated on two streams.  On the file cut after the first field of
    COMM, [parseCommChunk] returns the error of the frame count and
    [Decode] returns a clip, with two channels and no sample rate, and a
    nil error.  On the file with two stray bytes after COMM, the read of
    the next chunk header fails with [io.ErrUnexpectedEOF] and [Decode]
    returns the clip and a nil error. *)
Theorem Decode_drops_parse_and_header_errors (k : nat) :
  (exists (s0 : LoopState) (c : Clip),
     V1.start (NewReader truncated_comm) = Some s0 /\
     fst (fst (snd (iDnSize (dec s0)))) = commID /\
     snd (parseCommChunk 18 (fst (iDnSize (dec s0))))
       = Some (FieldError "num of sample frames failed to parse" EOF) /\
     V1.Decode (2 + k) (NewReader truncated_comm) = Some (Some c, None) /\
     channels c = 2 /\ sampleRate c = 0) /\
  (exists (s0 s1 : LoopState) (c : Clip),
     V1.start (NewReader stray_tail) = Some s0 /\
     V1.passes 1 s0 = Some s1 /\
     snd (snd (iDnSize (dec s1))) = Some ErrUnexpectedEOF /\
     V1.Decode (2 + k) (NewReader stray_tail) = Some (Some c, None)).
Proof.
  split.
  - eexists. eexists. split; [vm_compute; reflexivity|].
    split; [vm_compute; reflexivity|]. split; [vm_compute; reflexivity|].
    split; [apply V1_Decode_more_fuel; vm_compute; reflexivity|].
    split; reflexivity.
  - eexists. eexists. eexists. split; [vm_compute; reflexivity|].
    split; [vm_compute; reflexivity|]. split; [vm_compute; reflexivity|].
    apply V1_Decode_more_fuel; vm_compute; reflexivity.
Qed.

(** ** The traversal of the second revision *)

Lemma keeps_Chan_binary_Read (n : nat) (wrap : error -> error)
    (store : list byte -> Decoder -> Decoder) :
  (forall bs d, Chan (store bs d) = Chan d) -> keeps_Chan (binary_Read n wrap store).
Proof.
  intros Hs d. unfold binary_Read.
  destruct (ReadFull n (r d)) as [rd [bs|e]]; cbn [fst]; [rewrite Hs|]; reflexivity.
Qed.

Lemma keeps_Chan_and_then (a b : Step) :
  keeps_Chan a -> keeps_Chan b -> keeps_Chan (a ;; b).
Proof.
  intros Ha Hb d. unfold and_then. specialize (Ha d).
  destruct (a d) as [d1 [e|]]; cbn [fst] in *; [exact Ha|].
  rewrite Hb. exact Ha.
Qed.

Lemma keeps_Chan_readHeaders : keeps_Chan readHeaders.
Proof.
  unfold readHeaders.
  apply keeps_Chan_and_then; [apply keeps_Chan_binary_Read; reflexivity|].
  intro d. destruct (negb (Bytes4_eqb (ID d) formID)); [reflexivity|].
  apply (keeps_Chan_and_then _ _); [apply keeps_Chan_binary_Read; reflexivity|].
  apply keeps_Chan_and_then; [apply keeps_Chan_binary_Read; reflexivity|].
  intro d1. destruct (_ && _); reflexivity.
Qed.

Lemma keeps_Chan_parseCommChunk (sz : Z) : keeps_Chan (parseCommChunk sz).
Proof.
  unfold parseCommChunk.
  apply keeps_Chan_and_then; [intro d; reflexivity|].
  do 4 (apply keeps_Chan_and_then; [apply keeps_Chan_binary_Read; reflexivity|]).
  intro d. destruct (Bytes4_eqb (Format d) aifcID); [|reflexivity].
  apply (keeps_Chan_and_then _ _); [apply keeps_Chan_binary_Read; reflexivity|].
  intro d1. destruct (ReadFull 1 (r d1)) as [rd [bs|e]]; [|reflexivity].
  rewrite (keeps_Chan_binary_Read _ _ with_EncodingName); reflexivity.
Qed.

Lemma Chan_IDnSize (d : Decoder) : Chan (fst (IDnSize d)) = Chan d.
Proof.
  unfold IDnSize, iDnSize.
  destruct (ReadFull 4 (r d)) as [rd [bs|e]]; [|reflexivity].
  destruct (ReadFull 4 (r (with_r rd d))) as [rd2 res].
  destruct (negb (err_eqb _ _)); reflexivity.
Qed.

Lemma Chan_jumpTo (n : Z) : keeps_Chan (jumpTo n).
Proof.
  intro d. unfold jumpTo. destruct (n >? 0); [|reflexivity].
  destruct (CopyN_Discard n (r d)) as [rd [w e]]. reflexivity.
Qed.

(** With a receiver registered, [dispatchToChan] sends the chunk it is
    given, with the reader as it stands; with none, it sends nothing. *)
Lemma dispatchToChan_sends (id : Bytes4) (sz : Z) (d : Decoder) :
  Chan (fst (fst (V2.dispatchToChan id sz d))) = Chan d /\
  snd (V2.dispatchToChan id sz d)
    = match Chan d with
      | Some _ => Some {| Chunk_ID := id; Chunk_Size := sz; Chunk_R := r d |}
      | None => None
      end.
Proof.
  unfold V2.dispatchToChan. destruct (Chan d) as [c|] eqn:E.
  - cbn. auto.
  - pose proof (Chan_jumpTo sz d) as H.
    destruct (jumpTo sz d) as [d1 [e|]]; cbn in *; rewrite H; auto.
Qed.

(** One pass: [Chan] stays, and a chunk is sent exactly when the header read
    is one the loop dispatches; it is that header. *)
Lemma V2_body_pass (s : LoopState) (c : Consumer) :
  Chan (dec s) = Some c ->
  match V2.body s with
  | (fl, v, ch) =>
      match fl with
      | Next s1 | BreakFor s1 => Chan (dec s1) = Some c
      | ReturnErr _ => True
      end /\
      map chunk_key (V2.opt_cons ch [])
        = map visit_key (filter V2.dispatched (V2.opt_cons v []))
  end.
Proof.
  intro HC. unfold V2.body.
  pose proof (Chan_IDnSize (dec s)) as H1.
  destruct (IDnSize (dec s)) as [d [[id sz] [e|]]]; cbn [fst] in H1.
  - cbn. split; [congruence|reflexivity].
  - assert (HCd : Chan d = Some c) by congruence.
    pose proof (keeps_Chan_parseCommChunk sz d) as H2.
    destruct (dispatchToChan_sends id sz d) as [H3 H4]. rewrite HCd in H4.
    destruct (Bytes4_eqb id commID) eqn:Ecomm.
    + destruct (parseCommChunk sz d) as [d1 e1]. cbn [fst] in H2.
      destruct (rewindBytes s >? 0).
      * destruct (Seek (int64 (- rewindBytes s)) 1 (r d1)) as [rd x].
        unfold V2.dispatched. cbn. rewrite Ecomm. cbn.
        split; [congruence|reflexivity].
      * unfold V2.dispatched. cbn. rewrite Ecomm. cbn.
        split; [congruence|reflexivity].
    + destruct (Bytes4_eqb id ssndID) eqn:Essnd.
      * cbn [sampleRate with_size].
        destruct (sampleRate (clip s) =? 0) eqn:Er.
        -- destruct (V2.dispatchToChan id sz d) as [[d1 e1] ch].
           cbn [fst snd] in *. subst ch.
           unfold V2.dispatched. cbn. rewrite Ecomm, Essnd, Er. cbn.
           split; [congruence|reflexivity].
        -- unfold V2.dispatched. cbn. rewrite Ecomm, Essnd, Er. cbn.
           split; [congruence|reflexivity].
      * destruct (V2.dispatchToChan id sz d) as [[d1 e1] ch].
        cbn [fst snd] in *. subst ch.
        unfold V2.dispatched. cbn. rewrite Ecomm, Essnd. cbn.
        split; [congruence|reflexivity].
Qed.

Lemma opt_cons_app {A : Type} (x : option A) (l : list A) :
  V2.opt_cons x l = V2.opt_cons x [] ++ l.
Proof. destruct x; reflexivity. Qed.

Lemma V2_loop_handoffs (fuel : nat) (s : LoopState) (c : Consumer) :
  Chan (dec s) = Some c ->
  map chunk_key (V2.sent (V2.loop fuel s))
    = map visit_key (filter V2.dispatched (V2.visited (V2.loop fuel s))).
Proof.
  revert s. induction fuel as [|fuel IH]; intros s HC; [reflexivity|].
  cbn [V2.loop]. destruct (err_eqb (err s) (Some EOF)); [reflexivity|].
  pose proof (V2_body_pass s c HC) as HB.
  destruct (V2.body s) as [[fl v] ch]. destruct HB as [HCh Hkey].
  destruct fl as [s1|s1|e]; cbn [V2.record V2.sent V2.visited V2.done];
    rewrite (opt_cons_app ch), (opt_cons_app v), map_app, filter_app, map_app, Hkey;
    f_equal.
  apply IH. exact HCh.
Qed.

Lemma V2_loop_no_receiver (fuel : nat) (s : LoopState) :
  Chan (dec s) = None -> V2.sent (V2.loop fuel s) = [].
Proof.
  revert s. induction fuel as [|fuel IH]; intros s HC; [reflexivity|].
  cbn [V2.loop]. destruct (err_eqb (err s) (Some EOF)); [reflexivity|].
  unfold V2.body.
  pose proof (Chan_IDnSize (dec s)) as H1.
  destruct (IDnSize (dec s)) as [d [[id sz] [e|]]]; cbn [fst] in H1; [reflexivity|].
  assert (HCd : Chan d = None) by congruence.
  pose proof (keeps_Chan_parseCommChunk sz d) as H2.
  destruct (dispatchToChan_sends id sz d) as [H3 H4]. rewrite HCd in H4.
  destruct (Bytes4_eqb id commID).
  - destruct (parseCommChunk sz d) as [d1 e1]. cbn [fst] in H2.
    destruct (rewindBytes s >? 0).
    + destruct (Seek (int64 (- rewindBytes s)) 1 (r d1)) as [rd x].
      cbn. apply IH. cbn. congruence.
    + cbn. apply IH. cbn. congruence.
  - destruct (Bytes4_eqb id ssndID).
    + destruct (sampleRate (with_size sz (clip s)) =? 0).
      * destruct (V2.dispatchToChan id sz d) as [[d1 e1] ch].
        cbn [fst snd] in *. subst ch. cbn. apply IH. cbn. congruence.
      * cbn. apply IH. cbn. congruence.
    + destruct (V2.dispatchToChan id sz d) as [[d1 e1] ch].
      cbn [fst snd] in *. subst ch. cbn. apply IH. cbn. congruence.
Qed.

(** C7 as stated fails: the file holds one chunk that is neither COMM nor
    SSND and a consumer is registered with [NewDecoder], yet decoding hands
    off no chunk: [Decode] does not take the decoder that holds the
    consumer. *)
Lemma registered_consumer_gets_no_chunk :
  ~ hands_off_exactly [(ascii4 "ANNO", 2)]
      (snd (decode_registered 4 (NewReader anno_then_comm) reads_payload)).
Proof.
  unfold hands_off_exactly. vm_compute. discriminate.
Qed.

(** C7, amended.  [Decode] builds its decoder without a channel, and on no
    stream does it hand off a chunk.  On a decoder without a channel, a
    pass of the loop that reads a header other than COMM, and other than an
    SSND read with the sample rate of the clip already set, advances the
    stream with [jumpTo] by the size announced and sends nothing: this
    holds for an SSND read while the sample rate is 0 as for any other
    chunk.  The error of [jumpTo] is dropped, and the decoder stays without
    a channel. *)
Theorem Decode_hands_off_nothing :
  (forall (fuel : nat) (rd : Reader), V2.sent (V2.Decode fuel rd) = []) /\
  (forall (s : LoopState) (d : Decoder) (id : Bytes4) (sz : Z),
     Chan (dec s) = None ->
     IDnSize (dec s) = (d, (id, sz, None)) ->
     Bytes4_eqb id commID = false ->
     (Bytes4_eqb id ssndID = true -> sampleRate (clip s) = 0) ->
     Chan (fst (jumpTo sz d)) = None /\
     exists (c' : Clip) (rw' : Z),
       V2.body s
       = (Next {| dec := fst (jumpTo sz d); clip := c'; err := err s;
                  rewindBytes := rw' |},
          Some {| V2.visit_id := id; V2.visit_size := sz;
                  V2.visit_rate := sampleRate (clip s) |},
          None)).
Proof.
  split.
  - intros fuel rd. unfold V2.Decode, V2.traverse.
    pose proof (keeps_Chan_readHeaders (NewDecoder rd None)) as H.
    destruct (readHeaders (NewDecoder rd None)) as [d1 [e|]]; cbn [fst] in H;
      [reflexivity|].
    apply V2_loop_no_receiver. cbn in *. congruence.
  - intros s d id sz HC HI Hcomm Hssnd.
    assert (HCd : Chan d = None).
    { pose proof (Chan_IDnSize (dec s)) as H. rewrite HI in H. cbn [fst] in H.
      congruence. }
    split; [rewrite (Chan_jumpTo sz d); exact HCd|].
    unfold V2.body. rewrite HI, Hcomm.
    assert (HD : V2.dispatchToChan id sz d = (fst (jumpTo sz d), snd (jumpTo sz d), None)).
    { unfold V2.dispatchToChan. rewrite HCd.
      destruct (jumpTo sz d) as [d1 [e|]]; reflexivity. }
    destruct (Bytes4_eqb id ssndID).
    + cbn [sampleRate with_size]. rewrite (Hssnd eq_refl). cbn [Z.eqb].
      rewrite HD. eexists. eexists. reflexivity.
    + rewrite HD. eexists. eexists. reflexivity.
Qed.

Lemma Decode_hands_off_nothing_witness :
  exists (c' : Clip) (rw' : Z),
    V2.body {| dec := fst (readHeaders (NewDecoder (NewReader (ssnd_then_comm [])) None));
               clip := Clip_zero; err := None; rewindBytes := 0 |}
    = (Next {| dec := fst (jumpTo 8
                 (fst (IDnSize
                    (fst (readHeaders
                       (NewDecoder (NewReader (ssnd_then_comm [])) None))))));
               clip := c'; err := None; rewindBytes := rw' |},
       Some {| V2.visit_id := ssndID; V2.visit_size := 8; V2.visit_rate := 0 |},
       None).
Proof.
  apply (proj2 (proj2 Decode_hands_off_nothing
    {| dec := fst (readHeaders (NewDecoder (NewReader (ssnd_then_comm [])) None));
       clip := Clip_zero; err := None; rewindBytes := 0 |}
    (fst (IDnSize (fst (readHeaders (NewDecoder (NewReader (ssnd_then_comm [])) None)))))
    ssndID 8
    ltac:(vm_compute; reflexivity) ltac:(vm_compute; reflexivity)
    ltac:(vm_compute; reflexivity) ltac:(intros _; reflexivity))).
Defined.

(** * [Duration] *)

(** ** [float64]: the digits of a mantissa *)
Lemma digits2_pos_size (p : positive) : digits2_pos p = Pos.size p.
Proof. induction p; cbn; congruence. Qed.

Lemma digits2_pos_bounds (p : positive) :
  2 ^ (Z.pos (digits2_pos p) - 1) <= Z.pos p < 2 ^ Z.pos (digits2_pos p).
Proof.
  rewrite digits2_pos_size.
  pose proof (Pos.size_gt p) as Hgt. pose proof (Pos.size_le p) as Hle.
  apply Pos2Z.pos_lt_pos in Hgt. apply Pos2Z.pos_le_pos in Hle.
  rewrite Pos2Z.inj_pow in Hgt, Hle. change (Z.pos p~0) with (2 * Z.pos p) in Hle.
  split; [|exact Hgt].
  assert (E : 2 ^ Z.pos (Pos.size p) = 2 * 2 ^ (Z.pos (Pos.size p) - 1)).
  { rewrite <- Z.pow_succ_r by lia. f_equal. lia. }
  lia.
Qed.

Lemma digits2_pos_unique (p : positive) (k : Z) :
  2 ^ (k - 1) <= Z.pos p < 2 ^ k -> Z.pos (digits2_pos p) = k.
Proof.
  intros [Hlo Hhi]. pose proof (digits2_pos_bounds p) as [Dlo Dhi].
  set (d := Z.pos (digits2_pos p)) in *.
  assert (0 < d) by (unfold d; lia).
  destruct (Z.lt_trichotomy d k) as [Hlt|[Heq|Hgt]]; [|exact Heq|].
  - assert (2 ^ d <= 2 ^ (k - 1)) by (apply Z.pow_le_mono_r; lia). lia.
  - destruct (Z_lt_le_dec k 0) as [Hn|Hn].
    + rewrite Z.pow_neg_r in Hhi by lia. lia.
    + assert (2 ^ k <= 2 ^ (d - 1)) by (apply Z.pow_le_mono_r; lia). lia.
Qed.

(** ** [float64]: rounding *)
Lemma shr_1_m (mrs : shr_record) : 0 <= shr_m mrs -> shr_m (shr_1 mrs) = shr_m mrs / 2.
Proof.
  destruct mrs as [m r s]. cbn [shr_m]. intro H.
  destruct m as [|[p|p|]|p]; cbn [shr_1 shr_m]; try lia.
  - reflexivity.
  - rewrite Pos2Z.inj_xI. apply Z.div_unique with 1; lia.
  - rewrite Pos2Z.inj_xO. apply Z.div_unique with 0; lia.
  - reflexivity.
Qed.

Lemma iter_shr_1_m (p : positive) (mrs : shr_record) :
  0 <= shr_m mrs ->
  shr_m (iter_pos shr_1 p mrs) = shr_m mrs / 2 ^ Z.pos p.
Proof.
  revert mrs. induction p as [p IH|p IH|]; intros mrs H; cbn [iter_pos].
  - assert (H1 : 0 <= shr_m (shr_1 mrs)).
    { rewrite shr_1_m by exact H. apply Z.div_pos; lia. }
    assert (H2 : 0 <= shr_m (iter_pos shr_1 p (shr_1 mrs))).
    { rewrite IH by exact H1. apply Z.div_pos; [lia|]. apply Z.pow_pos_nonneg; lia. }
    rewrite IH by exact H2. rewrite IH by exact H1. rewrite shr_1_m by exact H.
    assert (0 < 2 ^ Z.pos p) by (apply Z.pow_pos_nonneg; lia).
    rewrite !Z.div_div by lia. f_equal.
    replace (Z.pos p~1) with (1 + Z.pos p + Z.pos p) by lia.
    rewrite !Z.pow_add_r by lia. change (2 ^ 1) with 2. lia.
  - assert (H2 : 0 <= shr_m (iter_pos shr_1 p mrs)).
    { rewrite IH by exact H. apply Z.div_pos; [lia|]. apply Z.pow_pos_nonneg; lia. }
    rewrite IH by exact H2. rewrite IH by exact H.
    assert (0 < 2 ^ Z.pos p) by (apply Z.pow_pos_nonneg; lia).
    rewrite !Z.div_div by lia. f_equal.
    replace (Z.pos p~0) with (Z.pos p + Z.pos p) by lia.
    rewrite !Z.pow_add_r by lia. reflexivity.
  - rewrite shr_1_m by exact H. reflexivity.
Qed.

Lemma shr_record_of_loc_m (m : Z) (l : location) : shr_m (shr_record_of_loc m l) = m.
Proof. destruct l as [|[]]; reflexivity. Qed.

Lemma round_nearest_even_cases (m : Z) (l : location) :
  round_nearest_even m l = m \/ round_nearest_even m l = m + 1.
Proof.
  destruct l as [|[]]; cbn; auto. destruct (Z.even m); auto.
Qed.

(** In the range of the normal numbers, [shr_fexp] leaves the 53 leading
    binary digits of the mantissa. *)
Lemma shr_fexp_normal (p : positive) (e : Z) (l : location) :
  2 ^ 52 <= Z.pos p -> -1000 <= e ->
  exists mrs : shr_record,
    shr_fexp 53 1024 (Z.pos p) e l = (mrs, e + (Z.pos (digits2_pos p) - 53)) /\
    shr_m mrs = Z.pos p / 2 ^ (Z.pos (digits2_pos p) - 53) /\
    0 <= Z.pos (digits2_pos p) - 53.
Proof.
  intros Hm He. pose proof (digits2_pos_bounds p) as [Dlo Dhi].
  set (d := Z.pos (digits2_pos p)) in *.
  assert (Hd : 53 <= d).
  { destruct (Z_lt_le_dec d 53) as [Hlt|]; [|assumption].
    assert (2 ^ d <= 2 ^ 52) by (apply Z.pow_le_mono_r; lia). lia. }
  unfold shr_fexp. cbn [Zdigits2]. fold d.
  unfold fexp, emin. rewrite Z.max_l by lia.
  replace (d + e - 53 - e) with (d - 53) by lia.
  destruct (d - 53) as [|n|n] eqn:En; try lia.
  - eexists. split; [unfold shr; rewrite Z.add_0_r; reflexivity|].
    rewrite shr_record_of_loc_m. change (2 ^ 0) with 1. rewrite Z.div_1_r. split; [reflexivity|lia].
  - eexists. split; [unfold shr; reflexivity|].
    rewrite iter_shr_1_m by (rewrite shr_record_of_loc_m; lia).
    rewrite shr_record_of_loc_m. split; [reflexivity|lia].
Qed.

(** Rounding a mantissa of at least 53 digits, away from overflow and
    underflow: the result is a normal number, one unit in the last place
    from the value rounded. *)
Lemma binary_round_aux_normal (s : bool) (p : positive) (e : Z) (l : location) :
  2 ^ 52 <= Z.pos p -> -1000 <= e -> Z.pos (digits2_pos p) + e <= 1000 ->
  exists (m' : positive) (k : Z),
    binary_round_aux 53 1024 s (Z.pos p) e l = S754_finite s m' (e + k) /\
    0 <= k <= Z.pos (digits2_pos p) - 52 /\
    2 ^ 52 <= Z.pos m' < 2 ^ 53 /\
    Z.pos p - 2 ^ k < Z.pos m' * 2 ^ k <= Z.pos p + 2 ^ k.
Proof.
  intros Hm He Hd.
  destruct (shr_fexp_normal p e l Hm He) as (mrs & E1 & M1 & Hn).
  pose proof (digits2_pos_bounds p) as [Dlo Dhi].
  set (n := Z.pos (digits2_pos p) - 53) in *.
  assert (Hp2 : 0 < 2 ^ n) by (apply Z.pow_pos_nonneg; lia).
  assert (E53 : 2 ^ Z.pos (digits2_pos p) = 2 ^ 53 * 2 ^ n).
  { rewrite <- Z.pow_add_r by lia. f_equal. unfold n. lia. }
  assert (E52 : 2 ^ (Z.pos (digits2_pos p) - 1) = 2 ^ 52 * 2 ^ n).
  { rewrite <- Z.pow_add_r by lia. f_equal. unfold n. lia. }
  set (mt := Z.pos p / 2 ^ n) in *.
  assert (Hmt : mt * 2 ^ n <= Z.pos p < (mt + 1) * 2 ^ n).
  { pose proof (Z.div_mod (Z.pos p) (2 ^ n) ltac:(lia)) as Hdm.
    pose proof (Z.mod_pos_bound (Z.pos p) (2 ^ n) Hp2) as Hmod.
    fold mt in Hdm. lia. }
  assert (Rmt : 2 ^ 52 <= mt < 2 ^ 53).
  { split.
    - apply Z.div_le_lower_bound; lia.
    - apply Z.div_lt_upper_bound; lia. }
  unfold binary_round_aux. rewrite E1.
  set (m1 := round_nearest_even (shr_m mrs) (loc_of_shr_record mrs)).
  assert (Hm1 : m1 = mt \/ m1 = mt + 1).
  { unfold m1. rewrite M1. apply round_nearest_even_cases. }
  assert (Rm1 : 2 ^ 52 <= m1 <= 2 ^ 53) by lia.
  destruct m1 as [|p1|p1] eqn:Ep1; try lia.
  destruct (shr_fexp_normal p1 (e + n) loc_Exact ltac:(lia) ltac:(lia))
    as (mrs2 & E2 & M2 & Hn2).
  rewrite E2.
  destruct (Z.eq_dec (Z.pos p1) (2 ^ 53)) as [Etop|Ntop].
  - assert (D1 : Z.pos (digits2_pos p1) = 54).
    { apply digits2_pos_unique. rewrite Etop. change (54 - 1) with 53.
      split; [lia|]. apply Z.pow_lt_mono_r; lia. }
    rewrite D1 in *. change (54 - 53) with 1 in *.
    rewrite Etop in M2. change (2 ^ 53 / 2 ^ 1) with (2 ^ 52) in M2.
    rewrite M2. change (2 ^ 52) with (Z.pos (2 ^ 52)%positive).
    assert (Hle : (e + n + 1 <=? 1024 - 53) = true) by (apply Z.leb_le; unfold n; lia).
    rewrite Hle.
    exists (2 ^ 52)%positive, (n + 1). split; [f_equal; lia|].
    split; [unfold n; lia|]. split; [split; [reflexivity|reflexivity]|].
    rewrite Z.pow_add_r by lia. change (2 ^ 1) with 2.
    change (Z.pos (2 ^ 52)) with (2 ^ 52).
    replace (2 ^ 52 * (2 ^ n * 2)) with (2 ^ 53 * 2 ^ n) by (change (2 ^ 53) with (2 ^ 52 * 2); ring).
    rewrite <- Etop. nia.
  - assert (D1 : Z.pos (digits2_pos p1) = 53).
    { apply digits2_pos_unique. change (53 - 1) with 52. lia. }
    rewrite D1 in *. change (53 - 53) with 0 in *.
    change (2 ^ 0) with 1 in M2. rewrite Z.div_1_r in M2.
    rewrite M2.
    assert (Hle : (e + n + 0 <=? 1024 - 53) = true) by (apply Z.leb_le; unfold n; lia).
    rewrite Hle.
    exists p1, n. split; [f_equal; lia|].
    split; [unfold n; lia|]. split; [lia|]. nia.
Qed.

Lemma digits2_pos_le (p : positive) (k : Z) :
  Z.pos p < 2 ^ k -> Z.pos (digits2_pos p) <= k.
Proof.
  intro H. pose proof (digits2_pos_bounds p) as [Dlo _].
  destruct (Z_lt_le_dec k (Z.pos (digits2_pos p))) as [Hlt|]; [|assumption].
  destruct (Z_lt_le_dec k 0) as [Hn|Hn].
  - rewrite Z.pow_neg_r in H by lia. lia.
  - assert (2 ^ k <= 2 ^ (Z.pos (digits2_pos p) - 1)) by (apply Z.pow_le_mono_r; lia).
    lia.
Qed.

Lemma iter_xO (p j : positive) : Z.pos (Pos.iter xO p j) = Z.pos p * 2 ^ Z.pos j.
Proof.
  induction j as [|j IH] using Pos.peano_ind.
  - cbn [Pos.iter]. change (2 ^ 1) with 2. lia.
  - rewrite Pos.iter_succ. rewrite Pos2Z.inj_xO, IH, Pos2Z.inj_succ, Z.pow_succ_r by lia.
    ring.
Qed.

(** A mantissa of exactly 53 digits is left as it is. *)
Lemma binary_round_aux_exact (s : bool) (p : positive) (e : Z) :
  Z.pos (digits2_pos p) = 53 -> -1000 <= e <= 900 ->
  binary_round_aux 53 1024 s (Z.pos p) e loc_Exact = S754_finite s p e.
Proof.
  intros Hd He.
  assert (E : forall l, shr_fexp 53 1024 (Z.pos p) e l = (shr_record_of_loc (Z.pos p) l, e)).
  { intro l. unfold shr_fexp. cbn [Zdigits2]. rewrite Hd.
    unfold fexp, emin. rewrite Z.max_l by lia.
    replace (53 + e - 53 - e) with 0 by lia. reflexivity. }
  unfold binary_round_aux. rewrite E. cbn [shr_record_of_loc shr_m loc_of_shr_record round_nearest_even].
  rewrite E. cbn [shr_record_of_loc shr_m].
  assert (Hle : (e <=? 1024 - 53) = true) by (apply Z.leb_le; lia).
  rewrite Hle. reflexivity.
Qed.

(** [float64(z)] is exact for a positive integer below 2^53. *)
Lemma of_int_exact (z : Z) :
  0 < z < 2 ^ 53 ->
  exists (m : positive) (a : Z),
    float64.of_int z = S754_finite false m (- a) /\
    0 <= a <= 52 /\ Z.pos m = z * 2 ^ a /\ 2 ^ 52 <= Z.pos m < 2 ^ 53.
Proof.
  intros [H0 H53]. destruct z as [|p|p]; try lia.
  pose proof (digits2_pos_bounds p) as [Dlo Dhi].
  pose proof (digits2_pos_le p 53 H53) as Dle.
  set (d := Z.pos (digits2_pos p)) in *.
  assert (Dpos : 1 <= d) by (unfold d; lia).
  unfold float64.of_int, binary_normalize, binary_round, float64.prec, float64.emax.
  fold d. unfold fexp, emin. rewrite Z.max_l by lia.
  unfold shl_align. replace (d + 0 - 53 - 0) with (d - 53) by lia.
  destruct (d - 53) as [|j|j] eqn:Ej; try lia.
  - assert (Ed : d = 53) by lia.
    rewrite binary_round_aux_exact by (fold d; lia).
    exists p, 0. split; [reflexivity|]. split; [lia|].
    split; [change (2 ^ 0) with 1; lia|].
    rewrite Ed in Dlo. change (53 - 1) with 52 in Dlo. lia.
  - assert (Em : Z.pos (Pos.iter xO p j) = Z.pos p * 2 ^ Z.pos j) by apply iter_xO.
    assert (Ej' : Z.pos j = 53 - d) by lia.
    assert (Hp : 0 < 2 ^ Z.pos j) by (apply Z.pow_pos_nonneg; lia).
    assert (Rg : 2 ^ 52 <= Z.pos (Pos.iter xO p j) < 2 ^ 53).
    { rewrite Em. split.
      - replace 52 with ((d - 1) + Z.pos j) by lia. rewrite Z.pow_add_r by lia. nia.
      - replace 53 with (d + Z.pos j) by lia. rewrite Z.pow_add_r by lia. nia. }
    assert (D53 : Z.pos (digits2_pos (Pos.iter xO p j)) = 53).
    { apply digits2_pos_unique. change (53 - 1) with 52. exact Rg. }
    rewrite binary_round_aux_exact by (try exact D53; lia).
    exists (Pos.iter xO p j), (Z.pos j). split; [f_equal; lia|].
    split; [lia|]. split; [exact Em|exact Rg].
Qed.

(** The quotient of two normal numbers. *)
Lemma div_normal (m1 m2 : positive) (e1 e2 : Z) :
  2 ^ 52 <= Z.pos m1 < 2 ^ 53 -> 2 ^ 52 <= Z.pos m2 < 2 ^ 53 ->
  -100 <= e1 <= 100 -> -100 <= e2 <= 100 ->
  exists (mq : positive) (k q : Z),
    float64.div (S754_finite false m1 e1) (S754_finite false m2 e2)
      = S754_finite false mq (e1 - e2 - 53 + k) /\
    0 <= k <= 2 /\
    2 ^ 52 <= Z.pos mq < 2 ^ 53 /\
    q * Z.pos m2 <= Z.pos m1 * 2 ^ 53 < (q + 1) * Z.pos m2 /\
    q - 2 ^ k < Z.pos mq * 2 ^ k <= q + 2 ^ k.
Proof.
  intros R1 R2 He1 He2.
  assert (D1 : Z.pos (digits2_pos m1) = 53) by (apply digits2_pos_unique; exact R1).
  assert (D2 : Z.pos (digits2_pos m2) = 53) by (apply digits2_pos_unique; exact R2).
  unfold float64.div, float64.prec, float64.emax, SFdiv, SFdiv_core_binary.
  cbn [Zdigits2 xorb]. rewrite D1, D2.
  unfold fexp, emin. rewrite (Z.max_l (53 + e1 - (53 + e2) - 53)) by lia.
  rewrite Z.min_l by lia.
  replace (e1 - e2 - (53 + e1 - (53 + e2) - 53)) with 53 by lia.
  rewrite Z.shiftl_mul_pow2 by lia.
  pose proof (Z_div_mod (Z.pos m1 * 2 ^ 53) (Z.pos m2) ltac:(lia)) as Hdm.
  destruct (Z.div_eucl (Z.pos m1 * 2 ^ 53) (Z.pos m2)) as [q r].
  destruct Hdm as [Hq Hr].
  assert (Q52 : 2 ^ 52 <= q).
  { destruct (Z_lt_le_dec q (2 ^ 52)) as [Hlt|]; [|assumption].
    change (2 ^ 52) with 4503599627370496 in *.
    change (2 ^ 53) with 9007199254740992 in *. nia. }
  assert (Q54 : q < 2 ^ 54).
  { destruct (Z_lt_le_dec q (2 ^ 54)) as [|Hge]; [assumption|].
    change (2 ^ 52) with 4503599627370496 in *.
    change (2 ^ 53) with 9007199254740992 in *.
    change (2 ^ 54) with 18014398509481984 in *. nia. }
  destruct q as [|pq|pq]; try lia.
  pose proof (digits2_pos_le pq 54 Q54) as Dq.
  destruct (binary_round_aux_normal false pq (53 + e1 - (53 + e2) - 53)
              (new_location (Z.pos m2) r) Q52 ltac:(lia) ltac:(lia))
    as (mq & k & E & Hk & Rq & Hq').
  exists mq, k, (Z.pos pq). rewrite E.
  split; [f_equal; lia|]. split; [lia|]. split; [exact Rq|].
  split; [lia|exact Hq'].
Qed.

(** The product of two normal numbers. *)
Lemma mul_normal (m1 m2 : positive) (e1 e2 : Z) :
  2 ^ 52 <= Z.pos m1 < 2 ^ 53 -> 2 ^ 52 <= Z.pos m2 < 2 ^ 53 ->
  -200 <= e1 <= 200 -> -200 <= e2 <= 200 ->
  exists (mp : positive) (j : Z),
    float64.mul (S754_finite false m1 e1) (S754_finite false m2 e2)
      = S754_finite false mp (e1 + e2 + j) /\
    0 <= j <= 54 /\
    2 ^ 52 <= Z.pos mp < 2 ^ 53 /\
    Z.pos m1 * Z.pos m2 - 2 ^ j < Z.pos mp * 2 ^ j <= Z.pos m1 * Z.pos m2 + 2 ^ j.
Proof.
  intros R1 R2 He1 He2.
  unfold float64.mul, float64.prec, float64.emax, SFmul. cbn [xorb].
  assert (P104 : 2 ^ 52 <= Z.pos (m1 * m2)).
  { rewrite Pos2Z.inj_mul. change (2 ^ 52) with 4503599627370496 in *. nia. }
  assert (P106 : Z.pos (m1 * m2) < 2 ^ 106).
  { rewrite Pos2Z.inj_mul. change (2 ^ 106) with (2 ^ 53 * 2 ^ 53).
    change (2 ^ 53) with 9007199254740992 in *. nia. }
  pose proof (digits2_pos_le _ 106 P106) as Dp.
  destruct (binary_round_aux_normal false (m1 * m2) (e1 + e2) loc_Exact
              P104 ltac:(lia) ltac:(lia))
    as (mp & j & E & Hj & Rp & Hp).
  exists mp, j. rewrite E. rewrite Pos2Z.inj_mul in Hp.
  split; [reflexivity|]. split; [lia|]. split; [exact Rp|exact Hp].
Qed.

(** ** Powers of 2 over the reals *)

Lemma pw_pos (z : Z) : (0 < pw z)%R.
Proof. apply powerRZ_lt. lra. Qed.

Lemma pw_add (a b : Z) : pw (a + b) = (pw a * pw b)%R.
Proof. apply powerRZ_add. lra. Qed.

Lemma pw_IZR (k : Z) : 0 <= k -> pw k = IZR (2 ^ k).
Proof.
  intro H. destruct k as [|p|p]; try lia.
  - reflexivity.
  - unfold pw. symmetry. apply (Zpower_pos_powerRZ 2 p).
Qed.

Lemma pw_ge_1 (k : Z) : 0 <= k -> (1 <= pw k)%R.
Proof.
  intro H. rewrite pw_IZR by exact H. apply IZR_le.
  assert (0 < 2 ^ k) by (apply Z.pow_pos_nonneg; lia). lia.
Qed.

(** The value [Duration] computes for a frame count and a sample rate of 32
    bits, none of them 0: within a nanosecond and a relative error of 2^-50
    of the quotient. *)
Lemma float_duration_close (impl : spec_float -> Z) (frames rate : Z) :
  0 < frames < 2 ^ 32 -> 0 < rate < 2 ^ 32 ->
  exists D : Z,
    float64.to_int64 impl
      (float64.mul (float64.div (float64.of_int frames) (float64.of_int rate))
                   (float64.of_int 1000000000)) = D /\
    2 ^ 50 * Z.abs (D * rate - frames * 1000000000)
      <= 2 ^ 50 * rate + frames * 1000000000.
Proof.
  intros HF HR.
  destruct (of_int_exact frames ltac:(change (2 ^ 53) with (2 ^ 32 * 2 ^ 21); lia))
    as (m1 & a & E1 & Ha & M1 & R1).
  destruct (of_int_exact rate ltac:(change (2 ^ 53) with (2 ^ 32 * 2 ^ 21); lia))
    as (m2 & b & E2 & Hb & M2 & R2).
  destruct (div_normal m1 m2 (- a) (- b) R1 R2 ltac:(lia) ltac:(lia))
    as (mq & k & q & Eq & Hk & Rq & Hq & Hqk).
  assert (Ec : float64.of_int 1000000000 = S754_finite false 8388608000000000 (-23))
    by reflexivity.
  destruct (mul_normal mq 8388608000000000 (- a - - b - 53 + k) (-23) Rq
              ltac:(split; [apply Z.leb_le | apply Z.ltb_lt]; reflexivity)
              ltac:(lia) ltac:(lia))
    as (mp & j & Ep & Hj & Rp & Hp).
  rewrite E1, E2, Eq, Ec, Ep.
  set (ep := - a - - b - 53 + k + -23 + j) in *.
  (* the real values *)
  set (rF := IZR frames). set (rR := IZR rate).
  set (rq := IZR q). set (rmq := IZR (Z.pos mq)). set (rmp := IZR (Z.pos mp)).
  set (u0 := pw (b - a - 53)).
  set (A := pw a). set (B := pw b). set (c53 := pw 53). set (h := pw (-23)).
  set (K := pw k). set (J := pw j). set (w := pw ep).
  assert (PF : (1 <= rF)%R) by (apply IZR_le; lia).
  assert (PR : (1 <= rR)%R) by (apply IZR_le; lia).
  assert (BF : (rF <= 4294967296)%R)
    by (apply IZR_le; change (2 ^ 32) with 4294967296 in HF; lia).
  assert (Bq : (4503599627370496 <= rmq)%R)
    by (apply IZR_le; change (2 ^ 52) with 4503599627370496 in Rq; lia).
  assert (Bp : (4503599627370496 <= rmp)%R)
    by (apply IZR_le; change (2 ^ 52) with 4503599627370496 in Rp; lia).
  assert (Pu0 : (0 < u0)%R) by apply pw_pos.
  assert (PA : (0 < A)%R) by apply pw_pos.
  assert (Pc53 : (0 < c53)%R) by apply pw_pos.
  assert (Ph : (0 < h)%R) by apply pw_pos.
  assert (Pw : (0 < w)%R) by apply pw_pos.
  assert (PK : (1 <= K)%R) by (apply pw_ge_1; lia).
  assert (PJ : (1 <= J)%R) by (apply pw_ge_1; lia).
  assert (Eu0 : (u0 * (A * c53) = B)%R).
  { unfold u0, A, B, c53. rewrite <- !pw_add. f_equal. lia. }
  assert (E23 : (8388608 * h = 1)%R).
  { unfold h. change 8388608%R with (IZR (2 ^ 23)). rewrite <- pw_IZR by lia.
    rewrite <- pw_add. reflexivity. }
  assert (Ew : (w = u0 * K * h * J)%R).
  { unfold w, u0, K, h, J, ep. rewrite <- !pw_add. f_equal. lia. }
  (* the facts on the integers, over the reals *)
  assert (Qa : (rq * (rR * (u0 * (A * c53))) <= rF * A * c53
                < (rq + 1) * (rR * (u0 * (A * c53))))%R).
  { destruct Hq as [Hq1 Hq2].
    apply IZR_le in Hq1. apply IZR_lt in Hq2.
    rewrite !mult_IZR in Hq1, Hq2. rewrite plus_IZR in Hq2.
    rewrite M1, M2, !mult_IZR in Hq1, Hq2.
    rewrite <- !pw_IZR in Hq1, Hq2 by lia.
    fold rF rR rq A B c53 in Hq1, Hq2. rewrite <- Eu0 in Hq1, Hq2.
    split; assumption. }
  assert (Qb : (rq - K < rmq * K <= rq + K)%R).
  { destruct Hqk as [H1 H2]. apply IZR_lt in H1. apply IZR_le in H2.
    rewrite minus_IZR in H1. rewrite plus_IZR in H2. rewrite !mult_IZR in H1, H2.
    rewrite <- !pw_IZR in H1, H2 by lia. split; assumption. }
  assert (Pa : (rmq * 8388608000000000 - J < rmp * J
                <= rmq * 8388608000000000 + J)%R).
  { destruct Hp as [H1 H2]. apply IZR_lt in H1. apply IZR_le in H2.
    rewrite minus_IZR in H1. rewrite plus_IZR in H2. rewrite !mult_IZR in H1, H2.
    rewrite <- !pw_IZR in H1, H2 by lia. split; assumption. }
  set (D := if 0 <=? ep then Z.pos mp * 2 ^ ep else Z.pos mp / 2 ^ (- ep)).
  assert (HD0 : 0 <= D).
  { unfold D. destruct (Z.leb_spec 0 ep) as [Hep|Hep].
    - assert (0 < 2 ^ ep) by (apply Z.pow_pos_nonneg; lia). nia.
    - apply Z.div_pos; [lia|]. apply Z.pow_pos_nonneg; lia. }
  set (rD := IZR D).
  assert (PD : (0 <= rD)%R) by (apply IZR_le; exact HD0).
  assert (HD : (rD <= rmp * w < rD + 1)%R).
  { unfold rD, D. destruct (Z.leb_spec 0 ep) as [Hep|Hep].
    - rewrite mult_IZR, <- pw_IZR by lia. fold rmp w. lra.
    - assert (Hn : 0 < 2 ^ (- ep)) by (apply Z.pow_pos_nonneg; lia).
      pose proof (Z.div_mod (Z.pos mp) (2 ^ (- ep)) ltac:(lia)) as Hdm.
      pose proof (Z.mod_pos_bound (Z.pos mp) (2 ^ (- ep)) Hn) as Hmod.
      set (d := Z.pos mp / 2 ^ (- ep)) in *.
      set (N := pw (- ep)).
      assert (PN : (0 < N)%R) by apply pw_pos.
      assert (H1 : (IZR d * N <= rmp)%R).
      { unfold N. rewrite pw_IZR by lia. rewrite <- mult_IZR. apply IZR_le. lia. }
      assert (H2 : (rmp < (IZR d + 1) * N)%R).
      { unfold N. rewrite pw_IZR by lia. rewrite <- plus_IZR, <- mult_IZR.
        apply IZR_lt. lia. }
      assert (EN : (N * w = 1)%R).
      { unfold N, w. rewrite <- pw_add. replace (- ep + ep) with 0 by lia. reflexivity. }
      clearbody N w rmp. set (z := IZR d) in *. clearbody z.
      clear - H1 H2 EN PN Pw.
      apply (Rmult_le_compat_r w) in H1; [|lra].
      apply (Rmult_lt_compat_r w) in H2; [|exact Pw].
      replace (z * N * w)%R with (z * (N * w))%R in H1 by ring.
      replace ((z + 1) * N * w)%R with ((z + 1) * (N * w))%R in H2 by ring.
      rewrite EN in H1, H2. lra. }
  (* the bound, over the reals *)
  assert (Hreal :
    (1125899906842624 * (rD * rR - rF * 1000000000)
       <= 1125899906842624 * rR + rF * 1000000000 /\
     1125899906842624 * (rF * 1000000000 - rD * rR)
       <= 1125899906842624 * rR + rF * 1000000000 /\
     rD < 9223372036854775808)%R).
  { clearbody rF rR rq rmq rmp u0 A B c53 h K J w rD.
    clear - PF PR BF Bq Bp Pu0 PA Pc53 Ph Pw PK PJ E23 Ew Qa Qb Pa PD HD.
    set (t := (u0 * rR)%R).
    assert (Pt : (0 < t)%R) by (unfold t; nra).
    assert (Qa' : (rq * t <= rF < (rq + 1) * t)%R).
    { assert (Pc : (0 < A * c53)%R) by (apply Rmult_lt_0_compat; assumption).
      unfold t. destruct Qa as [Q1 Q2]. split.
      - apply (Rmult_le_reg_r (A * c53)); [exact Pc|]. lra.
      - apply (Rmult_lt_reg_r (A * c53)); [exact Pc|]. lra. }
    set (U := (K * t)%R).
    set (VQ := (rmq * U)%R).
    assert (PU : (0 < U)%R) by (unfold U; nra).
    assert (tU : (t <= U)%R) by (unfold U; nra).
    assert (Qb' : (rq * t - U < VQ <= rq * t + U)%R).
    { destruct Qb as [H1 H2]. unfold VQ, U. split.
      - apply (Rmult_lt_compat_r t) in H1; [|exact Pt]. lra.
      - apply (Rmult_le_compat_r t) in H2; [|lra]. lra. }
    assert (Qc : (4503599627370496 * U <= VQ)%R) by (unfold VQ; nra).
    set (s := (U * h)%R).
    assert (Ps : (0 < s)%R) by (unfold s; apply Rmult_lt_0_compat; assumption).
    set (W := (J * s)%R).
    set (VP := (rmp * W)%R).
    assert (PW : (0 < W)%R) by (unfold W; nra).
    assert (Es : (rmq * 8388608000000000 * s = 1000000000 * VQ)%R).
    { unfold s, VQ.
      transitivity (1000000000 * (rmq * U) * (8388608 * h))%R; [ring|].
      rewrite E23. ring. }
    assert (Pa' : (1000000000 * VQ - W < VP <= 1000000000 * VQ + W)%R).
    { destruct Pa as [H1 H2]. unfold VP, W. split.
      - apply (Rmult_lt_compat_r s) in H1; [|exact Ps]. lra.
      - apply (Rmult_le_compat_r s) in H2; [|lra]. lra. }
    assert (Pb : (4503599627370496 * W <= VP)%R) by (unfold VP; nra).
    assert (EW : (w * rR = W)%R).
    { unfold W, s, U, t. rewrite Ew. ring. }
    assert (HD' : (rD * rR <= VP < rD * rR + rR)%R).
    { destruct HD as [H1 H2]. unfold VP. rewrite <- EW. split.
      - apply (Rmult_le_compat_r rR) in H1; [|lra]. lra.
      - apply (Rmult_lt_compat_r rR) in H2; [|lra]. lra. }
    assert (G : (1125899906842624 * (rD * rR - rF * 1000000000)
                   <= 1125899906842624 * rR + rF * 1000000000 /\
                 1125899906842624 * (rF * 1000000000 - rD * rR)
                   <= 1125899906842624 * rR + rF * 1000000000)%R).
    { clearbody VP W VQ U t s. clear - PF PR Pt PU tU Qa' Qb' Qc PW Pa' Pb HD'.
      split; lra. }
    destruct G as [G1 G2]. split; [exact G1|]. split; [exact G2|].
    assert (rD * 1 <= rD * rR)%R by (apply Rmult_le_compat_l; lra).
    lra. }
  destruct Hreal as (G1 & G2 & G3).
  assert (HDub : D < 2 ^ 63) by (apply lt_IZR; exact G3).
  exists D. split.
  - unfold float64.to_int64. fold D.
    assert (C1 : (- 2 ^ 63 <=? D) = true) by (apply Z.leb_le; change (2 ^ 63) with 9223372036854775808; lia).
    assert (C2 : (D <? 2 ^ 63) = true) by (apply Z.ltb_lt; exact HDub).
    rewrite C1, C2. reflexivity.
  - change (2 ^ 50) with 1125899906842624.
    assert (G1' : 1125899906842624 * (D * rate - frames * 1000000000)
                  <= 1125899906842624 * rate + frames * 1000000000).
    { apply le_IZR. rewrite !plus_IZR, !mult_IZR, !minus_IZR, !mult_IZR. exact G1. }
    assert (G2' : 1125899906842624 * (frames * 1000000000 - D * rate)
                  <= 1125899906842624 * rate + frames * 1000000000).
    { apply le_IZR. rewrite !plus_IZR, !mult_IZR, !minus_IZR, !mult_IZR. exact G2. }
    lia.
Qed.

(** C8 as stated fails: with 44100 frames and the sample rate still 0,
    [Duration] divides all the same and returns a nil error on every
    implementation, and with it the conversion of +Inf: the least [int64]
    on amd64, the greatest on arm64.  Neither an error nor a value defined
    by the program is returned. *)
Lemma Duration_zero_rate_unsignalled :
  ~ zero_rate_is_signalled decoder_without_comm.
Proof.
  unfold zero_rate_is_signalled. intro H.
  destruct (H eq_refl) as [He|[v Hv]].
  - apply (He float64.amd64). reflexivity.
  - pose proof (Hv float64.amd64) as H1. pose proof (Hv float64.arm64) as H2.
    vm_compute in H1, H2. congruence.
Qed.

(** C8, amended.  [Duration] returns 0 and an error for a nil decoder.  For
    any other decoder it returns a nil error and makes no test of the
    sample rate.  With the sample rate 0, the quotient is +Inf, or NaN when
    the frame count is 0 too, and the duration is what the implementation
    makes of the conversion of this value to [int64].  With a sample rate
    from 1 to 2^32 - 1, on every implementation, the duration in
    nanoseconds is within one nanosecond and a relative error of 2^-50 of
    the frame count divided by the sample rate. *)
Theorem Duration_contract (impl : spec_float -> Z) :
  Duration impl None = (0, Some ErrNilDecoder) /\
  (forall d : Decoder, snd (Duration impl (Some d)) = None) /\
  (forall d : Decoder,
     0 <= NumSampleFrames d < 2 ^ 32 -> SampleRate d = 0 ->
     fst (Duration impl (Some d))
       = impl (if NumSampleFrames d =? 0 then S754_nan else S754_infinity false)) /\
  (forall d : Decoder,
     0 <= NumSampleFrames d < 2 ^ 32 -> 0 < SampleRate d < 2 ^ 32 ->
     2 ^ 50 * Z.abs (fst (Duration impl (Some d)) * SampleRate d
                     - NumSampleFrames d * time_Second)
       <= 2 ^ 50 * SampleRate d + NumSampleFrames d * time_Second).
Proof.
  split; [reflexivity|]. split; [intro d; reflexivity|]. split.
  - intros d HF HR. unfold Duration. cbn [fst]. rewrite HR.
    destruct (Z.eqb_spec (NumSampleFrames d) 0) as [E|NE].
    + rewrite E. reflexivity.
    + destruct (of_int_exact (NumSampleFrames d)
                  ltac:(change (2 ^ 53) with (2 ^ 32 * 2 ^ 21); lia))
        as (m & a & E & _).
      rewrite E. reflexivity.
  - intros d HF HR. unfold Duration, time_Second. cbn [fst].
    destruct (Z.eq_dec (NumSampleFrames d) 0) as [E|NE].
    + rewrite E.
      destruct (of_int_exact (SampleRate d)
                  ltac:(change (2 ^ 53) with (2 ^ 32 * 2 ^ 21); lia))
        as (m & a & Er & _).
      rewrite Er.
      match goal with
      | |- context [float64.to_int64 ?i ?f] => change (float64.to_int64 i f) with 0
      end.
      lia.
    + destruct (float_duration_close impl (NumSampleFrames d) (SampleRate d)
                  ltac:(lia) HR) as (D & ED & HD).
      rewrite ED. exact HD.
Qed.

Lemma Duration_contract_witness :
  2 ^ 50 * Z.abs (fst (Duration float64.amd64 (Some decoder_one_second)) * 44100
                  - 44100 * time_Second)
    <= 2 ^ 50 * 44100 + 44100 * time_Second.
Proof.
  apply (proj2 (proj2 (proj2 (Duration_contract float64.amd64))) decoder_one_second).
  - cbn. lia.
  - cbn. lia.
Defined.

(** * Further properties *)

(** ** Bit fields as sums *)

Lemma lor_mul_pow2_add (a b k : Z) :
  0 <= k -> 0 <= b < 2 ^ k -> Z.lor (a * 2 ^ k) b = a * 2 ^ k + b.
Proof.
  intros Hk Hb.
  assert (L : Z.land (a * 2 ^ k) b = 0).
  { apply Z.bits_inj'. intros n Hn. rewrite Z.land_spec, Z.bits_0.
    destruct (Z_lt_le_dec n k) as [Hlt|Hge].
    - rewrite Z.mul_pow2_bits_low by lia. reflexivity.
    - destruct (Z.eq_dec b 0) as [->|Hb0].
      + rewrite Z.bits_0. apply andb_false_r.
      + rewrite (Z.bits_above_log2 b n); [apply andb_false_r | lia |].
        apply Z.lt_le_trans with k; [|exact Hge].
        apply Z.log2_lt_pow2; lia. }
  rewrite (Z.add_nocarry_lxor _ _ L). symmetry. apply Z.lxor_lor. exact L.
Qed.

Lemma lor_shiftl_8 (acc : Z) (b : byte) :
  Z.lor (Z.shiftl acc 8) (u8 b) = acc * 256 + u8 b.
Proof.
  rewrite Z.shiftl_mul_pow2 by lia. change 256 with (2 ^ 8).
  apply lor_mul_pow2_add; [lia|]. pose proof (u8_range b). change (2 ^ 8) with 256. lia.
Qed.

Lemma BigEndian_cons_acc (bs : list byte) (acc : Z) :
  fold_left (fun a b => Z.lor (Z.shiftl a 8) (u8 b)) bs acc
  = acc * 2 ^ (8 * Z.of_nat (List.length bs)) + BigEndian bs.
Proof.
  unfold BigEndian. revert acc. induction bs as [|b bs IH]; intro acc.
  - cbn. lia.
  - cbn [fold_left]. rewrite IH. rewrite (IH (Z.lor (Z.shiftl 0 8) (u8 b))).
    rewrite !lor_shiftl_8.
    replace (8 * Z.of_nat (List.length (b :: bs)))
      with (8 + 8 * Z.of_nat (List.length bs)) by (cbn [List.length]; lia).
    rewrite Z.pow_add_r by lia. change (2 ^ 8) with 256. ring.
Qed.

(** A big-endian integer of [n] bytes is below 2^(8n). *)
Lemma BigEndian_range (bs : list byte) :
  0 <= BigEndian bs < 2 ^ (8 * Z.of_nat (List.length bs)).
Proof.
  induction bs as [|b bs IH].
  - cbn. lia.
  - unfold BigEndian. cbn [fold_left]. rewrite BigEndian_cons_acc, lor_shiftl_8.
    pose proof (u8_range b) as Hb.
    replace (8 * Z.of_nat (List.length (b :: bs)))
      with (8 + 8 * Z.of_nat (List.length bs)) by (cbn [List.length]; lia).
    rewrite Z.pow_add_r by lia. change (2 ^ 8) with 256.
    set (P := 2 ^ (8 * Z.of_nat (List.length bs))) in *.
    assert (0 < P) by (apply Z.pow_pos_nonneg; lia). nia.
Qed.

Lemma BigEndian_cons (b : byte) (bs : list byte) :
  BigEndian (b :: bs) = u8 b * 2 ^ (8 * Z.of_nat (List.length bs)) + BigEndian bs.
Proof.
  unfold BigEndian at 1. cbn [fold_left]. rewrite BigEndian_cons_acc, lor_shiftl_8.
  reflexivity.
Qed.

(** ** [IeeeFloatToInt]: the value decoded *)

(** The case analysis of the function, on the bytes as numbers. *)
Lemma IeeeFloatToInt_cases (b : Bytes10) :
  audio.IeeeFloatToInt b =
    if u8 (t0 b) <=? 0x3F then 1
    else if u8 (t0 b) >? 0x40 then 67108864
    else if u8 (t1 b) >? 0x1C then 800000000
    else mantissa b / 2 ^ (29 - u8 (t1 b)).
Proof.
  unfold audio.IeeeFloatToInt, audio.IeeeFloatToInt_at.
  destruct (Z.eqb_spec (Z.land (u8 (t0 b)) 0x80) 1) as [E|_];
    [exfalso; exact (land_0x80_not_1 _ E)|].
  destruct (u8 (t0 b) <=? 0x3F) eqn:E1; [reflexivity|].
  destruct (u8 (t0 b) >? 0x40) eqn:E2; [reflexivity|].
  assert (E0 : (u8 (t0 b) =? 0x40) = true) by (apply Z.eqb_eq; lia).
  rewrite E0. cbn [andb].
  destruct (u8 (t1 b) >? 0x1C) eqn:E3; [reflexivity|].
  cbn [snd].
  destruct (shiftl_u8_small (t2 b) 23) as [-> _]; [lia|].
  destruct (shiftl_u8_small (t3 b) 15) as [-> _]; [lia|].
  destruct (shiftl_u8_small (t4 b) 7) as [-> _]; [lia|].
  pose proof (u8_range (t1 b)).
  unfold uint32. rewrite Z.mod_small by (change (2 ^ 32) with 4294967296; lia).
  rewrite (Z.shiftr_div_pow2 (u8 (t5 b)) 1) by lia. change (2 ^ 1) with 2.
  rewrite Z.shiftr_div_pow2 by lia. reflexivity.
Qed.

(** The mantissa the function composes is the upper 31 of the 64 bits. *)
Lemma mantissa_is_top (b : Bytes10) : mantissa b = mantissa64 b / 2 ^ 33.
Proof.
  pose proof (u8_range (t2 b)) as H2. pose proof (u8_range (t3 b)) as H3.
  pose proof (u8_range (t4 b)) as H4. pose proof (u8_range (t5 b)) as H5.
  assert (E : mantissa b
              = u8 (t2 b) * 2 ^ 23 + u8 (t3 b) * 2 ^ 15 + u8 (t4 b) * 2 ^ 7
                + u8 (t5 b) / 2).
  { unfold mantissa.
    replace (u8 (t2 b) * 2 ^ 23) with (u8 (t2 b) * 2 ^ 8 * 2 ^ 15) by
      (change (2 ^ 23) with (2 ^ 8 * 2 ^ 15); ring).
    replace (u8 (t3 b) * 2 ^ 15) with (0 * 2 ^ 15 + u8 (t3 b) * 2 ^ 15) at 1 by ring.
    assert (A1 : Z.lor (u8 (t2 b) * 2 ^ 8 * 2 ^ 15) (0 * 2 ^ 15 + u8 (t3 b) * 2 ^ 15)
                 = (u8 (t2 b) * 2 ^ 8 + u8 (t3 b)) * 2 ^ 15).
    { replace (0 * 2 ^ 15 + u8 (t3 b) * 2 ^ 15) with (Z.shiftl (u8 (t3 b)) 15)
        by (rewrite Z.shiftl_mul_pow2 by lia; ring).
      replace (u8 (t2 b) * 2 ^ 8 * 2 ^ 15) with (Z.shiftl (u8 (t2 b) * 2 ^ 8) 15)
        by (rewrite Z.shiftl_mul_pow2 by lia; ring).
      rewrite <- Z.shiftl_lor, Z.shiftl_mul_pow2 by lia. f_equal.
      apply lor_mul_pow2_add; [lia|]. change (2 ^ 8) with 256. lia. }
    rewrite A1.
    replace ((u8 (t2 b) * 2 ^ 8 + u8 (t3 b)) * 2 ^ 15)
      with ((u8 (t2 b) * 2 ^ 8 + u8 (t3 b)) * 2 ^ 8 * 2 ^ 7)
      by (change (2 ^ 15) with (2 ^ 8 * 2 ^ 7); ring).
    assert (A2 : Z.lor ((u8 (t2 b) * 2 ^ 8 + u8 (t3 b)) * 2 ^ 8 * 2 ^ 7)
                       (u8 (t4 b) * 2 ^ 7)
                 = ((u8 (t2 b) * 2 ^ 8 + u8 (t3 b)) * 2 ^ 8 + u8 (t4 b)) * 2 ^ 7).
    { replace (u8 (t4 b) * 2 ^ 7) with (Z.shiftl (u8 (t4 b)) 7)
        by (rewrite Z.shiftl_mul_pow2 by lia; ring).
      replace ((u8 (t2 b) * 2 ^ 8 + u8 (t3 b)) * 2 ^ 8 * 2 ^ 7)
        with (Z.shiftl ((u8 (t2 b) * 2 ^ 8 + u8 (t3 b)) * 2 ^ 8) 7)
        by (rewrite Z.shiftl_mul_pow2 by lia; ring).
      rewrite <- Z.shiftl_lor, Z.shiftl_mul_pow2 by lia. f_equal.
      apply lor_mul_pow2_add; [lia|]. change (2 ^ 8) with 256. lia. }
    rewrite A2.
    rewrite lor_mul_pow2_add; [|lia|].
    - change (2 ^ 8) with 256. change (2 ^ 23) with 8388608.
      change (2 ^ 15) with 32768. change (2 ^ 7) with 128. ring.
    - change (2 ^ 7) with 128. split; [apply Z.div_pos; lia|].
      apply Z.div_lt_upper_bound; lia. }
  rewrite E. unfold mantissa64.
  rewrite !BigEndian_cons. cbn [List.length BigEndian fold_left].
  pose proof (u8_range (t6 b)) as H6. pose proof (u8_range (t7 b)) as H7.
  pose proof (u8_range (t8 b)) as H8. pose proof (u8_range (t9 b)) as H9.
  cbn [Z.of_nat Pos.of_succ_nat Pos.succ Z.mul Pos.mul].
  change (2 ^ 56) with 72057594037927936. change (2 ^ 48) with 281474976710656.
  change (2 ^ 40) with 1099511627776. change (2 ^ 32) with 4294967296.
  change (2 ^ 24) with 16777216. change (2 ^ 16) with 65536.
  change (2 ^ 8) with 256. change (2 ^ 0) with 1.
  change (2 ^ 33) with 8589934592. change (2 ^ 23) with 8388608.
  change (2 ^ 15) with 32768. change (2 ^ 7) with 128.
  Z.div_mod_to_equations. lia.
Qed.

Lemma mantissa64_range (b : Bytes10) : 0 <= mantissa64 b < 2 ^ 64.
Proof. apply (BigEndian_range [t2 b; t3 b; t4 b; t5 b; t6 b; t7 b; t8 b; t9 b]). Qed.

Lemma IeeeFloatToInt_mantissa_branch (b : Bytes10) :
  u8 (t0 b) = 0x40 -> u8 (t1 b) <= 0x1C ->
  audio.IeeeFloatToInt b = mantissa64 b / 2 ^ (62 - u8 (t1 b)).
Proof.
  intros H0 H1. rewrite IeeeFloatToInt_cases, H0.
  change (64 <=? 63) with false. change (64 >? 64) with false. cbn match.
  pose proof (u8_range (t1 b)) as R1.
  destruct (u8 (t1 b) >? 28) eqn:E; [lia|].
  rewrite mantissa_is_top.
  assert (0 < 2 ^ (29 - u8 (t1 b))) by (apply Z.pow_pos_nonneg; lia).
  rewrite Z.div_div by lia. rewrite <- Z.pow_add_r by lia.
  do 2 f_equal. lia.
Qed.

(** X1.  With byte 0 equal to 0x40 and byte 1 at most 0x1C, the result is
    the 64-bit mantissa of bytes 2 to 9 divided by 2^(62 - byte 1), rounded
    down: the integer part of the extended float, whose value is the
    mantissa times 2^(exponent - 16383 - 63) with the exponent
    0x4000 + byte 1. *)
Theorem IeeeFloatToInt_integer_part (b : Bytes10) :
  u8 (t0 b) = 0x40 -> u8 (t1 b) <= 0x1C ->
  audio.IeeeFloatToInt b = mantissa64 b / 2 ^ (62 - u8 (t1 b)) /\
  audio.IeeeFloatToInt b * 2 ^ (62 - u8 (t1 b)) <= mantissa64 b
    < (audio.IeeeFloatToInt b + 1) * 2 ^ (62 - u8 (t1 b)).
Proof.
  intros H0 H1. pose proof (u8_range (t1 b)) as R1.
  rewrite (IeeeFloatToInt_mantissa_branch b H0 H1).
  split; [reflexivity|].
  assert (Hp : 0 < 2 ^ (62 - u8 (t1 b))) by (apply Z.pow_pos_nonneg; lia).
  pose proof (Z.div_mod (mantissa64 b) (2 ^ (62 - u8 (t1 b))) ltac:(lia)) as Hdm.
  pose proof (Z.mod_pos_bound (mantissa64 b) _ Hp) as Hmod.
  set (q := mantissa64 b / 2 ^ (62 - u8 (t1 b))) in *.
  set (P := 2 ^ (62 - u8 (t1 b))) in *. lia.
Qed.

Lemma IeeeFloatToInt_integer_part_witness :
  audio.IeeeFloatToInt rate_44100 = mantissa64 rate_44100 / 2 ^ (62 - 14).
Proof.
  apply (proj1 (IeeeFloatToInt_integer_part rate_44100 eq_refl
                  ltac:(cbn; lia))).
Defined.

(** X2.  The result is 0 exactly when byte 0 is 0x40, byte 1 is at most
    0x1C and the mantissa is below 2^(62 - byte 1), that is when the value
    of the float is below 1.  Every other input gives a positive result. *)
Theorem IeeeFloatToInt_zero_iff (b : Bytes10) :
  (audio.IeeeFloatToInt b = 0 <->
   u8 (t0 b) = 0x40 /\ u8 (t1 b) <= 0x1C /\ mantissa64 b < 2 ^ (62 - u8 (t1 b))) /\
  0 <= audio.IeeeFloatToInt b.
Proof.
  pose proof (u8_range (t0 b)) as R0. pose proof (u8_range (t1 b)) as R1.
  pose proof (mantissa64_range b) as RM.
  destruct (Z.eq_dec (u8 (t0 b)) 0x40) as [E0|N0].
  - destruct (Z_le_gt_dec (u8 (t1 b)) 0x1C) as [L1|G1].
    + rewrite (IeeeFloatToInt_mantissa_branch b E0 L1).
      assert (Hp : 0 < 2 ^ (62 - u8 (t1 b))) by (apply Z.pow_pos_nonneg; lia).
      split; [|apply Z.div_pos; lia]. split.
      * intro H. split; [exact E0|]. split; [exact L1|].
        apply Z.div_small_iff in H; lia.
      * intros (_ & _ & H). apply Z.div_small. lia.
    + rewrite IeeeFloatToInt_cases, E0.
      change (64 <=? 63) with false. change (64 >? 64) with false. cbn match.
      destruct (u8 (t1 b) >? 28) eqn:E; [|lia].
      split; [|lia]. split; [discriminate|]. intros (_ & H & _). lia.
  - rewrite IeeeFloatToInt_cases.
    destruct (u8 (t0 b) <=? 63) eqn:E1.
    + split; [|lia]. split; [discriminate|]. intros (H & _). contradiction.
    + destruct (u8 (t0 b) >? 64) eqn:E2; [|lia].
      split; [|lia]. split; [discriminate|]. intros (H & _). contradiction.
Qed.

(** X3.  For a normalised float, the leading bit of the mantissa set, with
    byte 0 equal to 0x40 and byte 1 at most 0x1C, the result lies between
    2^(byte 1 + 1) and 2^(byte 1 + 2): it is at least 2, never 0. *)
Theorem IeeeFloatToInt_normalised (b : Bytes10) :
  u8 (t0 b) = 0x40 -> u8 (t1 b) <= 0x1C -> 0x80 <= u8 (t2 b) ->
  2 ^ (u8 (t1 b) + 1) <= audio.IeeeFloatToInt b < 2 ^ (u8 (t1 b) + 2).
Proof.
  intros H0 H1 H2. pose proof (u8_range (t1 b)) as R1.
  pose proof (u8_range (t2 b)) as R2.
  rewrite (IeeeFloatToInt_mantissa_branch b H0 H1).
  pose proof (mantissa64_range b) as RM.
  assert (Hlo : 2 ^ 63 <= mantissa64 b).
  { unfold mantissa64. rewrite BigEndian_cons.
    pose proof (BigEndian_range [t3 b; t4 b; t5 b; t6 b; t7 b; t8 b; t9 b]) as R.
    cbn [List.length] in *. change (8 * Z.of_nat 7) with 56 in *.
    change (2 ^ 63) with (128 * 2 ^ 56). nia. }
  assert (Hp : 0 < 2 ^ (62 - u8 (t1 b))) by (apply Z.pow_pos_nonneg; lia).
  split.
  - apply Z.div_le_lower_bound; [lia|].
    rewrite <- Z.pow_add_r by lia.
    replace (62 - u8 (t1 b) + (u8 (t1 b) + 1)) with 63 by lia. exact Hlo.
  - apply Z.div_lt_upper_bound; [lia|].
    rewrite <- Z.pow_add_r by lia.
    replace (62 - u8 (t1 b) + (u8 (t1 b) + 2)) with 64 by lia. lia.
Qed.

Lemma IeeeFloatToInt_normalised_witness :
  2 ^ (14 + 1) <= audio.IeeeFloatToInt rate_44100 < 2 ^ (14 + 2).
Proof.
  apply (IeeeFloatToInt_normalised rate_44100 eq_refl); cbn; lia.
Defined.

Lemma IeeeFloatToInt_bound (b : Bytes10) :
  0 <= audio.IeeeFloatToInt b < 2 ^ 30.
Proof.
  rewrite IeeeFloatToInt_cases. change (2 ^ 30) with 1073741824.
  destruct (u8 (t0 b) <=? 63); [lia|].
  destruct (u8 (t0 b) >? 64); [lia|].
  destruct (u8 (t1 b) >? 28) eqn:E; [lia|].
  pose proof (u8_range (t1 b)). pose proof (mantissa_range b) as Hm.
  assert (Hp : 2 <= 2 ^ (29 - u8 (t1 b))).
  { change 2 with (2 ^ 1) at 1. apply Z.pow_le_mono_r; lia. }
  split; [apply Z.div_pos; lia|].
  apply Z.div_lt_upper_bound; [lia|].
  change (2 ^ 31) with 2147483648 in Hm. nia.
Qed.

(** X4.  Whatever the ten bytes, the result is at least 0 and below 2^30: it
    fits an [int] of 32 bits as well, so that the conversion [int(i)] which
    ends the function changes nothing on any platform. *)
Theorem IeeeFloatToInt_below_2_30 (b : Bytes10) :
  0 <= audio.IeeeFloatToInt b < 2 ^ 30.
Proof. exact (IeeeFloatToInt_bound b). Qed.

(** ** Encoding and decoding integers *)

Lemma u8_byte_of_Z (z : Z) : u8 (byte_of_Z z) = z mod 256.
Proof.
  unfold byte_of_Z, u8.
  pose proof (Z.mod_pos_bound z 256 ltac:(lia)) as Hm.
  destruct (Byte.of_N (Z.to_N (z mod 256))) as [b|] eqn:E.
  - apply Byte.to_of_N in E. rewrite E. lia.
  - apply Byte.of_N_None_iff in E. lia.
Qed.

Lemma BigEndian_be16 (n : Z) : 0 <= n < 2 ^ 16 -> BigEndian (be16 n) = n.
Proof.
  intro H. unfold be16. rewrite !BigEndian_cons. cbn [List.length BigEndian fold_left].
  rewrite !u8_byte_of_Z.
  change (8 * Z.of_nat 1) with 8. change (8 * Z.of_nat 0) with 0.
  change (2 ^ 16) with 65536 in H. change (2 ^ 8) with 256. change (2 ^ 0) with 1.
  Z.div_mod_to_equations. lia.
Qed.

Lemma BigEndian_be32 (n : Z) : 0 <= n < 2 ^ 32 -> BigEndian (be32 n) = n.
Proof.
  intro H. unfold be32. rewrite !BigEndian_cons. cbn [List.length BigEndian fold_left].
  rewrite !u8_byte_of_Z.
  change (8 * Z.of_nat 3) with 24. change (8 * Z.of_nat 2) with 16.
  change (8 * Z.of_nat 1) with 8. change (8 * Z.of_nat 0) with 0.
  change (2 ^ 32) with 4294967296 in H.
  change (2 ^ 24) with 16777216. change (2 ^ 16) with 65536.
  change (2 ^ 8) with 256. change (2 ^ 0) with 1.
  Z.div_mod_to_equations. lia.
Qed.

Lemma Bytes10_of_to_list (b : Bytes10) (rest : list byte) :
  Bytes10_of_list (firstn 10 (Bytes10_to_list b ++ rest)) = b.
Proof. destruct b. reflexivity. Qed.

(** ** The reader: more helper lemmas *)

Lemma unread_advance_all (rd : Reader) :
  0 <= cur rd -> unread (advance (Z.of_nat (List.length (unread rd))) rd) = [].
Proof.
  intro H. rewrite unread_advance by exact H. apply skipn_all.
Qed.

Lemma ReadFull_length (n : nat) (rd rd' : Reader) (bs : list byte) :
  ReadFull n rd = (rd', inl bs) -> List.length bs = n.
Proof.
  unfold ReadFull. destruct n; [intros [= _ <-]; reflexivity|].
  destruct (unread rd) as [|x rest] eqn:E; [discriminate|].
  destruct (Nat.ltb_spec (List.length (x :: rest)) (S n)); [discriminate|].
  intros [= _ <-]. cbn [List.length] in *. f_equal. apply firstn_length_le. lia.
Qed.

Lemma ReadFull_bounds (n : nat) (rd : Reader) :
  0 <= cur rd <= Z.of_nat (List.length (buf rd)) ->
  0 <= cur (fst (ReadFull n rd)) <= Z.of_nat (List.length (buf (fst (ReadFull n rd)))).
Proof.
  intro H.
  assert (L : Z.of_nat (List.length (unread rd))
              = Z.of_nat (List.length (buf rd)) - cur rd).
  { unfold unread. rewrite length_skipn. lia. }
  unfold ReadFull. destruct n; [exact H|].
  destruct (unread rd) as [|x rest] eqn:E; [exact H|].
  destruct (Nat.ltb_spec (List.length (x :: rest)) (S n)); cbn [fst advance buf cur]; lia.
Qed.

(** ** [jumpTo] *)

(** X5.  [jumpTo] changes nothing of the decoder but the cursor of its
    reader.  A count of 0 or less leaves the decoder as it is.  A positive
    count within the bytes left moves the cursor forward by this count.  A
    count beyond the bytes left moves the cursor to the end of the stream and
    gives [io.EOF]. *)
Theorem jumpTo_skips (n : Z) (d : Decoder) :
  0 <= cur (r d) ->
  let avail := Z.of_nat (List.length (unread (r d))) in
  (n <= 0 -> jumpTo n d = (d, None)) /\
  (0 < n <= avail ->
     jumpTo n d = (with_r (advance n (r d)) d, None) /\
     unread (r (fst (jumpTo n d))) = skipn (Z.to_nat n) (unread (r d))) /\
  (avail < n -> 0 < n ->
     jumpTo n d = (with_r (advance avail (r d)) d, Some EOF) /\
     unread (r (fst (jumpTo n d))) = []).
Proof.
  intros Hc. cbn zeta. unfold jumpTo, CopyN_Discard. split; [|split].
  - intro Hn. destruct (Z.gtb_spec n 0); [lia|reflexivity].
  - intros [Hn Ha]. destruct (Z.gtb_spec n 0); [|lia].
    destruct (Z.leb_spec n 0); [lia|].
    destruct (Z.leb_spec n (Z.of_nat (List.length (unread (r d))))); [|lia].
    split; [reflexivity|]. simpl_dec.
    replace n with (Z.of_nat (Z.to_nat n)) at 1 by lia.
    apply unread_advance. exact Hc.
  - intros Ha Hn. destruct (Z.gtb_spec n 0); [|lia].
    destruct (Z.leb_spec n 0); [lia|].
    destruct (Z.leb_spec n (Z.of_nat (List.length (unread (r d))))); [lia|].
    split; [reflexivity|]. simpl_dec. apply unread_advance_all. exact Hc.
Qed.

Lemma jumpTo_skips_witness :
  jumpTo 4 (NewDecoder (NewReader (list_byte_of_string "COMMSSND")) None)
  = (with_r (advance 4 (NewReader (list_byte_of_string "COMMSSND")))
       (NewDecoder (NewReader (list_byte_of_string "COMMSSND")) None), None).
Proof.
  apply (proj2 (jumpTo_skips 4
           (NewDecoder (NewReader (list_byte_of_string "COMMSSND")) None)
           ltac:(cbn; lia))).
  cbn. lia.
Defined.

(** ** The chunk-header reader: all cases *)

Lemma iDnSize_full (d : Decoder) :
  0 <= cur (r d) -> (8 <= List.length (unread (r d)))%nat ->
  iDnSize d = (with_r (advance 8 (r d)) d,
               (Bytes4_of_list (firstn 4 (unread (r d))),
                BigEndian (firstn 4 (skipn 4 (unread (r d)))), None)).
Proof.
  intros Hc Hl. set (u := unread (r d)) in *.
  assert (E1 : ReadFull 4 (r d) = (advance (Z.of_nat 4) (r d), inl (firstn 4 u))).
  { apply ReadFull_ok. fold u. lia. }
  assert (U1 : unread (advance (Z.of_nat 4) (r d)) = skipn 4 u).
  { apply unread_advance; assumption. }
  assert (E2 : ReadFull 4 (advance (Z.of_nat 4) (r d))
               = (advance (Z.of_nat 4) (advance (Z.of_nat 4) (r d)),
                  inl (firstn 4 (skipn 4 u)))).
  { rewrite <- U1. apply ReadFull_ok. rewrite U1, length_skipn. lia. }
  unfold iDnSize. rewrite E1. simpl_dec. rewrite E2.
  rewrite err_eqb_refl. cbn [negb]. simpl_dec.
  rewrite advance_advance. reflexivity.
Qed.

(** X6.  With at least 8 bytes left, the chunk-header reader returns the
    first 4 bytes as the identifier, the next 4 as a big-endian size from 0
    to 2^32 - 1 and a nil error, and leaves the decoder as it was but for
    the cursor, 8 bytes further. *)
Theorem iDnSize_reads_header (d : Decoder) :
  0 <= cur (r d) -> (8 <= List.length (unread (r d)))%nat ->
  iDnSize d = (with_r (advance 8 (r d)) d,
               (Bytes4_of_list (firstn 4 (unread (r d))),
                BigEndian (firstn 4 (skipn 4 (unread (r d)))), None)) /\
  0 <= snd (fst (snd (iDnSize d))) < 2 ^ 32 /\
  unread (r (fst (iDnSize d))) = skipn 8 (unread (r d)).
Proof.
  intros Hc Hl. rewrite (iDnSize_full d Hc Hl). split; [reflexivity|]. split.
  - cbn [fst snd].
    pose proof (BigEndian_range (firstn 4 (skipn 4 (unread (r d))))) as R.
    rewrite firstn_length_le in R by (rewrite length_skipn; lia). exact R.
  - simpl_dec. apply (unread_advance (r d) 8 Hc).
Qed.

Lemma iDnSize_reads_header_witness :
  snd (iDnSize (NewDecoder (NewReader (chunk "COMM" [])) None)) = (commID, 0, None).
Proof.
  rewrite (proj1 (iDnSize_reads_header
             (NewDecoder (NewReader (chunk "COMM" [])) None)
             ltac:(cbn; lia) ltac:(cbn; lia))).
  reflexivity.
Defined.

(** X7.  With fewer than 4 bytes left, the chunk-header reader returns the
    zero identifier, the size 0 and an error, [io.EOF] when no byte is left
    and [io.ErrUnexpectedEOF] otherwise, and the stream is at its end. *)
Theorem iDnSize_at_end (d : Decoder) :
  0 <= cur (r d) -> (List.length (unread (r d)) < 4)%nat ->
  snd (iDnSize d)
    = (zero4, 0,
       Some (if (List.length (unread (r d)) =? 0)%nat then EOF else ErrUnexpectedEOF)) /\
  unread (r (fst (iDnSize d))) = [].
Proof.
  intros Hc Hl. unfold iDnSize.
  destruct (Nat.eqb_spec (List.length (unread (r d))) 0) as [E|NE].
  - apply length_zero_iff_nil in E.
    rewrite (ReadFull_eof 4 (r d) ltac:(lia) E). simpl_dec.
    split; [reflexivity|]. destruct d. exact E.
  - rewrite (ReadFull_short 4 (r d) ltac:(lia)). simpl_dec.
    split; [reflexivity|]. apply unread_advance_all. exact Hc.
Qed.

Lemma iDnSize_at_end_witness :
  snd (iDnSize (NewDecoder (NewReader [x43; x4f]) None))
    = (zero4, 0, Some ErrUnexpectedEOF).
Proof.
  apply (proj1 (iDnSize_at_end (NewDecoder (NewReader [x43; x4f]) None)
                  ltac:(cbn; lia) ltac:(cbn; lia))).
Defined.

(** X8.  Reading a chunk header and skipping the size it announces pass
    over one chunk: on a stream that holds a 4-byte identifier, the length
    of a payload in 4 bytes, this payload and further bytes, the two calls
    return no error and leave the stream at the further bytes. *)
Theorem iDnSize_then_jumpTo (d : Decoder) (id payload rest : list byte) :
  0 <= cur (r d) ->
  List.length id = 4%nat ->
  Z.of_nat (List.length payload) < 2 ^ 32 ->
  unread (r d) = id ++ be32 (Z.of_nat (List.length payload)) ++ payload ++ rest ->
  let '(d1, (cid, sz, e1)) := iDnSize d in
  let '(d2, e2) := jumpTo sz d1 in
  cid = Bytes4_of_list id /\ sz = Z.of_nat (List.length payload) /\
  e1 = None /\ e2 = None /\ unread (r d2) = rest.
Proof.
  intros Hc Hid Hp Hu.
  assert (Hl : (8 <= List.length (unread (r d)))%nat).
  { rewrite Hu, !length_app. cbn [List.length be32]. lia. }
  rewrite (iDnSize_full d Hc Hl).
  assert (F1 : firstn 4 (unread (r d)) = id).
  { rewrite Hu, <- Hid, firstn_app, Nat.sub_diag, firstn_all. cbn [firstn].
    apply app_nil_r. }
  assert (S4 : skipn 4 (unread (r d))
               = be32 (Z.of_nat (List.length payload)) ++ payload ++ rest).
  { rewrite Hu, <- Hid, skipn_app, Nat.sub_diag, skipn_all. reflexivity. }
  assert (F2 : BigEndian (firstn 4 (skipn 4 (unread (r d))))
               = Z.of_nat (List.length payload)).
  { rewrite S4.
    replace (firstn 4 (be32 (Z.of_nat (List.length payload)) ++ payload ++ rest))
      with (be32 (Z.of_nat (List.length payload))) by reflexivity.
    apply BigEndian_be32. lia. }
  rewrite F1, F2.
  assert (U8 : unread (advance 8 (r d)) = payload ++ rest).
  { change (advance 8 (r d)) with (advance (Z.of_nat 8) (r d)).
    rewrite (unread_advance (r d) 8 Hc).
    change 8%nat with (4 + 4)%nat. rewrite <- skipn_skipn, S4. reflexivity. }
  unfold jumpTo, CopyN_Discard. simpl_dec. rewrite U8.
  destruct (Z.gtb_spec (Z.of_nat (List.length payload)) 0) as [Hpos|Hz].
  - destruct (Z.leb_spec (Z.of_nat (List.length payload)) 0); [lia|].
    rewrite length_app.
    destruct (Z.leb_spec (Z.of_nat (List.length payload))
                (Z.of_nat (List.length payload + List.length rest))); [|lia].
    simpl_dec. repeat split.
    rewrite unread_advance by (cbn; lia). rewrite U8.
    rewrite skipn_app, Nat.sub_diag, skipn_all. reflexivity.
  - simpl_dec. repeat split. rewrite U8.
    assert (payload = []) by (apply length_zero_iff_nil; lia). subst. reflexivity.
Qed.

Lemma iDnSize_then_jumpTo_witness :
  let '(d1, (cid, sz, e1)) :=
    iDnSize (NewDecoder (NewReader (chunk "ANNO" [x41; x42] ++ [x43])) None) in
  let '(d2, e2) := jumpTo sz d1 in
  cid = Bytes4_of_list (list_byte_of_string "ANNO") /\ sz = 2 /\
  e1 = None /\ e2 = None /\ unread (r d2) = [x43].
Proof.
  apply (iDnSize_then_jumpTo
           (NewDecoder (NewReader (chunk "ANNO" [x41; x42] ++ [x43])) None)
           (list_byte_of_string "ANNO") [x41; x42] [x43]).
  - cbn. lia.
  - reflexivity.
  - cbn. lia.
  - reflexivity.
Defined.

(** ** One field read *)

Lemma binary_Read_ok (n : nat) (wrap : error -> error)
    (store : list byte -> Decoder -> Decoder) (d : Decoder) :
  (0 < n <= List.length (unread (r d)))%nat ->
  binary_Read n wrap store d
  = (store (firstn n (unread (r d))) (with_r (advance (Z.of_nat n) (r d)) d), None).
Proof.
  intro H. unfold binary_Read. rewrite (ReadFull_ok n (r d) H). reflexivity.
Qed.

Lemma binary_Read_fail (n : nat) (wrap : error -> error)
    (store : list byte -> Decoder -> Decoder) (d : Decoder) :
  (List.length (unread (r d)) < n)%nat ->
  binary_Read n wrap store d
  = (with_r (advance (Z.of_nat (List.length (unread (r d)))) (r d)) d,
     Some (wrap (short_read (List.length (unread (r d)))))).
Proof.
  intro H. unfold binary_Read, short_read.
  destruct (Nat.eqb_spec (List.length (unread (r d))) 0) as [E|NE].
  - rewrite E. apply length_zero_iff_nil in E.
    rewrite (ReadFull_eof n (r d) ltac:(lia) E).
    f_equal. f_equal. unfold advance. destruct (r d) as [b c]. cbn. f_equal. lia.
  - rewrite (ReadFull_short n (r d) ltac:(lia)). reflexivity.
Qed.

Lemma unread_after (d : Decoder) (n : nat) :
  0 <= cur (r d) ->
  unread (advance (Z.of_nat n) (r d)) = skipn n (unread (r d)) /\
  0 <= cur (advance (Z.of_nat n) (r d)) /\
  List.length (unread (advance (Z.of_nat n) (r d)))
    = (List.length (unread (r d)) - n)%nat.
Proof.
  intro H. rewrite unread_advance by exact H. split; [reflexivity|].
  split; [apply advance_cur_nonneg; exact H | apply length_skipn].
Qed.

(** ** The header validator: all cases *)

Lemma readHeaders_short_marker (d : Decoder) :
  0 <= cur (r d) -> (List.length (unread (r d)) < 4)%nat ->
  snd (readHeaders d) = Some (short_read (List.length (unread (r d)))) /\
  unread (r (fst (readHeaders d))) = [].
Proof.
  intros Hc Hl. unfold readHeaders, and_then.
  rewrite binary_Read_fail by lia. simpl_dec. split; [reflexivity|].
  apply unread_advance_all. exact Hc.
Qed.

Lemma readHeaders_not_form (d : Decoder) :
  (4 <= List.length (unread (r d)))%nat ->
  Bytes4_of_list (firstn 4 (unread (r d))) <> formID ->
  readHeaders d
  = (with_ID (Bytes4_of_list (firstn 4 (unread (r d))))
       (with_r (advance (Z.of_nat 4) (r d)) d),
     Some (ErrFmtNotSupported (Bytes4_of_list (firstn 4 (unread (r d)))))).
Proof.
  intros Hl Nid. unfold readHeaders, and_then.
  rewrite binary_Read_ok by lia. simpl_dec.
  destruct (Bytes4_eqb (Bytes4_of_list (firstn 4 (unread (r d)))) formID) eqn:E.
  - apply Bytes4_eqb_eq in E. contradiction.
  - reflexivity.
Qed.

Lemma readHeaders_short_size (d : Decoder) :
  0 <= cur (r d) -> (4 <= List.length (unread (r d)) < 8)%nat ->
  Bytes4_of_list (firstn 4 (unread (r d))) = formID ->
  snd (readHeaders d) = Some (short_read (List.length (unread (r d)) - 4)) /\
  unread (r (fst (readHeaders d))) = [].
Proof.
  intros Hc Hl Eid. destruct (unread_after d 4 Hc) as (U1 & C1 & L1).
  unfold readHeaders, and_then.
  rewrite binary_Read_ok by lia. simpl_dec. rewrite Eid.
  change (negb (Bytes4_eqb formID formID)) with false. cbn match.
  rewrite binary_Read_fail by (simpl_dec; lia). simpl_dec. rewrite L1.
  split; [reflexivity|]. rewrite <- L1. apply unread_advance_all. exact C1.
Qed.

Lemma readHeaders_short_format (d : Decoder) :
  0 <= cur (r d) -> (8 <= List.length (unread (r d)) < 12)%nat ->
  Bytes4_of_list (firstn 4 (unread (r d))) = formID ->
  snd (readHeaders d) = Some (short_read (List.length (unread (r d)) - 8)) /\
  unread (r (fst (readHeaders d))) = [].
Proof.
  intros Hc Hl Eid. destruct (unread_after d 4 Hc) as (U1 & C1 & L1).
  destruct (unread_after (with_r (advance (Z.of_nat 4) (r d)) d) 4 C1)
    as (U2 & C2 & L2).
  change (r (with_r (advance (Z.of_nat 4) (r d)) d))
    with (advance (Z.of_nat 4) (r d)) in U2, C2, L2.
  unfold readHeaders, and_then.
  rewrite binary_Read_ok by lia. simpl_dec. rewrite Eid.
  change (negb (Bytes4_eqb formID formID)) with false. cbn match.
  rewrite binary_Read_ok by (simpl_dec; lia). simpl_dec.
  rewrite binary_Read_fail by (simpl_dec; lia). simpl_dec.
  rewrite L2, L1. split; [f_equal; f_equal; lia|].
  rewrite <- L1, <- L2. apply unread_advance_all. exact C2.
Qed.

Lemma readHeaders_full (d : Decoder) :
  0 <= cur (r d) -> (12 <= List.length (unread (r d)))%nat ->
  Bytes4_of_list (firstn 4 (unread (r d))) = formID ->
  let fmt := Bytes4_of_list (firstn 4 (skipn 8 (unread (r d)))) in
  snd (readHeaders d)
  = if negb (Bytes4_eqb fmt aiffID) && negb (Bytes4_eqb fmt aifcID)
    then Some (ErrFmtNotSupported fmt) else None.
Proof.
  intros Hc Hl Eid. cbn zeta. destruct (unread_after d 4 Hc) as (U1 & C1 & L1).
  destruct (unread_after (with_r (advance (Z.of_nat 4) (r d)) d) 4 C1)
    as (U2 & C2 & L2).
  change (r (with_r (advance (Z.of_nat 4) (r d)) d))
    with (advance (Z.of_nat 4) (r d)) in U2, C2, L2.
  unfold readHeaders, and_then.
  rewrite binary_Read_ok by lia. simpl_dec. rewrite Eid.
  change (negb (Bytes4_eqb formID formID)) with false. cbn match.
  rewrite binary_Read_ok by (simpl_dec; lia). simpl_dec.
  rewrite binary_Read_ok by (simpl_dec; lia). simpl_dec.
  rewrite U2, U1, skipn_skipn. cbn [Nat.add].
  destruct (_ && _); reflexivity.
Qed.

(** X9.  [readHeaders] returns a nil error exactly when at least 12 bytes
    are left, the first 4 are FORM and bytes 8 to 11 are AIFF or AIFC; the
    4 bytes of the size in between are not looked at. *)
Theorem readHeaders_accepts_iff (d : Decoder) :
  0 <= cur (r d) ->
  (snd (readHeaders d) = None <->
   (12 <= List.length (unread (r d)))%nat /\
   Bytes4_of_list (firstn 4 (unread (r d))) = formID /\
   (Bytes4_of_list (firstn 4 (skipn 8 (unread (r d)))) = aiffID \/
    Bytes4_of_list (firstn 4 (skipn 8 (unread (r d)))) = aifcID)).
Proof.
  intro Hc. set (u := unread (r d)) in *.
  destruct (Nat.lt_ge_cases (List.length u) 4) as [L4|G4].
  { destruct (readHeaders_short_marker d Hc L4) as [E _]. rewrite E.
    split; [discriminate|]. intros (H & _). fold u in L4. lia. }
  destruct (Bytes4_eqb (Bytes4_of_list (firstn 4 u)) formID) eqn:Eid.
  2:{ assert (N : Bytes4_of_list (firstn 4 u) <> formID).
      { intro F. apply Bytes4_eqb_eq in F. congruence. }
      rewrite (readHeaders_not_form d G4 N). cbn [snd].
      split; [discriminate|]. intros (_ & F & _). contradiction. }
  apply Bytes4_eqb_eq in Eid.
  destruct (Nat.lt_ge_cases (List.length u) 8) as [L8|G8].
  { destruct (readHeaders_short_size d Hc (conj G4 L8) Eid) as [E _]. rewrite E.
    split; [discriminate|]. intros (H & _). lia. }
  destruct (Nat.lt_ge_cases (List.length u) 12) as [L12|G12].
  { destruct (readHeaders_short_format d Hc (conj G8 L12) Eid) as [E _]. rewrite E.
    split; [discriminate|]. intros (H & _). lia. }
  rewrite (readHeaders_full d Hc G12 Eid). fold u.
  set (fmt := Bytes4_of_list (firstn 4 (skipn 8 u))).
  destruct (Bytes4_eqb fmt aiffID) eqn:Ea; destruct (Bytes4_eqb fmt aifcID) eqn:Ec;
    cbn [negb andb].
  - apply Bytes4_eqb_eq in Ea. split; [intros _; auto|reflexivity].
  - apply Bytes4_eqb_eq in Ea. split; [intros _; auto|reflexivity].
  - apply Bytes4_eqb_eq in Ec. split; [intros _; auto|reflexivity].
  - split; [discriminate|]. intros (_ & _ & [F|F]); apply Bytes4_eqb_eq in F; congruence.
Qed.

Lemma readHeaders_accepts_iff_witness :
  snd (readHeaders (NewDecoder (NewReader (form "AIFF" [])) None)) = None.
Proof.
  apply (proj2 (readHeaders_accepts_iff
                  (NewDecoder (NewReader (form "AIFF" [])) None) ltac:(cbn; lia))).
  split; [cbn; lia|]. split; [reflexivity|]. left. reflexivity.
Defined.

(** X10.  On a stream that ends before the 12 bytes of the header, its
    first 4 bytes FORM where it has them, [readHeaders] returns the error
    of the reader and not the format error: [io.EOF] when the stream ends
    right at the start of a field, after 0, 4 or 8 bytes, and
    [io.ErrUnexpectedEOF] when it ends within one.  The bytes that were
    there are consumed. *)
Theorem readHeaders_truncated (d : Decoder) :
  0 <= cur (r d) ->
  (List.length (unread (r d)) < 12)%nat ->
  ((4 <= List.length (unread (r d)))%nat ->
   Bytes4_of_list (firstn 4 (unread (r d))) = formID) ->
  snd (readHeaders d)
    = Some (if ((List.length (unread (r d)) =? 0) || (List.length (unread (r d)) =? 4)
                || (List.length (unread (r d)) =? 8))%nat
            then EOF else ErrUnexpectedEOF) /\
  unread (r (fst (readHeaders d))) = [].
Proof.
  intros Hc Hl Hid. set (n := List.length (unread (r d))) in *.
  destruct (Nat.lt_ge_cases n 4) as [L4|G4].
  { destruct (readHeaders_short_marker d Hc L4) as [E U]. rewrite E, U. fold n.
    split; [|reflexivity]. unfold short_read.
    destruct n as [|[|[|[|?]]]]; try reflexivity. lia. }
  specialize (Hid G4).
  destruct (Nat.lt_ge_cases n 8) as [L8|G8].
  { destruct (readHeaders_short_size d Hc (conj G4 L8) Hid) as [E U]. rewrite E, U.
    fold n. split; [|reflexivity]. unfold short_read.
    do 8 (destruct n as [|n]; try lia; try reflexivity). }
  destruct (readHeaders_short_format d Hc (conj G8 Hl) Hid) as [E U]. rewrite E, U.
  fold n. split; [|reflexivity]. unfold short_read.
  do 12 (destruct n as [|n]; try lia; try reflexivity).
Qed.

Lemma readHeaders_truncated_witness :
  snd (readHeaders (NewDecoder (NewReader (list_byte_of_string "FORM")) None))
    = Some EOF.
Proof.
  apply (proj1 (readHeaders_truncated
                  (NewDecoder (NewReader (list_byte_of_string "FORM")) None)
                  ltac:(cbn; lia) ltac:(cbn; lia) ltac:(intros _; reflexivity))).
Defined.

(** ** The COMM parser: all cases *)

Lemma advance_0 (rd : Reader) : advance 0 rd = rd.
Proof. destruct rd as [b c]. unfold advance. cbn. f_equal. lia. Qed.

Lemma binary_Read_all (n : nat) (wrap : error -> error)
    (store : list byte -> Decoder -> Decoder) (d : Decoder) :
  (n <= List.length (unread (r d)))%nat ->
  binary_Read n wrap store d
  = (store (firstn n (unread (r d))) (with_r (advance (Z.of_nat n) (r d)) d), None).
Proof.
  intro H. destruct n as [|n].
  - unfold binary_Read. cbn [ReadFull firstn Z.of_nat]. rewrite advance_0. reflexivity.
  - apply binary_Read_ok. lia.
Qed.

Ltac reader_len Hc :=
  simpl_dec;
  rewrite ?unread_advance by (repeat apply advance_cur_nonneg; exact Hc);
  rewrite ?length_skipn; lia.

Ltac read_ok Hc := rewrite binary_Read_ok by reader_len Hc; simpl_dec.

Ltac read_fail Hc := rewrite binary_Read_fail by reader_len Hc; simpl_dec.

Ltac unread_norm Hc :=
  rewrite ?unread_advance by (repeat apply advance_cur_nonneg; exact Hc);
  rewrite ?skipn_skipn, ?length_skipn; cbn [Nat.add].

(** X11.  In an AIFF file, the format of the decoder other than AIFC, with
    at least 18 bytes left, [parseCommChunk] succeeds, consumes exactly 18
    bytes whatever the size the chunk header announced, and sets the four
    fields from the big-endian values at offsets 0, 2, 6 and 8; the size is
    stored in [commSize] and plays no other part, and [Encoding] and
    [EncodingName] keep their values. *)
Theorem parseCommChunk_aiff (sz : Z) (d : Decoder) :
  0 <= cur (r d) ->
  (18 <= List.length (unread (r d)))%nat ->
  Format d <> aifcID ->
  parseCommChunk sz d
  = ({| r := advance 18 (r d); Chan := Chan d; ID := ID d; Size := Size d;
        Format := Format d; commSize := sz;
        NumChans := BigEndian (firstn 2 (unread (r d)));
        NumSampleFrames := BigEndian (firstn 4 (skipn 2 (unread (r d))));
        SampleSize := BigEndian (firstn 2 (skipn 6 (unread (r d))));
        SampleRate :=
          audio.IeeeFloatToInt (Bytes10_of_list (firstn 10 (skipn 8 (unread (r d)))));
        Encoding := Encoding d; EncodingName := EncodingName d |}, None).
Proof.
  intros Hc Hl Hf.
  assert (Ef : Bytes4_eqb (Format d) aifcID = false).
  { destruct (Bytes4_eqb (Format d) aifcID) eqn:E; [|reflexivity].
    apply Bytes4_eqb_eq in E. contradiction. }
  unfold parseCommChunk, and_then. simpl_dec.
  read_ok Hc. read_ok Hc. read_ok Hc. read_ok Hc.
  rewrite Ef. unread_norm Hc.
  rewrite !advance_advance. reflexivity.
Qed.

Lemma parseCommChunk_aiff_witness :
  NumChans (fst (parseCommChunk 18
     (with_Format aiffID (NewDecoder
        (NewReader (be16 2 ++ be32 4 ++ be16 16 ++ Bytes10_to_list rate_44100)) None))))
  = 2.
Proof.
  rewrite (parseCommChunk_aiff 18
             (with_Format aiffID (NewDecoder
                (NewReader (be16 2 ++ be32 4 ++ be16 16 ++ Bytes10_to_list rate_44100))
                None))
             ltac:(cbn; lia) ltac:(cbn; lia) ltac:(cbn; discriminate)).
  reflexivity.
Defined.

(** X12.  In an AIFC file, with the 18 bytes of the fixed fields, the 4
    bytes of the encoding, the length byte [n] of the encoding name and
    [n] bytes after it, [parseCommChunk] succeeds, consumes exactly
    [23 + n] bytes, sets [Encoding] to the bytes at offsets 18 to 21 and
    [EncodingName] to the [n] bytes from offset 23.  No pad byte is read
    after a name of even length. *)
Theorem parseCommChunk_aifc (sz : Z) (d : Decoder) :
  0 <= cur (r d) ->
  Format d = aifcID ->
  (23 <= List.length (unread (r d)))%nat ->
  let n := Z.to_nat (BigEndian (firstn 1 (skipn 22 (unread (r d))))) in
  (23 + n <= List.length (unread (r d)))%nat ->
  let d' := fst (parseCommChunk sz d) in
  snd (parseCommChunk sz d) = None /\
  r d' = advance (23 + Z.of_nat n) (r d) /\
  Encoding d' = Bytes4_of_list (firstn 4 (skipn 18 (unread (r d)))) /\
  EncodingName d' = firstn n (skipn 23 (unread (r d))) /\
  NumChans d' = BigEndian (firstn 2 (unread (r d))) /\
  NumSampleFrames d' = BigEndian (firstn 4 (skipn 2 (unread (r d)))) /\
  SampleSize d' = BigEndian (firstn 2 (skipn 6 (unread (r d)))) /\
  SampleRate d'
    = audio.IeeeFloatToInt (Bytes10_of_list (firstn 10 (skipn 8 (unread (r d))))).
Proof.
  intros Hc Hf Hl n Hn. cbn zeta.
  unfold parseCommChunk, and_then. simpl_dec.
  read_ok Hc. read_ok Hc. read_ok Hc. read_ok Hc.
  rewrite Hf. change (Bytes4_eqb aifcID aifcID) with true. cbn match.
  read_ok Hc.
  rewrite ReadFull_ok by reader_len Hc. simpl_dec.
  unread_norm Hc. fold n.
  rewrite binary_Read_all by reader_len Hc. simpl_dec.
  unread_norm Hc. rewrite !advance_advance.
  repeat split. f_equal. lia.
Qed.

Lemma parseCommChunk_aifc_witness :
  EncodingName (fst (parseCommChunk 26
     (with_Format aifcID (NewDecoder
        (NewReader (be16 2 ++ be32 4 ++ be16 16 ++ Bytes10_to_list rate_44100 ++
                    list_byte_of_string "NONE" ++ [x02] ++ list_byte_of_string "ab"))
        None))))
  = list_byte_of_string "ab".
Proof.
  apply (proj1 (proj2 (proj2 (proj2
    (parseCommChunk_aifc 26
       (with_Format aifcID (NewDecoder
          (NewReader (be16 2 ++ be32 4 ++ be16 16 ++ Bytes10_to_list rate_44100 ++
                      list_byte_of_string "NONE" ++ [x02] ++ list_byte_of_string "ab"))
          None))
       ltac:(cbn; lia) ltac:(reflexivity) ltac:(cbn; lia) ltac:(cbn; lia)))))).
Defined.

(** X13.  With fewer than 18 bytes left, [parseCommChunk] fails with the
    message of the first field that is not there in full, wrapped around
    the error of the reader: [io.EOF] when the stream ends right before
    the field, [io.ErrUnexpectedEOF] when it ends within it.  The bytes
    that were there are consumed, and [commSize] is set all the same. *)
Theorem parseCommChunk_truncated (sz : Z) (d : Decoder) :
  0 <= cur (r d) ->
  (List.length (unread (r d)) < 18)%nat ->
  let n := List.length (unread (r d)) in
  snd (parseCommChunk sz d)
  = Some (if (n <? 2)%nat
          then FieldError "num of channels failed to parse" (short_read n)
          else if (n <? 6)%nat
          then FieldError "num of sample frames failed to parse" (short_read (n - 2))
          else if (n <? 8)%nat
          then FieldError "sample size failed to parse" (short_read (n - 6))
          else FieldError "sample rate failed to parse" (short_read (n - 8))) /\
  unread (r (fst (parseCommChunk sz d))) = [] /\
  commSize (fst (parseCommChunk sz d)) = sz.
Proof.
  intros Hc Hl n. unfold parseCommChunk, and_then. simpl_dec.
  destruct (Nat.ltb_spec n 2) as [L2|G2].
  { read_fail Hc. fold n. repeat split. apply unread_advance_all. exact Hc. }
  read_ok Hc.
  destruct (Nat.ltb_spec n 6) as [L6|G6].
  { read_fail Hc. unread_norm Hc. fold n. repeat split.
    apply skipn_all2. unfold n. lia. }
  read_ok Hc.
  destruct (Nat.ltb_spec n 8) as [L8|G8].
  { read_fail Hc. unread_norm Hc. fold n. repeat split.
    apply skipn_all2. unfold n. lia. }
  read_ok Hc.
  read_fail Hc. unread_norm Hc. fold n. repeat split.
  apply skipn_all2. unfold n. lia.
Qed.

Lemma parseCommChunk_truncated_witness :
  snd (parseCommChunk 18 (NewDecoder (NewReader (be16 2 ++ be32 4)) None))
  = Some (FieldError "sample size failed to parse" EOF).
Proof.
  apply (proj1 (parseCommChunk_truncated 18
                  (NewDecoder (NewReader (be16 2 ++ be32 4)) None)
                  ltac:(cbn; lia) ltac:(cbn; lia))).
Defined.

(** ** What [Decode] returns *)

Lemma V1_loop_outcome (fuel : nat) (s : LoopState) (x : option Clip)
    (e : option error) :
  V1.loop fuel s = Some (x, e) ->
  (exists c, x = Some c /\ e = None) \/ (x = None /\ e = Some EOF).
Proof.
  revert s. induction fuel as [|fuel IH]; intros s; cbn [V1.loop]; [discriminate|].
  destruct (err_eqb (err s) (Some EOF)).
  { unfold V1.finish. intros [= <- <-]. left. eexists. split; reflexivity. }
  pose proof (V1_body_return s) as HR.
  destruct (V1.body s) as [s1|s1|e1].
  - apply IH.
  - unfold V1.finish. intros [= <- <-]. left. eexists. split; reflexivity.
  - intros [= <- <-]. right. rewrite (HR e1 eq_refl). split; reflexivity.
Qed.

Lemma V2_body_no_return (s : LoopState) (e : error) :
  fst (fst (V2.body s)) <> ReturnErr e.
Proof.
  unfold V2.body.
  destruct (IDnSize (dec s)) as [d [[id sz] [e0|]]]; [cbn; discriminate|].
  destruct (Bytes4_eqb id commID).
  { destruct (parseCommChunk sz d) as [d1 ?].
    destruct (rewindBytes s >? 0); [|cbn; discriminate].
    destruct (Seek _ _ _) as [rd ?]. cbn. discriminate. }
  destruct (Bytes4_eqb id ssndID).
  { destruct (sampleRate (with_size sz (clip s)) =? 0); [|cbn; discriminate].
    destruct (V2.dispatchToChan id sz d) as [[d1 ?] ?]. cbn. discriminate. }
  destruct (V2.dispatchToChan id sz d) as [[d1 ?] ?]. cbn. discriminate.
Qed.

Lemma V2_loop_outcome (fuel : nat) (s : LoopState) (x : option Clip)
    (e : option error) :
  V2.result (V2.loop fuel s) = Some (x, e) -> exists c, x = Some c /\ e = None.
Proof.
  revert s. induction fuel as [|fuel IH]; intros s; cbn [V2.loop];
    [cbn; discriminate|].
  destruct (err_eqb (err s) (Some EOF)).
  { cbn. intros [= <- <-]. eexists. split; reflexivity. }
  pose proof (V2_body_no_return s) as HR.
  destruct (V2.body s) as [[[s1|s1|e1] v] ch]; cbn [fst] in HR.
  - cbn [V2.record V2.result]. apply IH.
  - cbn. intros [= <- <-]. eexists. split; reflexivity.
  - exfalso. apply (HR e1). reflexivity.
Qed.

(** X14.  First revision: when [Decode] returns, it returns a clip and a
    nil error, or no clip and an error, never both and never neither.  An
    error of [readHeaders] is returned as it is; past the header the one
    error [Decode] returns is [io.EOF], the error of [jumpTo] on a chunk
    that announces more bytes than are left.  No error of [parseCommChunk]
    or of [Seek] is ever returned. *)
Theorem V1_Decode_outcome (fuel : nat) (rd : Reader) (x : option Clip)
    (e : option error) :
  V1.Decode fuel rd = Some (x, e) ->
  (exists c, x = Some c /\ e = None /\
             snd (readHeaders (NewDecoder rd None)) = None) \/
  (x = None /\ e <> None /\ e = snd (readHeaders (NewDecoder rd None))) \/
  (x = None /\ e = Some EOF /\ snd (readHeaders (NewDecoder rd None)) = None).
Proof.
  unfold V1.Decode.
  destruct (readHeaders (NewDecoder rd None)) as [d [e0|]]; cbn [snd].
  - intros [= <- <-]. right. left. split; [reflexivity|]. split; [discriminate|reflexivity].
  - intro H. apply V1_loop_outcome in H. destruct H as [(c & -> & ->)|[-> ->]].
    + left. exists c. auto.
    + right. right. auto.
Qed.

Lemma V1_Decode_outcome_witness :
  snd (readHeaders (NewDecoder (NewReader (form "AIFF" [])) None)) = None.
Proof.
  destruct (V1_Decode_outcome 2 (NewReader (form "AIFF" []))
              (Some (with_clip_r {| buf := form "AIFF" []; cur := 12 |} Clip_zero))
              None ltac:(vm_compute; reflexivity))
    as [(c & _ & _ & H)|[(H & _)|(H & _)]];
    [exact H|discriminate H|discriminate H].
Defined.

(** X15.  Second revision: past the header the traversal returns no error.
    When it returns, it returns no clip and the error of [readHeaders], or
    a clip and a nil error; the errors of [IDnSize], [parseCommChunk],
    [Seek] and [dispatchToChan] are all dropped, and a chunk that announces
    more bytes than are left no longer fails the call. *)
Theorem V2_traverse_outcome (fuel : nat) (d : Decoder) (x : option Clip)
    (e : option error) :
  V2.result (V2.traverse fuel d) = Some (x, e) ->
  (exists c, x = Some c /\ e = None /\ snd (readHeaders d) = None) \/
  (x = None /\ e <> None /\ e = snd (readHeaders d)).
Proof.
  unfold V2.traverse.
  destruct (readHeaders d) as [d1 [e0|]]; cbn [snd].
  - cbn. intros [= <- <-]. right. split; [reflexivity|]. split; [discriminate|reflexivity].
  - intro H. apply V2_loop_outcome in H. destruct H as (c & -> & ->).
    left. exists c. auto.
Qed.

Lemma V2_traverse_outcome_witness :
  snd (readHeaders (NewDecoder (NewReader (form "AIFF" [])) None)) = None.
Proof.
  destruct (V2_traverse_outcome 2 (NewDecoder (NewReader (form "AIFF" [])) None)
              (Some (with_clip_r {| buf := form "AIFF" []; cur := 12 |} Clip_zero))
              None ltac:(vm_compute; reflexivity))
    as [(c & _ & _ & H)|(H & _)]; [exact H|discriminate H].
Defined.

(** ** The two revisions of [Decode] *)

Lemma dispatchToChan_no_receiver (id : Bytes4) (sz : Z) (d : Decoder) :
  Chan d = None ->
  V2.dispatchToChan id sz d = (fst (jumpTo sz d), snd (jumpTo sz d), None).
Proof.
  intro H. unfold V2.dispatchToChan. rewrite H.
  destruct (jumpTo sz d) as [d1 [e|]]; reflexivity.
Qed.

Lemma V1_V2_body (s : LoopState) :
  Chan (dec s) = None ->
  match V1.body s with
  | Next s1 => fst (fst (V2.body s)) = Next s1 /\ Chan (dec s1) = None
  | BreakFor s1 => fst (fst (V2.body s)) = BreakFor s1
  | ReturnErr _ => True
  end.
Proof.
  intro HC. unfold V1.body, V2.body, IDnSize.
  pose proof (Chan_IDnSize (dec s)) as H1. unfold IDnSize in H1.
  destruct (iDnSize (dec s)) as [d [[id sz] [e|]]]; cbn [fst] in H1; [reflexivity|].
  assert (HCd : Chan d = None) by congruence.
  destruct (Bytes4_eqb id commID).
  { pose proof (keeps_Chan_parseCommChunk sz d) as H2.
    destruct (parseCommChunk sz d) as [d1 e1]. cbn [fst] in H2.
    destruct (rewindBytes s >? 0).
    - destruct (Seek (int64 (- rewindBytes s)) 1 (r d1)) as [rd x].
      cbn. split; [reflexivity|congruence].
    - cbn. split; [reflexivity|congruence]. }
  pose proof (Chan_jumpTo sz d) as H3.
  rewrite (dispatchToChan_no_receiver id sz d HCd).
  destruct (Bytes4_eqb id ssndID).
  { destruct (sampleRate (with_size sz (clip s)) =? 0).
    - destruct (jumpTo sz d) as [d1 [e1|]]; cbn in *; [trivial|].
      split; [reflexivity|congruence].
    - cbn. split; [reflexivity|congruence]. }
  destruct (jumpTo sz d) as [d1 [e1|]]; cbn in *; [trivial|].
  split; [reflexivity|congruence].
Qed.

Lemma V1_V2_loop (fuel : nat) (s : LoopState) (c : Clip) :
  Chan (dec s) = None ->
  V1.loop fuel s = Some (Some c, None) ->
  V2.result (V2.loop fuel s) = Some (Some c, None).
Proof.
  revert s. induction fuel as [|fuel IH]; intros s HC; cbn [V1.loop V2.loop];
    [discriminate|].
  destruct (err_eqb (err s) (Some EOF)); [intro H; exact H|].
  pose proof (V1_V2_body s HC) as HB.
  destruct (V1.body s) as [s1|s1|e1].
  - destruct HB as [HB HC1]. destruct (V2.body s) as [[fl v] ch]. cbn [fst] in HB.
    subst fl. cbn [V2.record V2.result]. apply IH. exact HC1.
  - destruct (V2.body s) as [[fl v] ch]. cbn [fst] in HB. subst fl.
    intro H. exact H.
  - discriminate.
Qed.

(** X16.  Whenever the first revision of [Decode] returns a clip, the
    second revision returns the same clip, with the reader at the same
    place, within the same number of passes: with no receiver registered
    [dispatchToChan] is [jumpTo], and the two loops differ only where
    [jumpTo] fails. *)
Theorem V2_Decode_agrees_with_V1 (fuel : nat) (rd : Reader) (c : Clip) :
  V1.Decode fuel rd = Some (Some c, None) ->
  V2.result (V2.Decode fuel rd) = Some (Some c, None).
Proof.
  unfold V1.Decode, V2.Decode, V2.traverse.
  pose proof (keeps_Chan_readHeaders (NewDecoder rd None)) as HC.
  destruct (readHeaders (NewDecoder rd None)) as [d [e0|]]; cbn [fst] in HC;
    [discriminate|].
  apply V1_V2_loop. exact HC.
Qed.

Lemma V2_Decode_agrees_with_V1_witness :
  exists c : Clip,
    V2.result (V2.Decode 4 (NewReader (comm_then_ssnd []))) = Some (Some c, None) /\
    sampleRate c = 44100.
Proof.
  eexists. split.
  - apply (V2_Decode_agrees_with_V1 4 (NewReader (comm_then_ssnd []))).
    vm_compute. reflexivity.
  - reflexivity.
Defined.

(** ** Invariants of the traversal *)

Lemma unread_length (rd : Reader) :
  0 <= cur rd <= Z.of_nat (List.length (buf rd)) ->
  Z.of_nat (List.length (unread rd)) = Z.of_nat (List.length (buf rd)) - cur rd.
Proof. intro H. unfold unread. rewrite length_skipn. lia. Qed.

Lemma reads_from_ReadFull (b : list byte) (c0 : Z) (n : nat) (rd : Reader) :
  reads_from b c0 rd -> reads_from b c0 (fst (ReadFull n rd)).
Proof.
  intros (Hb & Hc & H0). unfold reads_from.
  pose proof (ReadFull_buf n rd) as E1. pose proof (ReadFull_cur n rd) as E2.
  pose proof (ReadFull_bounds n rd) as E3. rewrite E1, Hb in *.
  split; [reflexivity|]. split; [apply E3; exact Hc|lia].
Qed.

Lemma reads_from_weaken (b : list byte) (c0 c1 : Z) (rd : Reader) :
  c1 <= c0 -> reads_from b c0 rd -> reads_from b c1 rd.
Proof. unfold reads_from. intros H (Hb & Hc & H0). repeat split; try tauto; lia. Qed.

Lemma sound_weaken (b : list byte) (c0 c1 : Z) (d : Decoder) :
  c1 <= c0 -> sound b c0 d -> sound b c1 d.
Proof.
  intros H [H1 H2]. split; [|exact H2]. exact (reads_from_weaken b c0 c1 _ H H1).
Qed.

Lemma sound_with_r (b : list byte) (c0 : Z) (d : Decoder) (rd : Reader) :
  reads_from b c0 rd -> sound b c0 d -> sound b c0 (with_r rd d).
Proof. intros H [_ H2]. split; [exact H|exact H2]. Qed.

Lemma keeps_and_then (P : Decoder -> Prop) (a b : Step) :
  keeps P a -> keeps P b -> keeps P (a ;; b).
Proof.
  intros Ha Hb d Hd. unfold and_then. specialize (Ha d Hd).
  destruct (a d) as [d1 [e|]]; cbn [fst] in *; [exact Ha|].
  apply Hb. exact Ha.
Qed.

Lemma keeps_binary_Read (b : list byte) (c0 : Z) (n : nat) (wrap : error -> error)
    (store : list byte -> Decoder -> Decoder) :
  (forall bs d, List.length bs = n -> sound b c0 d -> sound b c0 (store bs d)) ->
  keeps (sound b c0) (binary_Read n wrap store).
Proof.
  intros Hs d Hd. unfold binary_Read.
  pose proof (reads_from_ReadFull b c0 n (r d) (proj1 Hd)) as HR.
  pose proof (ReadFull_length n (r d)) as HL.
  destruct (ReadFull n (r d)) as [rd [bs|e]]; cbn [fst] in *.
  - apply Hs; [exact (HL rd bs eq_refl)|]. apply sound_with_r; assumption.
  - apply sound_with_r; assumption.
Qed.

Ltac sound_store :=
  let bs := fresh "bs" in let d := fresh "d" in
  let L := fresh "L" in let H := fresh "H" in
  intros bs d L H; exact H.

Lemma keeps_readHeaders (b : list byte) (c0 : Z) : keeps (sound b c0) readHeaders.
Proof.
  unfold readHeaders.
  apply keeps_and_then; [apply keeps_binary_Read; sound_store|].
  intros d Hd. destruct (negb (Bytes4_eqb (ID d) formID)); [exact Hd|].
  revert d Hd. apply (keeps_and_then _ _); [apply keeps_binary_Read; sound_store|].
  apply keeps_and_then; [apply keeps_binary_Read; sound_store|].
  intros d1 Hd1. destruct (_ && _); exact Hd1.
Qed.

Lemma keeps_parseCommChunk (b : list byte) (c0 : Z) (sz : Z) :
  keeps (sound b c0) (parseCommChunk sz).
Proof.
  unfold parseCommChunk.
  apply keeps_and_then; [intros d Hd; exact Hd|].
  apply keeps_and_then.
  { apply keeps_binary_Read. intros bs d L [H1 (H2 & H3 & H4)].
    split; [exact H1|]. split; [|split; assumption].
    cbn. pose proof (BigEndian_range bs) as R. rewrite L in R. exact R. }
  apply keeps_and_then; [apply keeps_binary_Read; sound_store|].
  apply keeps_and_then.
  { apply keeps_binary_Read. intros bs d L [H1 (H2 & H3 & H4)].
    split; [exact H1|]. split; [exact H2|]. split; [|exact H4].
    cbn. pose proof (BigEndian_range bs) as R. rewrite L in R. exact R. }
  apply keeps_and_then.
  { apply keeps_binary_Read. intros bs d L [H1 (H2 & H3 & H4)].
    split; [exact H1|]. split; [exact H2|]. split; [exact H3|].
    cbn. apply IeeeFloatToInt_bound. }
  intros d Hd. destruct (Bytes4_eqb (Format d) aifcID); [|exact Hd].
  revert d Hd. apply (keeps_and_then _ _); [apply keeps_binary_Read; sound_store|].
  intros d1 Hd1.
  pose proof (reads_from_ReadFull b c0 1 (r d1) (proj1 Hd1)) as HR.
  destruct (ReadFull 1 (r d1)) as [rd [bs|e]]; cbn [fst] in *.
  - apply keeps_binary_Read; [sound_store|]. apply sound_with_r; assumption.
  - apply sound_with_r; assumption.
Qed.

Lemma keeps_jumpTo (b : list byte) (c0 : Z) (n : Z) : keeps (sound b c0) (jumpTo n).
Proof.
  intros d Hd. unfold jumpTo. destruct (n >? 0) eqn:En; [|exact Hd].
  unfold CopyN_Discard. destruct Hd as [(Hb & Hc & H0) HF].
  pose proof (unread_length (r d)) as HL. rewrite Hb in HL. specialize (HL Hc).
  assert ((n <=? 0) = false) as -> by lia.
  destruct (Z.leb_spec n (Z.of_nat (List.length (unread (r d))))); cbn [fst];
    (split; [|exact HF]); unfold reads_from; cbn; repeat split; try assumption; lia.
Qed.

Lemma iDnSize_sound (b : list byte) (c0 : Z) (d : Decoder) :
  sound b c0 d ->
  sound b c0 (fst (iDnSize d)) /\
  0 <= snd (fst (snd (iDnSize d))) < 2 ^ 32 /\
  (snd (snd (iDnSize d)) = None ->
   sound b (cur (r d) + 4) (fst (iDnSize d)) /\
   (4 <= List.length (unread (r d)))%nat /\
   fst (fst (snd (iDnSize d))) = Bytes4_of_list (firstn 4 (unread (r d)))).
Proof.
  intros Hd. unfold iDnSize.
  destruct (Nat.lt_ge_cases (List.length (unread (r d))) 4) as [L4|G4].
  { pose proof (reads_from_ReadFull b c0 4 (r d) (proj1 Hd)) as HR.
    assert (E : exists e, snd (ReadFull 4 (r d)) = inr e).
    { destruct (Nat.eq_dec (List.length (unread (r d))) 0) as [Z0|NZ].
      - apply length_zero_iff_nil in Z0.
        rewrite (ReadFull_eof 4 (r d) ltac:(lia) Z0). eexists. reflexivity.
      - rewrite (ReadFull_short 4 (r d) ltac:(lia)). eexists. reflexivity. }
    destruct E as [e E].
    destruct (ReadFull 4 (r d)) as [rd [bs|e1]]; cbn [snd fst] in *; [discriminate|].
    split; [apply sound_with_r; assumption|]. split; [lia|discriminate]. }
  rewrite (ReadFull_ok 4 (r d) ltac:(lia)). simpl_dec.
  assert (H4 : reads_from b (cur (r d) + 4) (advance (Z.of_nat 4) (r d))).
  { destruct Hd as [(Hb & Hc & H0) HF].
    pose proof (unread_length (r d)) as HL. rewrite Hb in HL. specialize (HL Hc).
    unfold reads_from. cbn. repeat split; try assumption; lia. }
  pose proof (reads_from_ReadFull b _ 4 _ H4) as HR.
  pose proof (ReadFull_length 4 (advance (Z.of_nat 4) (r d))) as HL.
  destruct (ReadFull 4 (advance (Z.of_nat 4) (r d))) as [rd2 [bs2|e2]];
    cbn [fst] in HR; rewrite err_eqb_refl; cbn [negb fst snd].
  - specialize (HL rd2 bs2 eq_refl).
    pose proof (BigEndian_range bs2) as R. rewrite HL in R.
    split.
    { apply sound_with_r; [|apply sound_with_r; [|exact Hd]].
      - apply (reads_from_weaken b (cur (r d) + 4)); [destruct Hd as [(_ & _ & ?) _]; lia|exact HR].
      - apply (reads_from_weaken b (cur (r d) + 4)); [destruct Hd as [(_ & _ & ?) _]; lia|exact H4]. }
    split; [exact R|]. intros _.
    split; [|split; [exact G4|reflexivity]].
    split; [exact HR|exact (proj2 Hd)].
  - split.
    { split; [|exact (proj2 Hd)].
      apply (reads_from_weaken b (cur (r d) + 4)); [destruct Hd as [(_ & _ & ?) _]; lia|exact HR]. }
    split; [lia|]. intros _.
    split; [|split; [exact G4|reflexivity]].
    split; [exact HR|exact (proj2 Hd)].
Qed.

Lemma int64_range (z : Z) : - 2 ^ 63 <= int64 z < 2 ^ 63.
Proof.
  unfold int64. pose proof (Z.mod_pos_bound (z + 2 ^ 63) (2 ^ 64) ltac:(lia)). lia.
Qed.

Lemma int64_small (z : Z) : - 2 ^ 63 <= z < 2 ^ 63 -> int64 z = z.
Proof. intro H. unfold int64. rewrite Z.mod_small; lia. Qed.

Lemma reads_from_Seek_back (b : list byte) (rw : Z) (rd : Reader) :
  0 < rw < 2 ^ 63 -> reads_from b 0 rd ->
  reads_from b 0 (fst (Seek (int64 (- rw)) 1 rd)).
Proof.
  intros Hrw (Hb & Hc & H0). rewrite int64_small by lia. unfold Seek.
  destruct (cur rd + - rw <? 0) eqn:E; cbn [fst].
  - unfold reads_from. repeat split; try assumption; lia.
  - unfold reads_from. cbn. repeat split; try assumption; lia.
Qed.

Lemma clip_of_comm_in_range (d : Decoder) (c : Clip) :
  fields_in_range d -> clip_in_range c -> clip_in_range (clip_of_comm d c).
Proof.
  intros (H1 & H2 & H3) (_ & _ & _ & H4). unfold clip_in_range. cbn. tauto.
Qed.

Lemma V1_body_ok (b : list byte) (s : LoopState) :
  loop_ok b s ->
  match V1.body s with
  | Next s1 | BreakFor s1 => loop_ok b s1
  | ReturnErr _ => True
  end.
Proof.
  intros (Hd & Hc & Hrw). unfold V1.body.
  destruct (iDnSize_sound b 0 (dec s) Hd) as (H1 & Hsz & _).
  destruct (iDnSize (dec s)) as [d [[id sz] [e|]]]; cbn [fst snd] in *.
  { split; [exact H1|]. split; assumption. }
  destruct (Bytes4_eqb id commID).
  { pose proof (keeps_parseCommChunk b 0 sz d H1) as H2.
    destruct (parseCommChunk sz d) as [d1 e1]. cbn [fst] in H2.
    pose proof (clip_of_comm_in_range d1 (clip s) (proj2 H2) Hc) as Hc1.
    destruct (rewindBytes s >? 0) eqn:Er.
    - pose proof (reads_from_Seek_back b (rewindBytes s) (r d1) ltac:(lia) (proj1 H2)) as HS.
      destruct (Seek (int64 (- rewindBytes s)) 1 (r d1)) as [rd x]. cbn [fst] in HS.
      split; [apply sound_with_r; assumption|]. split; assumption.
    - split; [exact H2|]. split; assumption. }
  assert (Hcs : clip_in_range (with_size sz (clip s))).
  { destruct Hc as (A & B & C & _). unfold clip_in_range. cbn. tauto. }
  pose proof (keeps_jumpTo b 0 sz d H1) as H3.
  destruct (Bytes4_eqb id ssndID).
  { destruct (sampleRate (with_size sz (clip s)) =? 0).
    - destruct (jumpTo sz d) as [d1 [e1|]]; cbn [fst] in H3; [trivial|].
      split; [exact H3|]. split; [exact Hcs|apply int64_range].
    - split; [exact H1|]. split; assumption. }
  destruct (jumpTo sz d) as [d1 [e1|]]; cbn [fst] in H3; [trivial|].
  split; [exact H3|]. split; [exact Hc|].
  destruct (negb (size (clip s) =? 0)); [apply int64_range|exact Hrw].
Qed.

Lemma V1_loop_ok (b : list byte) (fuel : nat) (s : LoopState) (c : Clip)
    (e : option error) :
  loop_ok b s ->
  V1.loop fuel s = Some (Some c, e) ->
  clip_in_range c /\ exists rd, clip_r c = Some rd /\ reads_from b 0 rd.
Proof.
  revert s. induction fuel as [|fuel IH]; intros s Hs; cbn [V1.loop]; [discriminate|].
  assert (F : forall s1, loop_ok b s1 -> V1.finish s1 = (Some c, e) ->
              clip_in_range c /\ exists rd, clip_r c = Some rd /\ reads_from b 0 rd).
  { intros s1 (Hd & Hc & _) [= <- <-]. split.
    - destruct Hc as (A & B & C & D). unfold clip_in_range. cbn. tauto.
    - exists (r (dec s1)). split; [reflexivity|exact (proj1 Hd)]. }
  destruct (err_eqb (err s) (Some EOF)).
  { intro H. apply (F s Hs). congruence. }
  pose proof (V1_body_ok b s Hs) as HB.
  destruct (V1.body s) as [s1|s1|e1].
  - apply IH. exact HB.
  - intro H. apply (F s1 HB). congruence.
  - discriminate.
Qed.

Lemma loop_ok_start (rd : Reader) (d : Decoder) (c : option Consumer) :
  0 <= cur rd <= Z.of_nat (List.length (buf rd)) ->
  fst (readHeaders (NewDecoder rd c)) = d ->
  loop_ok (buf rd) {| dec := d; clip := Clip_zero; err := None; rewindBytes := 0 |}.
Proof.
  intros Hc <-. split; [|split].
  - cbn [dec]. apply keeps_readHeaders. split.
    + unfold reads_from. cbn. repeat split; lia.
    + unfold fields_in_range. cbn. lia.
  - unfold clip_in_range. cbn. lia.
  - cbn. lia.
Qed.

(** X17.  The clip that the first revision of [Decode] returns holds
    values of the types they were read as: channels and bit depth below
    2^16, the sample rate below 2^30, the size below 2^32, none negative.
    Its reader is the stream [Decode] was given, the bytes unchanged and
    the cursor within them, whatever the chunks announce and wherever the
    loop rewinds to. *)
Theorem V1_Decode_clip_in_range (fuel : nat) (rd : Reader) (c : Clip)
    (e : option error) :
  0 <= cur rd <= Z.of_nat (List.length (buf rd)) ->
  V1.Decode fuel rd = Some (Some c, e) ->
  (0 <= channels c < 2 ^ 16 /\ 0 <= bitDepth c < 2 ^ 16 /\
   0 <= sampleRate c < 2 ^ 30 /\ 0 <= size c < 2 ^ 32) /\
  exists rd', clip_r c = Some rd' /\ buf rd' = buf rd /\
              0 <= cur rd' <= Z.of_nat (List.length (buf rd)).
Proof.
  intros Hc. unfold V1.Decode.
  pose proof (loop_ok_start rd (fst (readHeaders (NewDecoder rd None))) None Hc eq_refl)
    as H0.
  destruct (readHeaders (NewDecoder rd None)) as [d [e0|]]; [discriminate|].
  cbn [fst] in H0. intro H.
  destruct (V1_loop_ok (buf rd) fuel _ c e H0 H) as (R & rd' & E1 & E2 & E3 & _).
  split; [exact R|]. exists rd'. auto.
Qed.

Lemma V1_Decode_clip_in_range_witness :
  exists c : Clip,
    V1.Decode 4 (NewReader (comm_then_ssnd [])) = Some (Some c, None) /\
    0 <= sampleRate c < 2 ^ 30.
Proof.
  eexists. split; [vm_compute; reflexivity|].
  apply (V1_Decode_clip_in_range 4 (NewReader (comm_then_ssnd [])) _ None
           ltac:(cbn; lia) ltac:(vm_compute; reflexivity)).
Defined.

(** ** Where the loop ends *)

Lemma V1_body_err (s : LoopState) :
  match V1.body s with
  | Next s1 | BreakFor s1 => err s1 = err s
  | ReturnErr _ => True
  end.
Proof.
  unfold V1.body.
  destruct (iDnSize (dec s)) as [d [[id sz] [e|]]]; [reflexivity|].
  destruct (Bytes4_eqb id commID).
  { destruct (parseCommChunk sz d) as [d1 e1].
    destruct (rewindBytes s >? 0); [|reflexivity].
    destruct (Seek _ _ _) as [rd x]. reflexivity. }
  destruct (Bytes4_eqb id ssndID).
  { destruct (sampleRate (with_size sz (clip s)) =? 0); [|reflexivity].
    destruct (jumpTo sz d) as [d1 [e1|]]; [trivial|reflexivity]. }
  destruct (jumpTo sz d) as [d1 [e1|]]; [trivial|reflexivity].
Qed.

Lemma iDnSize_fails_at_end (b : list byte) (d : Decoder) (e : error) :
  reads_from b 0 (r d) ->
  snd (snd (iDnSize d)) = Some e ->
  cur (r (fst (iDnSize d))) = Z.of_nat (List.length b).
Proof.
  intros (Hb & Hc & _) He.
  pose proof (unread_length (r d)) as HL. rewrite Hb in HL. specialize (HL Hc).
  destruct (Nat.lt_ge_cases (List.length (unread (r d))) 4) as [L4|G4].
  - unfold iDnSize.
    destruct (Nat.eq_dec (List.length (unread (r d))) 0) as [Z0|NZ].
    + rewrite (ReadFull_eof 4 (r d) ltac:(lia)
                 (proj1 (length_zero_iff_nil _) Z0)). simpl_dec. lia.
    + rewrite (ReadFull_short 4 (r d) ltac:(lia)). simpl_dec. cbn. lia.
  - exfalso. apply iDnSize_error_is_id_error in He.
    rewrite (ReadFull_ok 4 (r d) ltac:(lia)) in He. discriminate.
Qed.

Lemma V1_body_break_at_end (b : list byte) (s s1 : LoopState) :
  reads_from b 0 (r (dec s)) ->
  V1.body s = BreakFor s1 -> cur (r (dec s1)) = Z.of_nat (List.length b).
Proof.
  intros Hr. unfold V1.body.
  pose proof (iDnSize_fails_at_end b (dec s)) as HE.
  destruct (iDnSize (dec s)) as [d [[id sz] [e|]]]; cbn [fst snd] in HE.
  { intros [= <-]. cbn [dec]. exact (HE e Hr eq_refl). }
  destruct (Bytes4_eqb id commID).
  { destruct (parseCommChunk sz d) as [d1 e1].
    destruct (rewindBytes s >? 0); [|discriminate].
    destruct (Seek _ _ _) as [rd x]. discriminate. }
  destruct (Bytes4_eqb id ssndID).
  { destruct (sampleRate (with_size sz (clip s)) =? 0); [|discriminate].
    destruct (jumpTo sz d) as [d1 [e1|]]; discriminate. }
  destruct (jumpTo sz d) as [d1 [e1|]]; discriminate.
Qed.

Lemma V1_loop_at_end (b : list byte) (fuel : nat) (s : LoopState) (c : Clip)
    (e : option error) :
  loop_ok b s -> err s = None ->
  V1.loop fuel s = Some (Some c, e) ->
  exists rd, clip_r c = Some rd /\ cur rd = Z.of_nat (List.length b).
Proof.
  revert s. induction fuel as [|fuel IH]; intros s Hs He; cbn [V1.loop];
    [discriminate|].
  rewrite He. cbn [err_eqb].
  pose proof (V1_body_ok b s Hs) as HB. pose proof (V1_body_err s) as HE.
  pose proof (V1_body_break_at_end b s) as HK.
  destruct (V1.body s) as [s1|s1|e1].
  - apply IH; [exact HB|congruence].
  - unfold V1.finish. intros [= <- <-]. exists (r (dec s1)).
    split; [reflexivity|]. apply HK; [exact (proj1 (proj1 Hs))|reflexivity].
  - discriminate.
Qed.

(** X18.  Whenever the first revision of [Decode] returns a clip, the
    reader of the clip stands at the end of the stream: the loop is left
    only where the read of a chunk identifier fails, and this read
    consumes the bytes that are left.  No clip is returned with its reader
    at the sound data. *)
Theorem V1_Decode_clip_reader_at_end (fuel : nat) (rd : Reader) (c : Clip)
    (e : option error) :
  0 <= cur rd <= Z.of_nat (List.length (buf rd)) ->
  V1.Decode fuel rd = Some (Some c, e) ->
  exists rd', clip_r c = Some rd' /\ buf rd' = buf rd /\
              cur rd' = Z.of_nat (List.length (buf rd)) /\ unread rd' = [].
Proof.
  intros Hc H.
  assert (H' := H). unfold V1.Decode in H'.
  pose proof (loop_ok_start rd (fst (readHeaders (NewDecoder rd None))) None Hc eq_refl)
    as H0.
  destruct (readHeaders (NewDecoder rd None)) as [d [e0|]]; [discriminate|].
  cbn [fst] in H0.
  destruct (V1_loop_at_end (buf rd) fuel _ c e H0 eq_refl H') as (rd1 & E1 & E2).
  destruct (V1_loop_ok (buf rd) fuel _ c e H0 H') as (_ & rd2 & E3 & E4 & _).
  assert (rd2 = rd1) by congruence. subst rd2.
  exists rd1. split; [exact E1|]. split; [exact E4|]. split; [exact E2|].
  unfold unread. rewrite E2, E4, Nat2Z.id. apply skipn_all.
Qed.

Lemma V1_Decode_clip_reader_at_end_witness :
  exists rd', clip_r (with_clip_r {| buf := form "AIFF" []; cur := 12 |} Clip_zero)
              = Some rd' /\
              buf rd' = form "AIFF" [] /\ cur rd' = 12 /\ unread rd' = [].
Proof.
  apply (V1_Decode_clip_reader_at_end 2 (NewReader (form "AIFF" [])) _ None
           ltac:(cbn; lia) ltac:(vm_compute; reflexivity)).
Defined.

(** ** Streams on which the loop cannot rewind *)

Lemma occurs_false (pat : Bytes4) (b : list byte) :
  occurs pat b = false ->
  forall k, (k < List.length b)%nat ->
            Bytes4_eqb (Bytes4_of_list (firstn 4 (skipn k b))) pat = false.
Proof.
  induction b as [|x b IH]; intros H k Hk; cbn [List.length] in Hk; [lia|].
  cbn [occurs] in H. apply orb_false_iff in H. destruct H as [H1 H2].
  destruct k as [|k]; [exact H1|]. cbn [skipn]. apply IH; [exact H2|lia].
Qed.

Lemma occurs_at (pat : Bytes4) (b : list byte) (rd : Reader) :
  reads_from b 0 rd -> (4 <= List.length (unread rd))%nat ->
  Bytes4_eqb (Bytes4_of_list (firstn 4 (unread rd))) pat = true ->
  occurs pat b = true.
Proof.
  intros (Hb & Hc & _) Hl He.
  destruct (occurs pat b) eqn:E; [reflexivity|].
  pose proof (unread_length rd) as HL. rewrite Hb in HL. specialize (HL Hc).
  pose proof (occurs_false pat b E (Z.to_nat (cur rd)) ltac:(lia)) as HF.
  unfold unread in He. rewrite Hb in He. congruence.
Qed.

Lemma V1_body_forward (b : list byte) (s : LoopState) :
  occurs commID b = false \/ occurs ssndID b = false ->
  loop_ok b s ->
  (occurs commID b = false ->
   channels (clip s) = 0 /\ bitDepth (clip s) = 0 /\ sampleRate (clip s) = 0) ->
  (occurs ssndID b = false -> rewindBytes s = 0 /\ size (clip s) = 0) ->
  match V1.body s with
  | Next s1 =>
      cur (r (dec s)) + 4 <= cur (r (dec s1)) /\
      (occurs commID b = false ->
       channels (clip s1) = 0 /\ bitDepth (clip s1) = 0 /\ sampleRate (clip s1) = 0) /\
      (occurs ssndID b = false -> rewindBytes s1 = 0 /\ size (clip s1) = 0)
  | BreakFor s1 => clip s1 = clip s
  | ReturnErr _ => True
  end.
Proof.
  intros Hone (Hd & Hc & Hrw) HC HS. unfold V1.body.
  destruct (iDnSize_sound b 0 (dec s) Hd) as (_ & _ & H1).
  pose proof (occurs_at commID b (r (dec s)) (proj1 Hd)) as OC.
  pose proof (occurs_at ssndID b (r (dec s)) (proj1 Hd)) as OS.
  destruct (iDnSize (dec s)) as [d [[id sz] [e|]]]; cbn [fst snd] in *; [reflexivity|].
  destruct (H1 eq_refl) as (Hd1 & Hl & Hid). subst id.
  destruct (Bytes4_eqb _ commID) eqn:Ecomm.
  { specialize (OC Hl eq_refl).
    assert (NS : occurs ssndID b = false) by (destruct Hone; congruence).
    destruct (HS NS) as [R0 S0].
    pose proof (keeps_parseCommChunk b _ sz d Hd1) as H2.
    destruct (parseCommChunk sz d) as [d1 e1]. cbn [fst] in H2.
    rewrite R0. cbn [Z.gtb Z.compare]. cbn [dec clip rewindBytes clip_of_comm size].
    split; [destruct H2 as [(_ & _ & ?) _]; assumption|].
    split; [intro; congruence|intros _; auto]. }
  destruct (Bytes4_eqb _ ssndID) eqn:Essnd.
  { specialize (OS Hl eq_refl).
    assert (NC : occurs commID b = false) by (destruct Hone; congruence).
    destruct (HC NC) as (C1 & C2 & C3).
    cbn [sampleRate with_size]. rewrite C3. cbn [Z.eqb].
    pose proof (keeps_jumpTo b _ sz d Hd1) as H3.
    destruct (jumpTo sz d) as [d1 [e1|]]; cbn [fst] in H3; [trivial|].
    cbn [dec clip rewindBytes with_size channels bitDepth sampleRate size].
    split; [destruct H3 as [(_ & _ & ?) _]; assumption|].
    split; [intros _; auto|intro; congruence]. }
  pose proof (keeps_jumpTo b _ sz d Hd1) as H3.
  destruct (jumpTo sz d) as [d1 [e1|]]; cbn [fst] in H3; [trivial|].
  cbn [dec clip rewindBytes].
  split; [destruct H3 as [(_ & _ & ?) _]; assumption|].
  split; [exact HC|]. intro NS. destruct (HS NS) as [R0 S0].
  rewrite S0. cbn. auto.
Qed.

Lemma V1_loop_forward (b : list byte) (fuel : nat) (s : LoopState) :
  occurs commID b = false \/ occurs ssndID b = false ->
  loop_ok b s ->
  (occurs commID b = false ->
   channels (clip s) = 0 /\ bitDepth (clip s) = 0 /\ sampleRate (clip s) = 0) ->
  (occurs ssndID b = false -> rewindBytes s = 0 /\ size (clip s) = 0) ->
  Z.of_nat (List.length b) - cur (r (dec s)) < 4 * Z.of_nat fuel ->
  exists x e,
    V1.loop fuel s = Some (x, e) /\
    forall c, x = Some c ->
      (occurs commID b = false ->
       channels c = 0 /\ bitDepth c = 0 /\ sampleRate c = 0) /\
      (occurs ssndID b = false -> size c = 0).
Proof.
  intro Hone. revert s. induction fuel as [|fuel IH]; intros s Hs HC HS Hf.
  { destruct Hs as (((_ & ? & _) & _) & _). lia. }
  cbn [V1.loop].
  assert (F : forall s1,
             (occurs commID b = false ->
              channels (clip s1) = 0 /\ bitDepth (clip s1) = 0 /\
              sampleRate (clip s1) = 0) ->
             (occurs ssndID b = false -> size (clip s1) = 0) ->
             exists x e,
               Some (V1.finish s1) = Some (x, e) /\
               forall c, x = Some c ->
                 (occurs commID b = false ->
                  channels c = 0 /\ bitDepth c = 0 /\ sampleRate c = 0) /\
                 (occurs ssndID b = false -> size c = 0)).
  { intros s1 A B. eexists. eexists. split; [reflexivity|].
    intros c [= <-]. cbn. split; [exact A|exact B]. }
  assert (HS' : occurs ssndID b = false -> size (clip s) = 0).
  { intro N. exact (proj2 (HS N)). }
  destruct (err_eqb (err s) (Some EOF)); [apply F; assumption|].
  pose proof (V1_body_ok b s Hs) as HB.
  pose proof (V1_body_forward b s Hone Hs HC HS) as HW.
  destruct (V1.body s) as [s1|s1|e1].
  - destruct HW as (Hcur & HC1 & HS1). apply IH; try assumption. lia.
  - apply F; rewrite HW; assumption.
  - eexists. eexists. split; [reflexivity|]. intros c [=].
Qed.

(** X19.  On a stream in which the bytes COMM stand nowhere, or the bytes
    SSND stand nowhere, the first revision of [Decode] returns within one
    pass for every 4 bytes of the stream: the loop cannot rewind there, and
    every pass moves the reader forward.  A clip returned for a
    stream without COMM has 0 channels, bit depth 0 and sample rate 0, a
    clip returned for a stream without SSND has size 0: the missing chunk
    is not reported. *)
Theorem V1_Decode_returns_without_rewind (fuel : nat) (rd : Reader) :
  0 <= cur rd <= Z.of_nat (List.length (buf rd)) ->
  occurs commID (buf rd) = false \/ occurs ssndID (buf rd) = false ->
  Z.of_nat (List.length (buf rd)) < 4 * Z.of_nat fuel ->
  exists x e,
    V1.Decode fuel rd = Some (x, e) /\
    forall c, x = Some c ->
      (occurs commID (buf rd) = false ->
       channels c = 0 /\ bitDepth c = 0 /\ sampleRate c = 0) /\
      (occurs ssndID (buf rd) = false -> size c = 0).
Proof.
  intros Hc Hone Hf. unfold V1.Decode.
  pose proof (loop_ok_start rd (fst (readHeaders (NewDecoder rd None))) None Hc eq_refl)
    as H0.
  destruct (readHeaders (NewDecoder rd None)) as [d [e0|]].
  { eexists. eexists. split; [reflexivity|]. intros c [=]. }
  cbn [fst] in H0.
  apply (V1_loop_forward (buf rd) fuel _ Hone H0).
  - intros _. cbn. auto.
  - intros _. cbn. auto.
  - destruct H0 as (((_ & ? & _) & _) & _). cbn [dec] in *. lia.
Qed.

Lemma V1_Decode_returns_without_rewind_witness :
  exists x e,
    V1.Decode 10 (NewReader (form "AIFF" (COMM 1 0 16 rate_44100))) = Some (x, e) /\
    forall c, x = Some c ->
      (occurs commID (form "AIFF" (COMM 1 0 16 rate_44100)) = false ->
       channels c = 0 /\ bitDepth c = 0 /\ sampleRate c = 0) /\
      (occurs ssndID (form "AIFF" (COMM 1 0 16 rate_44100)) = false -> size c = 0).
Proof.
  apply (V1_Decode_returns_without_rewind 10
           (NewReader (form "AIFF" (COMM 1 0 16 rate_44100)))
           ltac:(cbn; lia) ltac:(right; vm_compute; reflexivity) ltac:(cbn; lia)).
Defined.

(** ** The same invariants in the second revision *)

Lemma keeps_dispatchToChan (b : list byte) (c0 : Z) (id : Bytes4) (sz : Z)
    (d : Decoder) :
  sound b c0 d -> sound b c0 (fst (fst (V2.dispatchToChan id sz d))).
Proof.
  intro Hd. unfold V2.dispatchToChan. destruct (Chan d) as [receiver|].
  - cbn [fst]. apply sound_with_r; [|exact Hd]. unfold V2.consume.
    destruct Hd as [(Hb & Hc & H0) _].
    pose proof (unread_length (r d)) as HL. rewrite Hb in HL. specialize (HL Hc).
    unfold reads_from. cbn. repeat split; try assumption; lia.
  - pose proof (keeps_jumpTo b c0 sz d Hd) as H.
    destruct (jumpTo sz d) as [d1 [e|]]; exact H.
Qed.

Lemma V2_body_ok (b : list byte) (s : LoopState) :
  loop_ok b s ->
  match fst (fst (V2.body s)) with
  | Next s1 => loop_ok b s1 /\ err s1 = err s
  | BreakFor s1 =>
      loop_ok b s1 /\ clip s1 = clip s /\
      cur (r (dec s1)) = Z.of_nat (List.length b)
  | ReturnErr _ => True
  end.
Proof.
  intros (Hd & Hc & Hrw). unfold V2.body, IDnSize.
  destruct (iDnSize_sound b 0 (dec s) Hd) as (H1 & Hsz & _).
  pose proof (iDnSize_fails_at_end b (dec s)) as HE.
  destruct (iDnSize (dec s)) as [d [[id sz] [e|]]]; cbn [fst snd] in *.
  { split; [|split; [reflexivity|exact (HE e (proj1 Hd) eq_refl)]].
    split; [exact H1|]. split; assumption. }
  destruct (Bytes4_eqb id commID).
  { pose proof (keeps_parseCommChunk b 0 sz d H1) as H2.
    destruct (parseCommChunk sz d) as [d1 e1]. cbn [fst] in H2.
    pose proof (clip_of_comm_in_range d1 (clip s) (proj2 H2) Hc) as Hc1.
    destruct (rewindBytes s >? 0) eqn:Er.
    - pose proof (reads_from_Seek_back b (rewindBytes s) (r d1) ltac:(lia) (proj1 H2)) as HS.
      destruct (Seek (int64 (- rewindBytes s)) 1 (r d1)) as [rd x]. cbn [fst] in *.
      split; [|reflexivity].
      split; [apply sound_with_r; assumption|]. split; assumption.
    - cbn [fst]. split; [|reflexivity]. split; [exact H2|]. split; assumption. }
  assert (Hcs : clip_in_range (with_size sz (clip s))).
  { destruct Hc as (A & B & C & _). unfold clip_in_range. cbn. tauto. }
  pose proof (keeps_dispatchToChan b 0 id sz d H1) as H3.
  destruct (Bytes4_eqb id ssndID).
  { destruct (sampleRate (with_size sz (clip s)) =? 0).
    - destruct (V2.dispatchToChan id sz d) as [[d1 e1] ch]. cbn [fst] in *.
      split; [|reflexivity]. split; [exact H3|]. split; [exact Hcs|apply int64_range].
    - cbn [fst]. split; [|reflexivity]. split; [exact H1|]. split; assumption. }
  destruct (V2.dispatchToChan id sz d) as [[d1 e1] ch]. cbn [fst] in *.
  split; [|reflexivity]. split; [exact H3|]. split; [exact Hc|].
  destruct (negb (size (clip s) =? 0)); [apply int64_range|exact Hrw].
Qed.

Lemma V2_loop_ok (b : list byte) (fuel : nat) (s : LoopState) (c : Clip)
    (e : option error) :
  loop_ok b s -> err s = None ->
  V2.result (V2.loop fuel s) = Some (Some c, e) ->
  clip_in_range c /\
  exists rd, clip_r c = Some rd /\ buf rd = b /\ cur rd = Z.of_nat (List.length b).
Proof.
  revert s. induction fuel as [|fuel IH]; intros s Hs He; cbn [V2.loop];
    [cbn; discriminate|].
  rewrite He. cbn [err_eqb].
  pose proof (V2_body_ok b s Hs) as HB.
  destruct (V2.body s) as [[[s1|s1|e1] v] ch]; cbn [fst] in HB;
    cbn [V2.record V2.done V2.result].
  - destruct HB as [HB HE]. apply IH; [exact HB|congruence].
  - destruct HB as ((Hd & Hc & _) & _ & Hend).
    unfold V2.finish. intros [= <- <-]. split.
    + destruct Hc as (A & B & C & D). unfold clip_in_range. cbn. tauto.
    + exists (r (dec s1)). split; [reflexivity|].
      split; [exact (proj1 (proj1 Hd))|exact Hend].
  - discriminate.
Qed.

(** X20.  Second revision, with or without a receiver, however many bytes
    the receiver reads of each chunk: a clip that the traversal returns
    holds channels and bit depth below 2^16, a sample rate below 2^30 and a
    size below 2^32, none negative, and its reader is the stream given,
    standing at its end. *)
Theorem V2_traverse_clip (fuel : nat) (rd : Reader) (ch : option Consumer)
    (c : Clip) (e : option error) :
  0 <= cur rd <= Z.of_nat (List.length (buf rd)) ->
  V2.result (V2.traverse fuel (NewDecoder rd ch)) = Some (Some c, e) ->
  (0 <= channels c < 2 ^ 16 /\ 0 <= bitDepth c < 2 ^ 16 /\
   0 <= sampleRate c < 2 ^ 30 /\ 0 <= size c < 2 ^ 32) /\
  exists rd', clip_r c = Some rd' /\ buf rd' = buf rd /\
              cur rd' = Z.of_nat (List.length (buf rd)).
Proof.
  intros Hc. unfold V2.traverse.
  pose proof (loop_ok_start rd (fst (readHeaders (NewDecoder rd ch))) ch Hc eq_refl)
    as H0.
  destruct (readHeaders (NewDecoder rd ch)) as [d [e0|]]; [cbn; discriminate|].
  cbn [fst] in H0. intro H.
  exact (V2_loop_ok (buf rd) fuel _ c e H0 eq_refl H).
Qed.

Lemma V2_traverse_clip_witness :
  exists c : Clip,
    V2.result (V2.traverse 4
      (NewDecoder (NewReader (ssnd_then_comm [])) (Some reads_payload)))
      = Some (Some c, None) /\
    0 <= size c < 2 ^ 32.
Proof.
  eexists. split; [vm_compute; reflexivity|].
  apply (V2_traverse_clip 4 (NewReader (ssnd_then_comm [])) (Some reads_payload) _ None
           ltac:(cbn; lia) ltac:(vm_compute; reflexivity)).
Defined.
